(** * AI agent load balancer: allocation ledger and scaling policy

    A shallow embedding of [src/utils/ai_agent_load_balancer.py] and the
    properties of its allocation ledger, task registry and scaling policy.

    - Python [int] is [Z] (unbounded).
    - Python [float] is IEEE-754 binary64, taken from the Standard Library's
      [SpecFloat] ([prec = 53], [emax = 1024]); the arithmetic the source
      performs on floats ([int / int], [float * int], [int * float],
      [int(float)], comparisons with small integer literals) is written out
      in [Module PyFloat].
    - Python [dict] with string keys is [gmap string Z]; [d.get(k, 0)] is
      [dict_get d k 0].  The loops of the source over a dictionary touch
      each key once and their bodies commute, so the iteration order of the
      dictionary is not observable in the results modelled here.
    - Dictionaries are objects.  A task keeps the dictionary the caller
      passed to [assign_task], not a copy, and the caller can pass one of
      the tables of the balancer itself, which the class goes on writing
      to.  A request or a reservation is therefore a reference
      ([DictRef]): to the capacity table, the workload table or the
      allocation table of the balancer, or to another dictionary object.
      No operation of the class writes to a dictionary of the last kind,
      so it is kept as its contents.  The five fields of a balancer are
      five objects of their own, and so is every task of its two lists.
    - A raised exception ([OverflowError], [KeyError], [ZeroDivisionError])
      is [None]; the partially updated object a caller could observe after
      catching it is not modelled.
    - [datetime.now().isoformat()] is an extra argument [now] of the two
      operations that read the clock.
    - [print] is dropped; the report and the export only read the state.

    Layout: the embedding; the views and vocabulary of the statements;
    lemmas on binary64 rounding, on dictionaries, on the loops, on the task
    queue and on correctly rounded quotients; the scenarios of the
    specification; the claims C1 to C10; further properties of the pool
    operations, the task registry and the scaling policy. *)

From Stdlib Require Import ZArith Lia SpecFloat.
From stdpp Require Import gmap strings list fin_maps.

Local Open Scope Z_scope.

(** ** Python floats *)

Module PyFloat.

Definition prec : Z := 53.
Definition emax : Z := 1024.

(** [float(n)] for an [int]: correctly rounded (ties to even),
    [OverflowError] when the rounded value is out of range. *)
Definition float_of_int (n : Z) : option spec_float :=
  match binary_normalize prec emax n 0 false with
  | S754_infinity _ => None
  | f => Some f
  end.

(** [int(x)] for a [float]: truncation toward zero; [OverflowError] on an
    infinity and [ValueError] on a NaN. *)
Definition int_of_float (x : spec_float) : option Z :=
  match x with
  | S754_zero _ => Some 0
  | S754_finite s m e => Some (cond_Zopp s (Z.shiftl (Zpos m) e))
  | S754_infinity _ | S754_nan => None
  end.

(** [math.floor(x)], the rounding the specification names. *)
Definition floor_of_float (x : spec_float) : option Z :=
  match x with
  | S754_zero _ => Some 0
  | S754_finite s m e => Some (Z.shiftl (cond_Zopp s (Zpos m)) e)
  | S754_infinity _ | S754_nan => None
  end.

(** [x * y] on two floats never raises. *)
Definition float_mul (x y : spec_float) : spec_float := SFmul prec emax x y.

(** [n * y] and [x * n] with [n] an [int]: [n] is converted first. *)
Definition mul_int_float (n : Z) (y : spec_float) : option spec_float :=
  x ← float_of_int n; Some (float_mul x y).

Definition mul_float_int (x : spec_float) (n : Z) : option spec_float :=
  y ← float_of_int n; Some (float_mul x y).

(** [a / b] on two [int]s: the correctly rounded quotient;
    [ZeroDivisionError] when [b = 0], [OverflowError] when the quotient is
    out of range, a signed zero when [a = 0]. *)
Definition int_truediv (a b : Z) : option spec_float :=
  if b =? 0 then None
  else if a =? 0 then Some (S754_zero (b <? 0))
  else
    match SFdiv prec emax (S754_finite (a <? 0) (Z.to_pos (Z.abs a)) 0)
                          (S754_finite (b <? 0) (Z.to_pos (Z.abs b)) 0) with
    | S754_infinity _ => None
    | f => Some f
    end.

(** [x > n] and [x < n] for a float [x] and an [int] literal [n] that is
    exactly representable (the source uses 80 and 30). *)
Definition float_gt_int (x : spec_float) (n : Z) : bool :=
  SFltb (binary_normalize prec emax n 0 false) x.

Definition float_lt_int (x : spec_float) (n : Z) : bool :=
  SFltb x (binary_normalize prec emax n 0 false).

(** The literals [0.0], [1.5] and [0.7], and [float(100)]. *)
Definition f0_0 : spec_float := S754_zero false.
Definition f1_5 : spec_float := S754_finite false 6755399441055744 (-52).
Definition f0_7 : spec_float := S754_finite false 6305039478318694 (-53).
Definition f100 : spec_float := S754_finite false 7036874417766400 (-46).

End PyFloat.

Import PyFloat.

(** ** Data model *)

Inductive TaskStatus := in_progress | completed.

(** A dictionary object as a caller or a task holds it. *)
Inductive DictRef :=
| self_agent_capacity
| self_current_workload
| self_agent_allocation
| dict_object (d : gmap string Z).

Record Task := mkTask {
  name : string;
  agents : DictRef;
  start_time : string;
  status : TaskStatus;
  end_time : option string
}.

Record AIAgentLoadBalancer := mkBalancer {
  agent_capacity : gmap string Z;
  current_workload : gmap string Z;
  agent_allocation : gmap string Z;
  task_queue : list Task;
  completed_tasks : list Task
}.

#[global] Instance TaskStatus_eq_dec : EqDecision TaskStatus.
Proof. solve_decision. Defined.

(** The dictionary a reference stands for, as the balancer is now. *)
Definition deref (s : AIAgentLoadBalancer) (r : DictRef) : gmap string Z :=
  match r with
  | self_agent_capacity => agent_capacity s
  | self_current_workload => current_workload s
  | self_agent_allocation => agent_allocation s
  | dict_object d => d
  end.

(** [Task.__eq__] as [dataclass] generates it: field by field, two
    dictionaries being equal when their contents are. *)
Definition task_eqb (s : AIAgentLoadBalancer) (t1 t2 : Task) : bool :=
  bool_decide (name t1 = name t2) &&
  bool_decide (deref s (agents t1) = deref s (agents t2)) &&
  bool_decide (start_time t1 = start_time t2) &&
  bool_decide (status t1 = status t2) &&
  bool_decide (end_time t1 = end_time t2).

(** Values of [current_workload] are integers or booleans; a boolean is the
    integer 0 or 1, and [bool(v)] is [v ≠ 0]. *)
Definition truthy (v : Z) : bool := negb (v =? 0).

(** [d.get(k, dflt)] *)
Definition dict_get (d : gmap string Z) (k : string) (dflt : Z) : Z :=
  default dflt (d !! k).

(** [sum(d.values())] *)
Definition sum_values (d : gmap string Z) : Z :=
  map_fold (λ _ v acc, acc + v) 0 d.

(** A loop [for k, v in d.items(): d[k] = f(k, v)] whose body may raise. *)
Definition update_values (f : string → Z → option Z) (d : gmap string Z)
  : option (gmap string Z) :=
  map_fold (λ k v acc, d' ← acc; v' ← f k v; Some (<[k := v']> d')) (Some ∅) d.

Definition set_agent_capacity (s : AIAgentLoadBalancer) (c : gmap string Z) :=
  mkBalancer c (current_workload s) (agent_allocation s)
             (task_queue s) (completed_tasks s).

Definition set_agent_allocation (s : AIAgentLoadBalancer) (a : gmap string Z) :=
  mkBalancer (agent_capacity s) (current_workload s) a
             (task_queue s) (completed_tasks s).

Definition set_queues (s : AIAgentLoadBalancer) (q h : list Task) :=
  mkBalancer (agent_capacity s) (current_workload s) (agent_allocation s) q h.

(** The defaults of the dataclass fields. *)
Definition default_agent_capacity : gmap string Z :=
  list_to_map
    [("research_agents", 12); ("development_agents", 9);
     ("content_agents", 15); ("qa_agents", 6); ("deployment_agents", 6);
     ("sales_agents", 4); ("success_agents", 6); ("analytics_agents", 4)]%string.

Definition default_current_workload : gmap string Z :=
  list_to_map
    [("active_clients", 8); ("pending_onboarding", 17);
     ("delivery_queue", 42); ("capacity_utilization", 68);
     ("auto_scaling_ready", 1)]%string.

(** The generated [__init__] followed by [__post_init__]:
    [agent_allocation = dict.fromkeys(agent_capacity, 0)]. *)
Definition new_balancer (capacity workload : gmap string Z)
    (queue history : list Task) : AIAgentLoadBalancer :=
  mkBalancer capacity workload ((λ _, 0) <$> capacity) queue history.

(** ** Operations *)

Definition get_total_capacity (s : AIAgentLoadBalancer) : Z :=
  sum_values (agent_capacity s).

Definition get_available_agents (s : AIAgentLoadBalancer) (agent_type : string) : Z :=
  let total := dict_get (agent_capacity s) agent_type 0 in
  let allocated := dict_get (agent_allocation s) agent_type 0 in
  Z.max 0 (total - allocated).

Definition allocate_agent (agent_type : string) (count : Z)
    (s : AIAgentLoadBalancer) : bool * AIAgentLoadBalancer :=
  let available := get_available_agents s agent_type in
  if count <=? available then
    (true, set_agent_allocation s
             (<[agent_type := dict_get (agent_allocation s) agent_type 0 + count]>
                (agent_allocation s)))
  else (false, s).

Definition release_agent (agent_type : string) (count : Z)
    (s : AIAgentLoadBalancer) : AIAgentLoadBalancer :=
  set_agent_allocation s
    (<[agent_type := Z.max 0 (dict_get (agent_allocation s) agent_type 0 - count)]>
       (agent_allocation s)).

Definition calculate_utilization (s : AIAgentLoadBalancer) : option spec_float :=
  let total_capacity := get_total_capacity s in
  let total_allocated := sum_values (agent_allocation s) in
  if total_capacity =? 0 then Some f0_0
  else q ← int_truediv total_allocated total_capacity; mul_float_int q 100.

(** [utilization > 80 and bool(self.current_workload["auto_scaling_ready"])]:
    the workload is only read when the first operand holds, and reading a
    missing key raises [KeyError]. *)
Definition should_scale_up (s : AIAgentLoadBalancer) : option bool :=
  utilization ← calculate_utilization s;
  if float_gt_int utilization 80
  then truthy <$> current_workload s !! "auto_scaling_ready"%string
  else Some false.

Definition should_scale_down (s : AIAgentLoadBalancer) : option bool :=
  utilization ← calculate_utilization s;
  Some (float_lt_int utilization 30).

(** [int(capacity * 1.5)] *)
Definition scale_up_capacity (capacity : Z) : option Z :=
  x ← mul_int_float capacity f1_5; int_of_float x.

(** [max(allocated + 2, int(capacity * 0.7))] *)
Definition scale_down_capacity (allocated capacity : Z) : option Z :=
  x ← mul_int_float capacity f0_7;
  r ← int_of_float x;
  Some (Z.max (allocated + 2) r).

Definition auto_scale (s : AIAgentLoadBalancer) : option AIAgentLoadBalancer :=
  up ← should_scale_up s;
  if up : bool then
    c ← update_values (λ _ capacity, scale_up_capacity capacity) (agent_capacity s);
    Some (set_agent_capacity s c)
  else
    down ← should_scale_down s;
    if down : bool then
      c ← update_values
             (λ agent_type capacity,
                scale_down_capacity (dict_get (agent_allocation s) agent_type 0) capacity)
             (agent_capacity s);
      Some (set_agent_capacity s c)
    else Some s.

(** [all(self.get_available_agents(t) >= count for t, count in required.items())] *)
Definition can_allocate (s : AIAgentLoadBalancer) (required_agents : DictRef) : bool :=
  map_fold (λ agent_type count acc, acc && (count <=? get_available_agents s agent_type))
           true (deref s required_agents).

(** One turn of a loop [for agent_type, count in d.items(): ...] whose
    body may write to [d]: the count of a key is read when the loop
    reaches the key.  The bodies below add no key to [d], so the keys are
    those [d] has when the loop starts and the key reached is present. *)
Definition count_now (s : AIAgentLoadBalancer) (d : DictRef)
    (agent_type : string) (count : Z) : Z :=
  default count (deref s d !! agent_type).

(** [for agent_type, count in required_agents.items():
        self.allocate_agent(agent_type, count)] (the result of each call is
    dropped). *)
Definition allocate_all (required_agents : DictRef)
    (s : AIAgentLoadBalancer) : AIAgentLoadBalancer :=
  map_fold (λ agent_type count st,
              snd (allocate_agent agent_type
                     (count_now st required_agents agent_type count) st))
           s (deref s required_agents).

(** [for agent_type, count in task.agents.items():
        self.release_agent(agent_type, count)] *)
Definition release_all (reservation : DictRef)
    (s : AIAgentLoadBalancer) : AIAgentLoadBalancer :=
  map_fold (λ agent_type count st,
              release_agent agent_type
                (count_now st reservation agent_type count) st)
           s (deref s reservation).

(** The new task keeps the dictionary object the caller passed. *)
Definition assign_task (now : string) (task_name : string)
    (required_agents : DictRef) (s : AIAgentLoadBalancer)
  : bool * AIAgentLoadBalancer :=
  if negb (can_allocate s required_agents) then (false, s)
  else
    let s1 := allocate_all required_agents s in
    let task := mkTask task_name required_agents now in_progress None in
    (true, set_queues s1 (task_queue s1 ++ [task]) (completed_tasks s1)).

(** Index and value of the first task of the queue called [task_name]. *)
Fixpoint find_task (task_name : string) (q : list Task) : option (nat * Task) :=
  match q with
  | [] => None
  | task :: q' =>
      if decide (name task = task_name) then Some (O, task)
      else '(i, t) ← find_task task_name q'; Some (S i, t)
  end.

(** [list.remove(x)]: drops the first element equal to [x].  The source only
    calls it with an element of the list, so the [ValueError] of a missing
    element does not arise. *)
Fixpoint list_remove (s : AIAgentLoadBalancer) (x : Task) (q : list Task) : list Task :=
  match q with
  | [] => []
  | y :: q' => if task_eqb s y x then q' else y :: list_remove s x q'
  end.

(** The task object is updated in place, so the change of [status] and
    [end_time] is also seen through the queue ([<[i := done]>]) before
    [remove] compares the elements with it. *)
Definition complete_task (now : string) (task_name : string)
    (s : AIAgentLoadBalancer) : AIAgentLoadBalancer :=
  match find_task task_name (task_queue s) with
  | None => s
  | Some (i, task) =>
      let s1 := release_all (agents task) s in
      let done := mkTask (name task) (agents task) (start_time task)
                         completed (Some now) in
      set_queues s1 (list_remove s1 done (<[i := done]> (task_queue s1)))
                 (completed_tasks s1 ++ [done])
  end.
(** ** Views of the state used in the statements *)

(** The allocated count and the capacity of a pool, as every reader of the
    two tables sees them ([.get(pool, 0)]). *)
Definition allocated (s : AIAgentLoadBalancer) (pool : string) : Z :=
  dict_get (agent_allocation s) pool 0.

Definition capacity (s : AIAgentLoadBalancer) (pool : string) : Z :=
  dict_get (agent_capacity s) pool 0.

(** The reservation a task holds against a pool, read from the
    dictionary the task keeps as that dictionary is now. *)
Definition reserved (s : AIAgentLoadBalancer) (t : Task) (pool : string) : Z :=
  dict_get (deref s (agents t)) pool 0.

(** Sum over the live tasks of their reservations against [pool]. *)
Definition live_reserved (s : AIAgentLoadBalancer) (q : list Task) (pool : string) : Z :=
  foldr (λ t acc, reserved s t pool + acc) 0 q.

(** [0 ≤ allocated[p] ≤ capacity[p]] for every pool name. *)
Definition capacity_invariant (s : AIAgentLoadBalancer) : Prop :=
  ∀ pool, 0 ≤ allocated s pool ≤ capacity s pool.

(** A request or reservation map with positive counts only. *)
Definition positive_counts (r : gmap string Z) : Prop :=
  map_Forall (λ _ count, 0 < count) r.

(** The same state with another workload table. *)
Definition set_current_workload (s : AIAgentLoadBalancer) (w : gmap string Z) :=
  mkBalancer (agent_capacity s) w (agent_allocation s)
             (task_queue s) (completed_tasks s).

(** ** Sequences of calls *)

(** The task-driven calls of the public interface. *)
Inductive Call :=
| AssignTask (now task_name : string) (required_agents : DictRef)
| CompleteTask (now task_name : string).

Definition call (c : Call) (s : AIAgentLoadBalancer) : AIAgentLoadBalancer :=
  match c with
  | AssignTask now task_name required_agents =>
      snd (assign_task now task_name required_agents s)
  | CompleteTask now task_name => complete_task now task_name s
  end.

Definition run (calls : list Call) (s : AIAgentLoadBalancer) : AIAgentLoadBalancer :=
  foldl (λ st c, call c st) s calls.

(** A dictionary other than the allocation table of the balancer. *)
Definition outside_ledger (r : DictRef) : Prop := r ≠ self_agent_allocation.

(** A call whose request, if it makes one, holds positive counts and is
    not the allocation table itself.  The capacity and workload tables do
    not change along a sequence of task calls, so the counts can be read
    in the state the sequence starts from. *)
Definition positive_request (s : AIAgentLoadBalancer) (c : Call) : Prop :=
  match c with
  | AssignTask _ _ required_agents =>
      outside_ledger required_agents ∧ positive_counts (deref s required_agents)
  | CompleteTask _ _ => True
  end.

(** The invariant carried along a run: the table is the sum of the live
    reservations, and every live reservation holds positive counts in a
    dictionary that is not the table. *)
Definition ledger_invariant (s : AIAgentLoadBalancer) : Prop :=
  (∀ pool, allocated s pool = live_reserved s (task_queue s) pool) ∧
  Forall (λ t, outside_ledger (agents t) ∧ positive_counts (deref s (agents t)))
         (task_queue s).

(** Every operation that writes to the two tables. *)
Inductive Operation :=
| OpAssignTask (now task_name : string) (required_agents : DictRef)
| OpCompleteTask (now task_name : string)
| OpAllocateAgent (agent_type : string) (count : Z)
| OpReleaseAgent (agent_type : string) (count : Z)
| OpAutoScale.

Definition perform (op : Operation) (s : AIAgentLoadBalancer)
  : option AIAgentLoadBalancer :=
  match op with
  | OpAssignTask now task_name required_agents =>
      Some (snd (assign_task now task_name required_agents s))
  | OpCompleteTask now task_name => Some (complete_task now task_name s)
  | OpAllocateAgent agent_type count => Some (snd (allocate_agent agent_type count s))
  | OpReleaseAgent agent_type count => Some (release_agent agent_type count s)
  | OpAutoScale => auto_scale s
  end.

(** Counts under which the capacity invariant is kept: positive for a
    reservation, not negative for a release, and, for a completion, not
    negative in the reservation of the task it releases. *)
Definition sound_counts (s : AIAgentLoadBalancer) (op : Operation) : Prop :=
  match op with
  | OpAssignTask _ _ required_agents => positive_counts (deref s required_agents)
  | OpCompleteTask _ task_name =>
      ∀ i t, find_task task_name (task_queue s) = Some (i, t) →
             map_Forall (λ _ count, 0 ≤ count) (deref s (agents t))
  | OpAllocateAgent _ count => 0 < count
  | OpReleaseAgent _ count => 0 ≤ count
  | OpAutoScale => True
  end.

(** ** The task records *)

(** A task as [assign_task] leaves it in the queue, and as
    [complete_task] leaves it in the history. *)
Definition live_record (t : Task) : Prop :=
  status t = in_progress ∧ end_time t = None.

Definition history_record (t : Task) : Prop :=
  status t = completed ∧ is_Some (end_time t).

Definition task_records_sound (s : AIAgentLoadBalancer) : Prop :=
  Forall live_record (task_queue s) ∧ Forall history_record (completed_tasks s).

(** How many of the assignments of a sequence of calls are accepted. *)
Fixpoint accepted (calls : list Call) (s : AIAgentLoadBalancer) : nat :=
  match calls with
  | [] => O
  | c :: calls' =>
      (match c with
       | AssignTask now task_name required_agents =>
           if fst (assign_task now task_name required_agents s) then 1%nat else O
       | CompleteTask _ _ => O
       end + accepted calls' (call c s))%nat
  end.

(** ** The scale-down formula in the words of the specification *)

(** [max(allocated + 2, floor(capacity * 0.7))], with [floor] for the
    [int(...)] of the source; the product is the binary64 product. *)
Definition scale_down_capacity_floor (allocated capacity : Z) : option Z :=
  x ← mul_int_float capacity f0_7;
  r ← floor_of_float x;
  Some (Z.max (allocated + 2) r).

(** ** States used in the examples *)

(** [AIAgentLoadBalancer()]: every field at its default. *)
Definition default_balancer : AIAgentLoadBalancer :=
  new_balancer default_agent_capacity default_current_workload [] [].

(** One pool, with the scaling flag set or cleared. *)
Definition single_pool (capacity allocated flag : Z) : AIAgentLoadBalancer :=
  mkBalancer {["pool"%string := capacity]}
             {["auto_scaling_ready"%string := flag]}
             {["pool"%string := allocated]} [] [].

(** Capacities [{research: 12, dev: 9}], nothing allocated. *)
Definition two_pools : AIAgentLoadBalancer :=
  new_balancer (list_to_map [("research", 12); ("dev", 9)]%string)
               default_current_workload [] [].

(** [allocate_agent("ghost", -5)] on a fresh default balancer: the check
    [0 >= -5] passes for a name no table knows. *)
Definition ghost_state : AIAgentLoadBalancer :=
  snd (allocate_agent "ghost" (-5)
         (new_balancer default_agent_capacity default_current_workload [] [])).

(** One pool of capacity 1, fully allocated. *)
Definition full_state : AIAgentLoadBalancer :=
  snd (allocate_agent "pool" 1 (new_balancer {["pool"%string := 1]} ∅ [] [])).

(** The same pool, fully allocated, with a live task that holds a negative
    count: [assign_task("T", {pool: -1})] passed its check. *)
Definition negative_task_state : AIAgentLoadBalancer :=
  snd (allocate_agent "pool" 1
         (snd (assign_task "t0" "T" (dict_object {["pool"%string := -1]}) full_state))).

(** One pool of capacity 10 whose allocated value is -5: the check of
    [allocate_agent("pool", -5)] passes on a fresh balancer. *)
Definition negative_ledger_state : AIAgentLoadBalancer :=
  snd (allocate_agent "pool" (-5) (new_balancer {["pool"%string := 10]} ∅ [] [])).

(** [two_pools] after [assign_task("T1", {research: 3, dev: 2})]. *)
Definition two_pools_busy : AIAgentLoadBalancer :=
  snd (assign_task "t0" "T1"
         (dict_object (list_to_map [("research", 3); ("dev", 2)]%string)) two_pools).

(** One pool of capacity 10 with 2 agents allocated by
    [allocate_agent("pool", 2)]. *)
Definition ledger_state : AIAgentLoadBalancer :=
  snd (allocate_agent "pool" 2 (new_balancer {["pool"%string := 10]} ∅ [] [])).

(** The calls [assign_task("T1", {"pool": 2})] and
    [assign_task("T2", b.agent_allocation)]: the second request is the
    allocation table of the balancer [b] itself. *)
Definition own_table_calls : list Call :=
  [AssignTask "t0" "T1" (dict_object {["pool"%string := 2]});
   AssignTask "t1" "T2" self_agent_allocation].

(** A balancer constructed with a task already in its queue:
    [AIAgentLoadBalancer(agent_capacity={"pool": 10},
       task_queue=[Task("T0", {"pool": 3}, "t0", "in_progress")])]. *)
Definition queued_state : AIAgentLoadBalancer :=
  new_balancer {["pool"%string := 10]} ∅
    [mkTask "T0" (dict_object {["pool"%string := 3]}) "t0" in_progress None] [].


(** Two live tasks of the same name. *)
Definition duplicate_names : AIAgentLoadBalancer :=
  run [AssignTask "t0" "T" (dict_object {["pool"%string := 1]});
       AssignTask "t1" "T" (dict_object {["pool"%string := 2]})] (single_pool 10 0 1).

(** ** The result of a rounding step *)

(** How [binary_round_aux] packs a mantissa and an exponent. *)
Definition encode (sx : bool) (m e : Z) : spec_float :=
  match m with
  | Z0 => S754_zero sx
  | Zpos p => if e <=? emax - prec then S754_finite sx p e else S754_infinity sx
  | Zneg _ => S754_nan
  end.


(** ** Rounding to nearest, ties to even *)

(** Where the ratio [N / D] of two integers lies between its integer part
    and the next integer. *)
Definition loc_of (N D : Z) : location :=
  if N mod D =? 0 then loc_Exact else loc_Inexact (2 * (N mod D) ?= D).

(** The integer nearest to [N / D], the even one of the two when [N / D]
    is half-way. *)
Definition nearest_even (N D : Z) : Z :=
  match 2 * (N mod D) ?= D with
  | Lt => N / D
  | Eq => if Z.even (N / D) then N / D else N / D + 1
  | Gt => N / D + 1
  end.

(** ** The exact percentage *)


(** ** The percentage as a double *)

(** The double of [100 * q] for a quotient [q] of mantissa [mq] (53 binary
    digits, or [2 ^ 53] when the rounding carried) and exponent [- k]. *)
Definition percent_double (k mq : Z) : spec_float :=
  if mq =? 9007199254740992 then S754_finite false 7036874417766400 (7 - k)
  else if 25 * mq <? 144115188075855872
       then S754_finite false (Z.to_pos (nearest_even (25 * mq) 16)) (6 - k)
       else S754_finite false (Z.to_pos (nearest_even (25 * mq) 32)) (7 - k).
(** ** Binary64 arithmetic *)

(** The two powers of two that bound a 53-digit mantissa, as literals. *)
Ltac mantissa_bounds :=
  change (2 ^ 52) with 4503599627370496 in *;
  change (2 ^ 53) with 9007199254740992 in *.

Section binary64.

Lemma fexp_eq x : fexp prec emax x = Z.max (x - 53) (-1074).
Proof. reflexivity. Qed.

Lemma digits2_pos_bounds p :
  2 ^ (Zpos (digits2_pos p) - 1) ≤ Zpos p < 2 ^ Zpos (digits2_pos p).
Proof.
  induction p as [p IH | p IH |]; simpl digits2_pos.
  - rewrite Pos2Z.inj_succ. change (Zpos p~1) with (2 * Zpos p + 1).
    pose proof (Pos2Z.is_pos (digits2_pos p)) as Hd. revert IH Hd.
    generalize (Zpos (digits2_pos p)). intros d IH Hd.
    replace (Z.succ d - 1) with (Z.succ (d - 1)) by lia.
    rewrite (Z.pow_succ_r 2 (d - 1)) by lia.
    rewrite (Z.pow_succ_r 2 d) by lia. lia.
  - rewrite Pos2Z.inj_succ. change (Zpos p~0) with (2 * Zpos p).
    pose proof (Pos2Z.is_pos (digits2_pos p)) as Hd. revert IH Hd.
    generalize (Zpos (digits2_pos p)). intros d IH Hd.
    replace (Z.succ d - 1) with (Z.succ (d - 1)) by lia.
    rewrite (Z.pow_succ_r 2 (d - 1)) by lia.
    rewrite (Z.pow_succ_r 2 d) by lia. lia.
  - simpl. lia.
Qed.

Lemma Zdigits2_nonneg m : 0 ≤ Zdigits2 m.
Proof. destruct m; simpl; lia. Qed.

Lemma Zdigits2_upper m : 0 ≤ m → m < 2 ^ Zdigits2 m.
Proof.
  destruct m as [| p | p]; simpl; intros H; [lia | | lia].
  apply digits2_pos_bounds.
Qed.

Lemma Zdigits2_lower m : 0 < m → 2 ^ (Zdigits2 m - 1) ≤ m.
Proof.
  destruct m as [| p | p]; simpl; intros H; [lia | | lia].
  apply digits2_pos_bounds.
Qed.

Lemma Zdigits2_le m k : 0 ≤ m → 0 ≤ k → (Zdigits2 m ≤ k ↔ m < 2 ^ k).
Proof.
  intros Hm Hk. split.
  - intros Hd. pose proof (Zdigits2_upper m Hm).
    assert (2 ^ Zdigits2 m ≤ 2 ^ k) by (apply Z.pow_le_mono_r; lia). lia.
  - intros Hlt. destruct (Z.eq_dec m 0) as [-> | Hne]; [simpl; lia |].
    pose proof (Zdigits2_lower m ltac:(lia)) as Hl.
    destruct (Z.le_gt_cases (Zdigits2 m) k) as [| Hgt]; [assumption |].
    assert (2 ^ k ≤ 2 ^ (Zdigits2 m - 1)) by (apply Z.pow_le_mono_r; lia). lia.
Qed.

Lemma Zdigits2_unique m d : 0 < d → 2 ^ (d - 1) ≤ m < 2 ^ d → Zdigits2 m = d.
Proof.
  intros Hd [Hl Hu].
  assert (0 < m) by (pose proof (Z.pow_pos_nonneg 2 (d - 1)); lia).
  assert (Zdigits2 m ≤ d) by (apply Zdigits2_le; lia).
  destruct (Z.le_gt_cases d (Zdigits2 m)) as [| Hlt]; [lia |].
  assert (m < 2 ^ (d - 1)) by (apply Zdigits2_le; lia). lia.
Qed.

Lemma shr_1_nonneg m r s :
  0 ≤ m → shr_1 (Build_shr_record m r s) = Build_shr_record (m / 2) (Z.odd m) (r || s).
Proof.
  intros Hm. rewrite <- Z.div2_div.
  destruct m as [| [p | p |] | p]; simpl; try reflexivity. lia.
Qed.

Lemma iter_pos_nat {A} (f : A → A) n x :
  SpecFloat.iter_pos f n x = Nat.iter (Pos.to_nat n) f x.
Proof.
  revert x. induction n as [n IH | n IH |]; intros x.
  - change (SpecFloat.iter_pos f n~1 x)
      with (SpecFloat.iter_pos f n (SpecFloat.iter_pos f n (f x))).
    rewrite !IH, Pos2Nat.inj_xI, <- Nat.iter_succ_r, <- Nat.iter_add.
    f_equal. lia.
  - change (SpecFloat.iter_pos f n~0 x)
      with (SpecFloat.iter_pos f n (SpecFloat.iter_pos f n x)).
    rewrite !IH, Pos2Nat.inj_xO, <- Nat.iter_add. f_equal. lia.
  - reflexivity.
Qed.

Lemma shr_iter_m (k : nat) m r s :
  0 ≤ m → shr_m (Nat.iter k shr_1 (Build_shr_record m r s)) = m / 2 ^ Z.of_nat k.
Proof.
  revert m r s. induction k as [| k IH]; intros m r s Hm.
  - simpl. rewrite Z.div_1_r. reflexivity.
  - rewrite Nat.iter_succ_r, shr_1_nonneg by exact Hm.
    rewrite IH by (apply Z.div_pos; lia).
    rewrite Nat2Z.inj_succ, Z.pow_succ_r by lia.
    rewrite Z.div_div by lia. reflexivity.
Qed.

Lemma shr_iter_exact (k : nat) q :
  0 ≤ q →
  Nat.iter k shr_1 (Build_shr_record (q * 2 ^ Z.of_nat k) false false) =
  Build_shr_record q false false.
Proof.
  intros Hq. induction k as [| k IH].
  - simpl. rewrite Z.mul_1_r. reflexivity.
  - rewrite Nat.iter_succ_r, shr_1_nonneg by (apply Z.mul_nonneg_nonneg; lia).
    rewrite Nat2Z.inj_succ, Z.pow_succ_r by lia.
    replace (q * (2 * 2 ^ Z.of_nat k)) with (2 * (q * 2 ^ Z.of_nat k)) by lia.
    rewrite Z.odd_mul, Z.mul_comm, Z.div_mul by lia. simpl. exact IH.
Qed.


Lemma shr_record_of_loc_m m l : shr_m (shr_record_of_loc m l) = m.
Proof. destruct l as [| []]; reflexivity. Qed.

Lemma loc_of_shr_record_of_loc m l : loc_of_shr_record (shr_record_of_loc m l) = l.
Proof. destruct l as [| []]; reflexivity. Qed.

(** The first shift of [binary_round_aux]: the mantissa is divided by
    [2 ^ n], and an exact location stays exact when the division is. *)
Lemma shr_spec m l e nr :
  0 ≤ m →
  let n := Z.max 0 nr in
  ∃ mrs, shr (shr_record_of_loc m l) e nr = (mrs, e + n) ∧
         shr_m mrs = m / 2 ^ n ∧
         (l = loc_Exact → m mod 2 ^ n = 0 → loc_of_shr_record mrs = loc_Exact).
Proof.
  intros Hm. cbv zeta. destruct nr as [| p | p];
    [change (Z.max 0 0) with 0 | change (Z.max 0 (Zpos p)) with (Zpos p)
     | change (Z.max 0 (Zneg p)) with 0].
  - eexists. split; [simpl; rewrite Z.add_0_r; reflexivity |].
    rewrite shr_record_of_loc_m, Z.div_1_r. split; [reflexivity |].
    intros -> _. reflexivity.
  - eexists. split; [reflexivity |]. rewrite iter_pos_nat. split.
    + destruct l as [| []]; simpl shr_record_of_loc;
        rewrite shr_iter_m by exact Hm; rewrite positive_nat_Z; reflexivity.
    + intros -> Hmod. simpl shr_record_of_loc.
      rewrite (Z.div_mod m (2 ^ Zpos p)) at 1 by (apply Z.pow_nonzero; lia).
      rewrite Hmod, Z.add_0_r, Z.mul_comm, <- (positive_nat_Z p).
      rewrite shr_iter_exact; [reflexivity |].
      apply Z.div_pos; [exact Hm | apply Z.pow_pos_nonneg; lia].
  - eexists. split; [simpl; rewrite Z.add_0_r; reflexivity |].
    rewrite shr_record_of_loc_m, Z.div_1_r. split; [reflexivity |].
    intros -> _. reflexivity.
Qed.

Lemma round_nearest_even_bounds m l :
  m ≤ round_nearest_even m l ≤ m + 1.
Proof.
  destruct l as [| []]; simpl; try lia. destruct (Z.even m); lia.
Qed.

Lemma div_pow2_lt m d n :
  0 ≤ m → m < 2 ^ d → 0 ≤ n → d - 53 ≤ n → m / 2 ^ n < 2 ^ 53.
Proof.
  intros Hm Hd Hn Hdn.
  assert (H2n : 0 < 2 ^ n) by (apply Z.pow_pos_nonneg; lia).
  apply Z.div_lt_upper_bound; [exact H2n |].
  destruct (Z.le_gt_cases d 0) as [Hd0 | Hd0].
  - assert (2 ^ d ≤ 2 ^ 0) by (apply Z.pow_le_mono_r; lia).
    assert (0 < 2 ^ 53) by (apply Z.pow_pos_nonneg; lia).
    change (2 ^ 0) with 1 in *. nia.
  - rewrite <- Z.pow_add_r by lia.
    assert (2 ^ d ≤ 2 ^ (n + 53)) by (apply Z.pow_le_mono_r; lia). lia.
Qed.

(** What [binary_round_aux] computes on a non-negative mantissa: a shift by
    [n] binary digits, a rounding that keeps the quotient or adds one, and
    a renormalisation when the rounding carried into a 54th digit. *)
Lemma binary_round_aux_structure sx m e l :
  0 ≤ m →
  let n := Z.max 0 (fexp prec emax (Zdigits2 m + e) - e) in
  ∃ m2, m / 2 ^ n ≤ m2 ≤ m / 2 ^ n + 1 ∧ m2 ≤ 9007199254740992 ∧
        binary_round_aux prec emax sx m e l =
          (if m2 =? 9007199254740992
           then encode sx 4503599627370496 (e + n + 1)
           else encode sx m2 (e + n)) ∧
        (l = loc_Exact → m mod 2 ^ n = 0 → m2 = m / 2 ^ n).
Proof.
  intros Hm n. unfold binary_round_aux, shr_fexp.
  destruct (shr_spec m l e (fexp prec emax (Zdigits2 m + e) - e) Hm)
    as (mrs & Hshr & Hmrs & Hexact).
  fold n in Hshr, Hmrs, Hexact. rewrite Hshr.
  set (m2 := round_nearest_even (shr_m mrs) (loc_of_shr_record mrs)).
  assert (Hn : 0 ≤ n) by (unfold n; lia).
  assert (Hfe : fexp prec emax (Zdigits2 m + e) - e ≤ n) by (unfold n; lia).
  rewrite fexp_eq in Hfe.
  assert (Hm1 : m / 2 ^ n < 2 ^ 53).
  { apply (div_pow2_lt m (Zdigits2 m)); [exact Hm | | exact Hn | lia].
    apply Zdigits2_upper. exact Hm. }
  assert (Hm1' : 0 ≤ m / 2 ^ n) by (apply Z.div_pos; [exact Hm | apply Z.pow_pos_nonneg; lia]).
  pose proof (round_nearest_even_bounds (shr_m mrs) (loc_of_shr_record mrs)) as Hb.
  fold m2 in Hb. rewrite Hmrs in Hb. change (2 ^ 53) with 9007199254740992 in Hm1.
  exists m2. split; [exact Hb |]. split; [lia |]. split.
  - destruct (Z.eqb_spec m2 9007199254740992) as [-> | Hne].
    + unfold shr_record_of_loc. rewrite fexp_eq.
      change (Zdigits2 9007199254740992) with 54.
      replace (Z.max (54 + (e + n) - 53) (-1074) - (e + n)) with 1 by lia.
      reflexivity.
    + assert (Hd2 : Zdigits2 m2 ≤ 53).
      { apply Zdigits2_le; [lia | lia |]. change (2 ^ 53) with 9007199254740992. lia. }
      rewrite fexp_eq.
      destruct (Z.max (Zdigits2 m2 + (e + n) - 53) (-1074) - (e + n)) as [| p | p] eqn:Hnr;
        [| lia |]; simpl; destruct m2; reflexivity.
  - intros Hl Hmod. unfold m2. rewrite (Hexact Hl Hmod), Hmrs. reflexivity.
Qed.


Lemma pos_iter_xO mx d : Zpos (Pos.iter xO mx d) = Zpos mx * 2 ^ Zpos d.
Proof.
  rewrite <- Z.shiftl_mul_pow2 by lia. simpl.
  apply (Pos.iter_swap_gen _ _ Zpos xO (Z.mul 2)). reflexivity.
Qed.

Lemma pow2_pos k : 0 ≤ k → 0 < 2 ^ k.
Proof. intros. apply Z.pow_pos_nonneg; lia. Qed.

Lemma pow2_split a b : 0 ≤ a → 0 ≤ b → 2 ^ (a + b) = 2 ^ a * 2 ^ b.
Proof. intros. apply Z.pow_add_r; assumption. Qed.

(** [float(c)] for a positive or negative integer of magnitude [Zpos p]:
    a 53-digit mantissa; exact up to 53 digits, and otherwise off by less
    than one unit of the last digit kept. *)
Lemma binary_round_int sx p :
  let c := Zpos p in
  let d := Zdigits2 c in
  ∃ mx ex,
    binary_round prec emax sx p 0 =
      (if ex <=? 971 then S754_finite sx mx ex else S754_infinity sx) ∧
    2 ^ 52 ≤ Zpos mx < 2 ^ 53 ∧
    (d ≤ 53 → ex = d - 53 ∧ Zpos mx = c * 2 ^ (53 - d)) ∧
    (53 < d → d - 53 ≤ ex ≤ d - 52 ∧ Zpos mx * 2 ^ ex ≤ c + 2 ^ ex ∧
              c < (Zpos mx + 1) * 2 ^ ex).
Proof.
  intros c d.
  assert (Hd1 : 1 ≤ d) by (unfold d, c; simpl; lia).
  pose proof (Zdigits2_upper c ltac:(lia)) as Hup.
  pose proof (Zdigits2_lower c ltac:(unfold c; lia)) as Hlo.
  fold d in Hup, Hlo.
  unfold binary_round, shl_align.
  change (Zpos (digits2_pos p)) with d. rewrite fexp_eq.
  replace (Z.max (d + 0 - 53) (-1074) - 0) with (d - 53) by lia.
  destruct (d - 53) as [| q | q] eqn:Hq.
  - (* exactly 53 digits *)
    assert (d = 53) by lia.
    destruct (binary_round_aux_structure sx c 0 loc_Exact ltac:(lia))
      as (m2 & Hb & _ & Hres & Hex).
    fold d in Hb, Hres, Hex. rewrite fexp_eq in Hb, Hres, Hex.
    replace (Z.max 0 (Z.max (d + 0 - 53) (-1074) - 0)) with 0 in * by lia.
    rewrite Z.div_1_r in *. rewrite (Hex eq_refl (Z.mod_1_r c)) in Hres.
    replace (Z.max (d + 0 - 53) (-1074)) with 0 by lia.
    fold c. rewrite Hres.
    destruct (Z.eqb_spec c 9007199254740992) as [Heq | _].
    { change 9007199254740992 with (2 ^ 53) in Heq. subst d. rewrite H in Hup. lia. }
    exists p, 0. split; [reflexivity |]. fold c.
    rewrite H in *. change (53 - 1) with 52 in Hlo.
    repeat split; try lia.
  - (* more than 53 digits: the low [d - 53] digits are rounded away *)
    assert (Hdq : d = 53 + Zpos q) by lia.
    destruct (binary_round_aux_structure sx c 0 loc_Exact ltac:(lia))
      as (m2 & Hb & Hle & Hres & _).
    fold d in Hb, Hres. rewrite fexp_eq in Hb, Hres.
    replace (Z.max 0 (Z.max (d + 0 - 53) (-1074) - 0)) with (Zpos q) in * by lia.
    fold c. rewrite Hres. clear Hres.
    pose proof (pow2_pos (Zpos q) ltac:(lia)) as H2q.
    assert (Hdiv : c / 2 ^ Zpos q * 2 ^ Zpos q ≤ c < (c / 2 ^ Zpos q + 1) * 2 ^ Zpos q).
    { pose proof (Z.div_mod c (2 ^ Zpos q) ltac:(lia)).
      pose proof (Z.mod_pos_bound c (2 ^ Zpos q) H2q). lia. }
    assert (Hm1 : 2 ^ 52 ≤ c / 2 ^ Zpos q).
    { apply Z.div_le_lower_bound; [exact H2q |].
      rewrite <- pow2_split by lia. replace (Zpos q + 52) with (d - 1) by lia. exact Hlo. }
    destruct (Z.eqb_spec m2 9007199254740992) as [Heq | Hne].
    + exists 4503599627370496%positive, (0 + Zpos q + 1). split; [reflexivity |].
      split; [mantissa_bounds; lia |].
      split; [lia |]. intros _. split; [lia |].
      rewrite (pow2_split (0 + Zpos q) 1) by lia. rewrite Z.add_0_l.
      change (2 ^ 1) with 2. subst m2. nia.
    + destruct m2 as [| m2 | m2]; [change (2 ^ 52) with 4503599627370496 in Hm1; lia | | lia].
      exists m2, (0 + Zpos q). split; [reflexivity |].
      change (2 ^ 53) with 9007199254740992.
      split; [lia |]. split; [lia |]. intros _. rewrite Z.add_0_l.
      split; [lia |]. nia.
  - (* fewer than 53 digits: the mantissa is shifted left, nothing is lost *)
    assert (Hdq : d = 53 - Zpos q) by lia.
    set (mz := Pos.iter xO p q).
    assert (Hmz : Zpos mz = c * 2 ^ Zpos q) by apply pos_iter_xO.
    pose proof (pow2_pos (Zpos q) ltac:(lia)) as H2q.
    assert (Hmzb : 2 ^ 52 ≤ Zpos mz < 2 ^ 53).
    { rewrite Hmz. replace 52 with (d - 1 + Zpos q) by lia.
      replace 53 with (d + Zpos q) by lia.
      rewrite !pow2_split by lia. nia. }
    assert (Hdz : Zdigits2 (Zpos mz) = 53) by (apply Zdigits2_unique; [lia | exact Hmzb]).
    destruct (binary_round_aux_structure sx (Zpos mz) (Z.max (d + 0 - 53) (-1074))
                loc_Exact ltac:(lia)) as (m2 & Hb & _ & Hres & Hex).
    rewrite Hdz, fexp_eq in Hb, Hres, Hex.
    replace (Z.max (d + 0 - 53) (-1074)) with (d - 53) in * by lia.
    replace (Z.max 0 (Z.max (53 + (d - 53) - 53) (-1074) - (d - 53))) with 0 in * by lia.
    rewrite Z.div_1_r in *. rewrite (Hex eq_refl (Z.mod_1_r _)) in Hres.
    rewrite Hres.
    destruct (Z.eqb_spec (Zpos mz) 9007199254740992) as [Heq | _].
    { change 9007199254740992 with (2 ^ 53) in Heq. lia. }
    exists mz, (d - 53 + 0). split; [reflexivity |].
    split; [exact Hmzb |]. split; [| lia].
    intros _. split; [lia |]. rewrite Hmz. f_equal. f_equal. lia.
Qed.


(** The product of two normal binary64 numbers that stays clear of the
    subnormal range: the 105- or 106-digit product of the mantissas loses
    its low 52 or 53 digits. *)
Lemma SFmul_structure sx mx ex sy my ey :
  2 ^ 52 ≤ Zpos mx < 2 ^ 53 → 2 ^ 52 ≤ Zpos my < 2 ^ 53 →
  -1074 ≤ ex + ey + 52 →
  ∃ n m2 : Z,
    (n = 52 ∨ n = 53) ∧
    2 ^ (n + 52) ≤ Zpos mx * Zpos my < 2 ^ (n + 53) ∧
    Zpos mx * Zpos my / 2 ^ n ≤ m2 ≤ Zpos mx * Zpos my / 2 ^ n + 1 ∧
    SFmul prec emax (S754_finite sx mx ex) (S754_finite sy my ey) =
      (if m2 =? 9007199254740992
       then encode (xorb sx sy) 4503599627370496 (ex + ey + n + 1)
       else encode (xorb sx sy) m2 (ex + ey + n)) ∧
    (Zpos mx * Zpos my mod 2 ^ n = 0 → m2 = Zpos mx * Zpos my / 2 ^ n).
Proof.
  intros Hx Hy He. unfold SFmul. rewrite Pos2Z.inj_mul.
  set (P := Zpos mx * Zpos my).
  assert (HP : 2 ^ 104 ≤ P < 2 ^ 106).
  { unfold P. change (2 ^ 104) with (2 ^ 52 * 2 ^ 52).
    change (2 ^ 106) with (2 ^ 53 * 2 ^ 53). nia. }
  destruct (binary_round_aux_structure (xorb sx sy) P (ex + ey) loc_Exact)
    as (m2 & Hb & _ & Hres & Hex); [lia |].
  rewrite fexp_eq in Hb, Hres, Hex.
  destruct (Z.lt_ge_cases P (2 ^ 105)) as [Hlt | Hge].
  - assert (Hd : Zdigits2 P = 105) by (apply Zdigits2_unique; [lia | simpl; lia]).
    rewrite Hd in Hb, Hres, Hex.
    replace (Z.max 0 (Z.max (105 + (ex + ey) - 53) (-1074) - (ex + ey))) with 52 in * by lia.
    exists 52, m2. split; [by left |]. split; [simpl; lia |].
    split; [exact Hb |]. split; [exact Hres |]. intros Hm. by apply Hex.
  - assert (Hd : Zdigits2 P = 106) by (apply Zdigits2_unique; [lia | simpl; lia]).
    rewrite Hd in Hb, Hres, Hex.
    replace (Z.max 0 (Z.max (106 + (ex + ey) - 53) (-1074) - (ex + ey))) with 53 in * by lia.
    exists 53, m2. split; [by right |]. split; [simpl; lia |].
    split; [exact Hb |]. split; [exact Hres |]. intros Hm. by apply Hex.
Qed.

(** The same product read as a mantissa and an exponent. *)
Lemma SFmul_normal sx mx ex sy my ey :
  2 ^ 52 ≤ Zpos mx < 2 ^ 53 → 2 ^ 52 ≤ Zpos my < 2 ^ 53 →
  -1074 ≤ ex + ey + 52 →
  ∃ (j : Z) (m' : positive),
    0 ≤ j ≤ 2 ∧
    SFmul prec emax (S754_finite sx mx ex) (S754_finite sy my ey) =
      (if ex + ey + 52 + j <=? 971
       then S754_finite (xorb sx sy) m' (ex + ey + 52 + j)
       else S754_infinity (xorb sx sy)) ∧
    2 ^ 52 ≤ Zpos m' < 2 ^ 53 ∧
    Zpos mx * Zpos my / 2 ^ 52 - 1 ≤ Zpos m' * 2 ^ j ≤ Zpos mx * Zpos my / 2 ^ 52 + 2 ∧
    (Zpos mx * Zpos my mod 2 ^ 53 = 0 ∨
     Zpos mx * Zpos my < 2 ^ 105 ∧ Zpos mx * Zpos my mod 2 ^ 52 = 0 →
     Zpos m' * 2 ^ j = Zpos mx * Zpos my / 2 ^ 52).
Proof.
  intros Hx Hy He.
  destruct (SFmul_structure sx mx ex sy my ey Hx Hy He)
    as (n & m2 & Hn & HP & Hb & Hres & Hex).
  rewrite Hres. clear Hres.
  set (P := Zpos mx * Zpos my) in *.
  assert (Hq : 2 ^ 52 ≤ P / 2 ^ n < 2 ^ 53).
  { split.
    - apply Z.div_le_lower_bound; [apply pow2_pos; lia |].
      rewrite <- pow2_split by lia. lia.
    - apply Z.div_lt_upper_bound; [apply pow2_pos; lia |].
      rewrite <- pow2_split by lia. lia. }
  assert (Hdm : P = 2 ^ n * (P / 2 ^ n) + P mod 2 ^ n ∧ 0 ≤ P mod 2 ^ n < 2 ^ n).
  { split; [apply Z.div_mod; apply Z.pow_nonzero; lia |].
    apply Z.mod_pos_bound. apply pow2_pos. lia. }
  assert (Hdm52 : P = 2 ^ 52 * (P / 2 ^ 52) + P mod 2 ^ 52 ∧ 0 ≤ P mod 2 ^ 52 < 2 ^ 52).
  { split; [apply Z.div_mod; lia |]. apply Z.mod_pos_bound. lia. }
  assert (Hdm53 : P = 2 ^ 53 * (P / 2 ^ 53) + P mod 2 ^ 53 ∧ 0 ≤ P mod 2 ^ 53 < 2 ^ 53).
  { split; [apply Z.div_mod; lia |]. apply Z.mod_pos_bound. lia. }
  assert (Hn105 : n = 52 ↔ P < 2 ^ 105).
  { destruct Hn as [-> | ->]; simpl in HP; lia. }
  assert (Hmod : P mod 2 ^ 53 = 0 → P mod 2 ^ 52 = 0).
  { intros H53. destruct Hdm53 as [H Hb53]. rewrite H53, Z.add_0_r in H.
    rewrite H. change (2 ^ 53) with (2 * 2 ^ 52).
    rewrite <- Z.mul_assoc, (Z.mul_comm (2 ^ 52)), Z.mul_assoc.
    apply Z.mod_mul. lia. }
  assert (Hexact : P mod 2 ^ 53 = 0 ∨ P < 2 ^ 105 ∧ P mod 2 ^ 52 = 0 →
                   m2 = P / 2 ^ n ∧ P mod 2 ^ 52 = 0).
  { intros [H53 | [H105 H52]].
    - split; [| by apply Hmod]. apply Hex.
      destruct Hn as [-> | ->]; [by apply Hmod | exact H53].
    - split; [| exact H52]. apply Hex.
      apply Hn105 in H105. subst n. exact H52. }
  clear Hex Hmod.
  mantissa_bounds.
  change (2 ^ 105) with 40564819207303340847894502572032 in *.
  destruct (Z.eqb_spec m2 9007199254740992) as [-> | Hne].
  - exists (n - 52 + 1), 4503599627370496%positive.
    split; [lia |].
    split; [replace (ex + ey + 52 + (n - 52 + 1)) with (ex + ey + n + 1) by lia;
            reflexivity |].
    split; [lia |].
    destruct Hn as [-> | ->]; simpl Z.sub; simpl Z.add;
      [change (2 ^ 1) with 2 | change (2 ^ 2) with 4];
      mantissa_bounds; lia.
  - destruct m2 as [| m2 | m2]; [lia | | lia].
    exists (n - 52), m2.
    split; [lia |].
    split; [replace (ex + ey + 52 + (n - 52)) with (ex + ey + n) by lia;
            reflexivity |].
    split; [lia |].
    destruct Hn as [-> | ->]; simpl Z.sub;
      [change (2 ^ 0) with 1 | change (2 ^ 1) with 2];
      mantissa_bounds.
    + split; [lia |]. intros Hm. destruct (Hexact Hm) as [-> _]. lia.
    + split; [lia |]. intros Hm. destruct (Hexact Hm) as [-> H52].
      destruct Hm as [Hm | [Hm _]]; [| lia].
      destruct Hdm53 as [H53 H53b]. rewrite Hm in H53.
      destruct Hdm52 as [H52' _]. rewrite H52 in H52'. lia.
Qed.


Lemma shiftl_nonneg_exp m e : 0 ≤ e → Z.shiftl m e = m * 2 ^ e.
Proof. intros. apply Z.shiftl_mul_pow2. assumption. Qed.

Lemma shiftl_neg_exp m e : e < 0 → Z.shiftl m e = m / 2 ^ (- e).
Proof.
  intros. rewrite <- (Z.opp_involutive e) at 1.
  rewrite Z.shiftl_opp_r. apply Z.shiftr_div_pow2. lia.
Qed.

(** [int(c * 1.5)] never falls below a non-negative [c]. *)
Lemma scale_up_capacity_ge c r :
  0 ≤ c → scale_up_capacity c = Some r → c ≤ r.
Proof.
  intros Hc. destruct c as [| p | p]; [| | lia].
  - vm_compute. intros [= <-]. discriminate.
  - unfold scale_up_capacity, mul_int_float, float_of_int, binary_normalize.
    destruct (binary_round_int false p) as (mx & ex & Hx & Hmx & Hsmall & Hbig).
    cbv zeta in Hsmall, Hbig. rewrite Hx.
    pose proof (Zdigits2_nonneg (Zpos p)) as Hd0.
    assert (Hd1 : 1 ≤ Zdigits2 (Zpos p)) by (simpl; lia).
    destruct (Z.leb_spec ex 971) as [Hex | Hex]; [| simpl; discriminate].
    change (int_of_float (float_mul (S754_finite false mx ex) f1_5) = Some r →
            Zpos p ≤ r).
    unfold float_mul, f1_5.
    destruct (SFmul_normal false mx ex false 6755399441055744 (-52))
      as (j & m' & Hj & Hres & Hm' & Hlow & _);
      [exact Hmx | mantissa_bounds; lia | lia |].
    rewrite Hres. clear Hres.
    destruct (Z.leb_spec (ex + -52 + 52 + j) 971) as [_ | _]; [| simpl; discriminate].
    unfold int_of_float, cond_Zopp, xorb. intros [= <-]. replace (ex + -52 + 52 + j) with (ex + j) by lia.
    (* twice the product mantissa is at least [3 * mx - 3] *)
    assert (HK : 3 * Zpos mx - 3 ≤ 2 * (Zpos m' * 2 ^ j)).
    { pose proof (Z.div_mod (Zpos mx * 6755399441055744) (2 ^ 52) ltac:(lia)) as Hdm.
      pose proof (Z.mod_pos_bound (Zpos mx * 6755399441055744) (2 ^ 52) ltac:(lia)) as Hmb.
      change (2 ^ 52) with 4503599627370496 in *. lia. }
    clear Hlow.
    assert (HJ : 2 ^ j = 1 ∨ 2 ^ j = 2 ∨ 2 ^ j = 4).
    { assert (j = 0 ∨ j = 1 ∨ j = 2) as [-> | [-> | ->]] by lia; auto. }
    mantissa_bounds.
    destruct (Z.le_gt_cases (Zdigits2 (Zpos p)) 53) as [Hd | Hd].
    + destruct (Hsmall Hd) as [-> Hmxc]. clear Hsmall Hbig.
      set (t := 53 - Zdigits2 (Zpos p)) in *.
      assert (Ht : 0 ≤ t) by (unfold t; lia).
      replace (Zdigits2 (Zpos p) - 53) with (- t) by (unfold t; lia).
      pose proof (pow2_pos t Ht) as H2t.
      destruct (Z.le_gt_cases t j) as [Htj | Htj].
      * rewrite shiftl_nonneg_exp by lia.
        assert (Hsplit : 2 ^ j = 2 ^ (- t + j) * 2 ^ t)
          by (rewrite <- pow2_split by lia; f_equal; lia).
        pose proof (pow2_pos (- t + j) ltac:(lia)) as H2tj.
        rewrite Hsplit in HK. nia.
      * rewrite shiftl_neg_exp by lia.
        apply Z.div_le_lower_bound; [apply pow2_pos; lia |].
        assert (Hsplit : 2 ^ t = 2 ^ (- (- t + j)) * 2 ^ j)
          by (rewrite <- pow2_split by lia; f_equal; lia).
        pose proof (pow2_pos (- (- t + j)) ltac:(lia)) as H2tj.
        rewrite Hsplit in Hmxc. nia.
    + destruct (Hbig Hd) as (Hexb & _ & Hclt). clear Hsmall Hbig.
      rewrite shiftl_nonneg_exp by lia.
      rewrite pow2_split by lia.
      pose proof (pow2_pos ex ltac:(lia)) as H2e. nia.
Qed.


(** The magnitude part of [int(c * 1.5)] when three times the magnitude
    fits in 53 binary digits: no digit is lost. *)
Lemma scale_up_magnitude_exact sx p :
  3 * Zpos p < 2 ^ 53 →
  int_of_float (float_mul (binary_round prec emax sx p 0) f1_5) =
  Some (cond_Zopp sx (3 * Zpos p / 2)).
Proof.
  intros H3.
  destruct (binary_round_int sx p) as (mx & ex & Hx & Hmx & Hsmall & _).
  cbv zeta in Hsmall. rewrite Hx. clear Hx.
  assert (Hd1 : 1 ≤ Zdigits2 (Zpos p)) by (simpl; lia).
  assert (Hd : Zdigits2 (Zpos p) ≤ 52).
  { apply Zdigits2_le; [lia | lia |]. change (2 ^ 53) with (2 * 2 ^ 52) in H3. lia. }
  destruct Hsmall as [-> Hmxc]; [lia |].
  set (u := 52 - Zdigits2 (Zpos p)) in *.
  assert (Hu : 0 ≤ u) by (unfold u; lia).
  replace (53 - Zdigits2 (Zpos p)) with (u + 1) in Hmxc by (unfold u; lia).
  replace (Zdigits2 (Zpos p) - 53) with (- u - 1) by (unfold u; lia).
  destruct (Z.leb_spec (- u - 1) 971) as [_ | ?]; [| lia].
  unfold float_mul, f1_5.
  destruct (SFmul_normal sx mx (- u - 1) false 6755399441055744 (-52))
    as (j & m' & Hj & Hres & Hm' & _ & Hexact);
    [exact Hmx | mantissa_bounds; lia | unfold u; lia |].
  rewrite Hres. clear Hres.
  destruct (Z.leb_spec (- u - 1 + -52 + 52 + j) 971) as [_ | ?]; [| lia].
  replace (- u - 1 + -52 + 52 + j) with (j - u - 1) by lia.
  rewrite xorb_false_r. unfold int_of_float. f_equal. f_equal.
  pose proof (pow2_pos u Hu) as H2u.
  (* the product of the mantissas is [3 * c * 2 ^ (u + 52)] *)
  assert (HP : Zpos mx * 6755399441055744 = 3 * Zpos p * 2 ^ u * 2 ^ 52).
  { rewrite Hmxc, pow2_split by lia. change (2 ^ 1) with 2.
    change (2 ^ 52) with 4503599627370496. lia. }
  assert (Hval : Zpos m' * 2 ^ j = 3 * Zpos p * 2 ^ u).
  { rewrite Hexact.
    - rewrite HP. apply Z.div_mul. lia.
    - destruct (Z.lt_ge_cases (Zpos mx * 6755399441055744) (2 ^ 105)) as [Hlt | Hge].
      + right. split; [exact Hlt |]. rewrite HP. apply Z.mod_mul. lia.
      + left. rewrite HP in *.
        assert (Hu1 : 1 ≤ u).
        { destruct (Z.eq_dec u 0) as [Hu0 | Hu0]; [| lia].
          rewrite Hu0 in Hge. change (2 ^ 0) with 1 in Hge.
          change (2 ^ 105) with (2 ^ 53 * 2 ^ 52) in Hge.
          assert (0 < 2 ^ 52) by lia. nia. }
        replace u with (u - 1 + 1) by lia. rewrite pow2_split by lia.
        change (2 ^ 1) with 2.
        replace (3 * Zpos p * (2 ^ (u - 1) * 2) * 2 ^ 52)
          with (3 * Zpos p * 2 ^ (u - 1) * 2 ^ 53)
          by (change (2 ^ 53) with (2 * 2 ^ 52); lia).
        apply Z.mod_mul. lia. }
  pose proof (pow2_pos j ltac:(lia)) as H2j.
  destruct (Z.le_gt_cases 0 (j - u - 1)) as [He | He].
  - rewrite shiftl_nonneg_exp by lia.
    assert (Hsplit : 2 ^ j = 2 ^ (j - u - 1) * (2 ^ u * 2)).
    { change 2 with (2 ^ 1) at 4. rewrite <- !pow2_split by lia. f_equal. lia. }
    rewrite Hsplit in Hval.
    assert (Hr : 3 * Zpos p = Zpos m' * 2 ^ (j - u - 1) * 2) by nia.
    rewrite Hr. symmetry. apply Z.div_mul. lia.
  - rewrite shiftl_neg_exp by lia.
    replace (- (j - u - 1)) with (u + 1 - j) by lia.
    assert (Hsplit : 2 ^ u * 2 = 2 ^ (u + 1 - j) * 2 ^ j).
    { change 2 with (2 ^ 1) at 2. rewrite <- !pow2_split by lia. f_equal. lia. }
    pose proof (pow2_pos (u + 1 - j) ltac:(lia)) as H2uj.
    transitivity (Zpos m' * 2 ^ j / (2 ^ (u + 1 - j) * 2 ^ j)).
    + symmetry. apply Z.div_mul_cancel_r; lia.
    + rewrite Hval, <- Hsplit, (Z.mul_comm (2 ^ u) 2).
      apply Z.div_mul_cancel_r; lia.
Qed.

(** [int(c * y)] without the intermediate [option]: an infinite [float(c)]
    or product is refused by [int] in the end either way. *)
Lemma int_mul_int_float c sy my ey :
  (x ← mul_int_float c (S754_finite sy my ey); int_of_float x) =
  int_of_float (float_mul (binary_normalize prec emax c 0 false) (S754_finite sy my ey)).
Proof.
  unfold mul_int_float, float_of_int.
  destruct (binary_normalize prec emax c 0 false); reflexivity.
Qed.

(** [int(c * 1.5)] is [1.5 * c] truncated toward zero as long as
    [3 * |c|] fits in 53 binary digits. *)
Lemma scale_up_capacity_exact c :
  3 * Z.abs c < 2 ^ 53 → scale_up_capacity c = Some (Z.quot (3 * c) 2).
Proof.
  intros H3. unfold scale_up_capacity.
  pose proof (int_mul_int_float c false 6755399441055744 (-52)) as E.
  change (S754_finite false 6755399441055744 (-52)) with f1_5 in E.
  rewrite E. clear E.
  destruct c as [| p | p].
  - reflexivity.
  - unfold binary_normalize.
    rewrite (scale_up_magnitude_exact false p H3). unfold cond_Zopp. f_equal.
    symmetry. apply Z.quot_div_nonneg; lia.
  - unfold binary_normalize.
    rewrite (scale_up_magnitude_exact true p H3). unfold cond_Zopp. f_equal.
    rewrite <- Z.quot_div_nonneg by lia.
    rewrite <- Z.quot_opp_l by lia. f_equal.
Qed.


(** [int(c * y)] returns for every [c] of fewer than 1000 binary digits
    and every normal constant [y] of moderate exponent. *)
Lemma int_mul_int_float_defined c sy my ey :
  Z.abs c < 2 ^ 1000 → 2 ^ 52 ≤ Zpos my < 2 ^ 53 → -60 ≤ ey ≤ -40 →
  is_Some (x ← mul_int_float c (S754_finite sy my ey); int_of_float x).
Proof.
  intros Hc Hmy Hey. rewrite int_mul_int_float.
  assert (Hmag : ∀ sx p, Zpos p < 2 ^ 1000 →
            is_Some (int_of_float (float_mul (binary_round prec emax sx p 0)
                                             (S754_finite sy my ey)))).
  { intros sx p Hp.
    destruct (binary_round_int sx p) as (mx & ex & Hx & Hmx & Hsmall & Hbig).
    cbv zeta in Hsmall, Hbig. rewrite Hx. clear Hx.
    assert (Hd1 : 1 ≤ Zdigits2 (Zpos p)) by (simpl; lia).
    assert (Hd : Zdigits2 (Zpos p) ≤ 1000) by (apply Zdigits2_le; lia).
    assert (Hex : -52 ≤ ex ≤ 948).
    { destruct (Z.le_gt_cases (Zdigits2 (Zpos p)) 53) as [H | H];
        [destruct (Hsmall H) | destruct (Hbig H)]; lia. }
    destruct (Z.leb_spec ex 971) as [_ | ?]; [| lia].
    unfold float_mul.
    destruct (SFmul_normal sx mx ex sy my ey) as (j & m' & Hj & Hres & _);
      [exact Hmx | exact Hmy | lia |].
    rewrite Hres.
    destruct (Z.leb_spec (ex + ey + 52 + j) 971) as [_ | ?]; [| lia].
    eexists. reflexivity. }
  destruct c as [| p | p]; simpl binary_normalize.
  - eexists. reflexivity.
  - apply Hmag. lia.
  - apply Hmag. simpl in Hc. lia.
Qed.

(** On a non-negative [c] and a positive constant the product is not
    negative, so truncating it and taking its floor agree. *)
Lemma mul_int_float_nonneg_floor c my ey y :
  0 ≤ c → 2 ^ 52 ≤ Zpos my < 2 ^ 53 → -60 ≤ ey →
  mul_int_float c (S754_finite false my ey) = Some y →
  floor_of_float y = int_of_float y.
Proof.
  intros Hc Hmy Hey. unfold mul_int_float, float_of_int.
  destruct c as [| p | p]; [| | lia]; simpl binary_normalize.
  - simpl. intros [= <-]. reflexivity.
  - destruct (binary_round_int false p) as (mx & ex & Hx & Hmx & Hsmall & Hbig).
    cbv zeta in Hsmall, Hbig. rewrite Hx. clear Hx.
    assert (Hd1 : 1 ≤ Zdigits2 (Zpos p)) by (simpl; lia).
    assert (Hex : -52 ≤ ex).
    { destruct (Z.le_gt_cases (Zdigits2 (Zpos p)) 53) as [H | H];
        [destruct (Hsmall H) | destruct (Hbig H)]; lia. }
    destruct (Z.leb_spec ex 971) as [_ | _]; [| simpl; discriminate].
    change (Some (float_mul (S754_finite false mx ex) (S754_finite false my ey)) = Some y →
            floor_of_float y = int_of_float y).
    unfold float_mul.
    destruct (SFmul_normal false mx ex false my ey) as (j & m' & Hj & Hres & _);
      [exact Hmx | exact Hmy | lia |].
    rewrite Hres. intros [= <-].
    destruct (ex + ey + 52 + j <=? 971); reflexivity.
Qed.

(** [a / b] does not overflow when [|a| ≤ |b|]. *)
Lemma int_truediv_defined a b :
  b ≠ 0 → Z.abs a ≤ Z.abs b → is_Some (int_truediv a b).
Proof.
  intros Hb Hab. unfold int_truediv.
  destruct (Z.eqb_spec b 0) as [? | _]; [contradiction |].
  destruct (Z.eqb_spec a 0) as [_ | Ha]; [eexists; reflexivity |].
  set (pa := Z.to_pos (Z.abs a)). set (pb := Z.to_pos (Z.abs b)).
  assert (Hpa : Zpos pa = Z.abs a) by (unfold pa; rewrite Z2Pos.id; lia).
  assert (Hpb : Zpos pb = Z.abs b) by (unfold pb; rewrite Z2Pos.id; lia).
  assert (Hle : Zpos pa ≤ Zpos pb) by lia.
  clearbody pa pb. clear Hpa Hpb Hab Ha Hb.
  unfold SFdiv, SFdiv_core_binary.
  set (d1 := Zdigits2 (Zpos pa)). set (d2 := Zdigits2 (Zpos pb)).
  assert (Hd12 : d1 ≤ d2).
  { unfold d1. apply Zdigits2_le; [lia | apply Zdigits2_nonneg |].
    pose proof (Zdigits2_upper (Zpos pb) ltac:(lia)). fold d2 in H. lia. }
  rewrite fexp_eq.
  replace (Z.min (Z.max (d1 + 0 - (d2 + 0) - 53) (-1074)) (0 - 0))
    with (Z.max (d1 - d2 - 53) (-1074)) by lia.
  set (e' := Z.max (d1 - d2 - 53) (-1074)).
  assert (He' : -1074 ≤ e' ≤ -53) by (unfold e'; lia).
  destruct (0 - 0 - e') as [| s | s] eqn:Hs; [lia | | lia].
  rewrite Z.shiftl_mul_pow2 by lia.
  pose proof (pow2_pos (Zpos s) ltac:(lia)) as H2s.
  pose proof (Z.div_eucl_eq (Zpos pa * 2 ^ Zpos s) (Zpos pb) ltac:(lia)) as Heq.
  pose proof (Z.mod_pos_bound (Zpos pa * 2 ^ Zpos s) (Zpos pb) ltac:(lia)) as Hmod.
  unfold Z.modulo in Hmod.
  destruct (Z.div_eucl (Zpos pa * 2 ^ Zpos s) (Zpos pb)) as [q r].
  assert (Hq : 0 ≤ q ≤ 2 ^ Zpos s) by nia.
  assert (Hdq : Zdigits2 q ≤ Zpos s + 1).
  { apply Zdigits2_le; [lia | lia |]. rewrite pow2_split by lia.
    change (2 ^ 1) with 2. lia. }
  destruct (binary_round_aux_structure (xorb (a <? 0) (b <? 0)) q e'
              (new_location (Zpos pb) r)) as (m2 & Hb2 & _ & Hres & _); [lia |].
  rewrite fexp_eq in Hb2, Hres.
  set (n := Z.max 0 (Z.max (Zdigits2 q + e' - 53) (-1074) - e')) in *.
  rewrite Hres.
  assert (Hn : e' + n ≤ 0) by (unfold n; lia).
  assert (Hm2 : 0 ≤ m2).
  { assert (0 ≤ q / 2 ^ n) by (apply Z.div_pos; [lia | apply pow2_pos; unfold n; lia]).
    lia. }
  destruct (Z.eqb_spec m2 9007199254740992) as [_ | _].
  - unfold encode. destruct (Z.leb_spec (e' + n + 1) (emax - prec)) as [_ | H];
      [eexists; reflexivity |]. change (emax - prec) with 971 in H. lia.
  - unfold encode. destruct m2 as [| m2 | m2]; [eexists; reflexivity | | lia].
    destruct (Z.leb_spec (e' + n) (emax - prec)) as [_ | H];
      [eexists; reflexivity |]. change (emax - prec) with 971 in H. lia.
Qed.


(** [int(c * 0.7)] against the exact [7 * c / 10]: the double [0.7] is
    [(7 * 2^53 - 4) / (10 * 2^53)], a little below seven tenths, and the
    product is rounded once more, so for a capacity of up to 48 binary
    digits the result is the exact floor or one less. *)
Lemma int_mul_0_7_bounds c r :
  0 ≤ c < 2 ^ 48 →
  (x ← mul_int_float c f0_7; int_of_float x) = Some r →
  7 * c / 10 - 1 ≤ r ≤ 7 * c / 10.
Proof.
  intros Hc. unfold f0_7. rewrite int_mul_int_float.
  destruct c as [| p | p]; [| | lia].
  - vm_compute. intros [= <-]. split; discriminate.
  - unfold binary_normalize.
    destruct (binary_round_int false p) as (mx & ex & Hx & Hmx & Hsmall & _).
    cbv zeta in Hsmall. rewrite Hx. clear Hx.
    assert (Hd1 : 1 ≤ Zdigits2 (Zpos p)) by (simpl; lia).
    assert (Hd : Zdigits2 (Zpos p) ≤ 48) by (apply Zdigits2_le; lia).
    destruct Hsmall as [-> Hmxc]; [lia |].
    set (t := 53 - Zdigits2 (Zpos p)) in *.
    assert (Ht : 5 ≤ t) by (unfold t; lia).
    replace (Zdigits2 (Zpos p) - 53) with (- t) by (unfold t; lia).
    destruct (Z.leb_spec (- t) 971) as [_ | ?]; [| lia].
    unfold float_mul.
    destruct (SFmul_normal false mx (- t) false 6305039478318694 (-53))
      as (j & m' & Hj & Hres & Hm' & Hb & _);
      [exact Hmx | mantissa_bounds; lia | unfold t; lia |].
    rewrite Hres. clear Hres.
    destruct (Z.leb_spec (- t + -53 + 52 + j) 971) as [_ | ?]; [| lia].
    replace (- t + -53 + 52 + j) with (- (t + 1 - j)) by lia.
    unfold int_of_float, xorb, cond_Zopp. intros [= <-].
    rewrite shiftl_neg_exp by lia. rewrite Z.opp_involutive.
    (* [W = m' * 2^j] is the product mantissa on the scale [2^-(t+1)] *)
    set (W := Zpos m' * 2 ^ j) in *.
    assert (Hr : Zpos m' / 2 ^ (t + 1 - j) = W / 2 ^ (t + 1)).
    { unfold W. replace (t + 1) with (t + 1 - j + j) at 2 by lia.
      rewrite pow2_split by lia. symmetry.
      apply Z.div_mul_cancel_r; apply Z.pow_nonzero; lia. }
    rewrite Hr. clear Hr.
    pose proof (pow2_pos t ltac:(lia)) as H2t.
    assert (HT : 32 ≤ 2 ^ t).
    { change 32 with (2 ^ 5). apply Z.pow_le_mono_r; lia. }
    rewrite Hmxc in Hb.
    pose proof (Z.div_mod (Zpos p * 2 ^ t * 6305039478318694) (2 ^ 52) ltac:(lia)) as HP.
    pose proof (Z.mod_pos_bound (Zpos p * 2 ^ t * 6305039478318694) (2 ^ 52) ltac:(lia)) as HPb.
    pose proof (Z.div_mod (7 * Zpos p) 10 ltac:(lia)) as HK.
    pose proof (Z.mod_pos_bound (7 * Zpos p) 10 ltac:(lia)) as HKb.
    set (K := 7 * Zpos p / 10) in *. set (rho := (7 * Zpos p) mod 10) in *.
    set (Q := Zpos p * 2 ^ t * 6305039478318694 / 2 ^ 52) in *.
    set (R := (Zpos p * 2 ^ t * 6305039478318694) mod 2 ^ 52) in *.
    rewrite pow2_split by lia. change (2 ^ 1) with 2.
    change (2 ^ 52) with 4503599627370496 in *.
    change (2 ^ 48) with 281474976710656 in *.
    set (T := 2 ^ t) in *. clearbody T W K rho Q R.
    split.
    + apply Z.div_le_lower_bound; [lia |]. nia.
    + enough (W / (T * 2) < K + 1) by lia.
      apply Z.div_lt_upper_bound; [lia |]. nia.
Qed.

End binary64.
(** ** Dictionaries *)

Section dictionaries.
Implicit Types (d a c : gmap string Z).

Lemma sum_values_insert d k v :
  d !! k = None → sum_values (<[k := v]> d) = sum_values d + v.
Proof.
  intros Hk. unfold sum_values.
  rewrite map_fold_insert_L; [reflexivity | intros; lia | exact Hk].
Qed.

Lemma sum_values_delete d k :
  sum_values d = sum_values (delete k d) + dict_get d k 0.
Proof.
  unfold dict_get. destruct (d !! k) as [v |] eqn:Hk; simpl.
  - rewrite <- (insert_delete_id d k v Hk) at 1.
    apply sum_values_insert, lookup_delete_eq.
  - rewrite delete_id by exact Hk. lia.
Qed.

Lemma sum_values_nonneg d : (∀ k, 0 ≤ dict_get d k 0) → 0 ≤ sum_values d.
Proof.
  induction d as [| k v d Hk IH] using map_ind; intros Hd.
  - unfold sum_values. rewrite map_fold_empty. lia.
  - rewrite sum_values_insert by exact Hk.
    pose proof (Hd k) as Hv. unfold dict_get in Hv. rewrite lookup_insert_eq in Hv.
    simpl in Hv. enough (0 ≤ sum_values d) by lia. apply IH.
    intros j. destruct (decide (k = j)) as [<- | Hne].
    + unfold dict_get. rewrite Hk. simpl. lia.
    + specialize (Hd j). unfold dict_get in *.
      rewrite lookup_insert_ne in Hd by exact Hne. exact Hd.
Qed.

(** A table that is pointwise between 0 and another sums to at most the
    sum of the other. *)
Lemma sum_values_le a c :
  (∀ k, 0 ≤ dict_get a k 0 ≤ dict_get c k 0) → 0 ≤ sum_values a ≤ sum_values c.
Proof.
  revert c. induction a as [| k v a Hk IH] using map_ind; intros c Hac.
  - unfold sum_values at 1 2. rewrite map_fold_empty.
    split; [lia |]. apply sum_values_nonneg. intros j. specialize (Hac j). lia.
  - rewrite sum_values_insert by exact Hk. rewrite (sum_values_delete c k).
    pose proof (Hac k) as Hv. unfold dict_get at 1 2 in Hv.
    rewrite lookup_insert_eq in Hv. simpl in Hv.
    enough (0 ≤ sum_values a ≤ sum_values (delete k c)) by lia.
    apply IH. intros j. destruct (decide (k = j)) as [<- | Hne].
    + unfold dict_get. rewrite Hk, lookup_delete_eq. simpl. lia.
    + specialize (Hac j). unfold dict_get in *.
      rewrite lookup_insert_ne in Hac by exact Hne.
      rewrite lookup_delete_ne by exact Hne. exact Hac.
Qed.

(** A loop that rewrites every value, when it returns, has rewritten each
    key with the result of its body and added no key. *)
Lemma update_values_lookup (f : string → Z → option Z) d d' :
  update_values f d = Some d' →
  ∀ k, match d !! k with
       | Some v => ∃ v', f k v = Some v' ∧ d' !! k = Some v'
       | None => d' !! k = None
       end.
Proof.
  unfold update_values. revert d'.
  apply (map_fold_weak_ind
           (λ (acc : option (gmap string Z)) (m : gmap string Z),
              ∀ d', acc = Some d' →
                    ∀ k, match m !! k with
                         | Some v => ∃ v', f k v = Some v' ∧ d' !! k = Some v'
                         | None => d' !! k = None
                         end)).
  - intros d' [= <-] k. rewrite !lookup_empty. reflexivity.
  - intros i x m acc Hi IH d'. destruct acc as [d1 |]; simpl; [| discriminate].
    destruct (f i x) as [v' |] eqn:Hf; simpl; [| discriminate].
    intros [= <-] k. destruct (decide (i = k)) as [<- | Hne].
    + rewrite !lookup_insert_eq. eauto.
    + rewrite !lookup_insert_ne by exact Hne. apply IH. reflexivity.
Qed.

(** It returns when its body does on every entry. *)
Lemma update_values_defined (f : string → Z → option Z) d :
  (∀ k v, d !! k = Some v → is_Some (f k v)) → is_Some (update_values f d).
Proof.
  unfold update_values.
  apply (map_fold_weak_ind
           (λ (acc : option (gmap string Z)) (m : gmap string Z),
              (∀ k v, m !! k = Some v → is_Some (f k v)) → is_Some acc)).
  - intros _. eexists. reflexivity.
  - intros i x m acc Hi IH Hall.
    destruct IH as [d1 ->].
    { intros k v Hk. apply Hall. rewrite lookup_insert_ne; [exact Hk |].
      intros ->. rewrite Hi in Hk. discriminate. }
    destruct (Hall i x (lookup_insert_eq m i x)) as [v' Hv'].
    simpl. rewrite Hv'. simpl. eexists. reflexivity.
Qed.

End dictionaries.

(** ** The allocation loops *)

Section allocation_loops.
Implicit Types (s st : AIAgentLoadBalancer) (r : DictRef) (m : gmap string Z).

Lemma can_allocate_spec s r :
  can_allocate s r = true ↔
  map_Forall (λ agent_type count, count ≤ get_available_agents s agent_type) (deref s r).
Proof.
  unfold can_allocate.
  apply (map_fold_weak_ind
           (λ (b : bool) m, b = true ↔
              map_Forall (λ k c, c ≤ get_available_agents s k) m)).
  - split; [intros _; apply map_Forall_empty | reflexivity].
  - intros i x m b Hi IH. rewrite map_Forall_insert by exact Hi.
    rewrite andb_true_iff, IH, Z.leb_le. tauto.
Qed.

Lemma can_allocate_false s r :
  can_allocate s r = false ↔
  ∃ agent_type count, deref s r !! agent_type = Some count ∧
                      get_available_agents s agent_type < count.
Proof.
  rewrite <- not_true_iff_false, can_allocate_spec. split.
  - intros Hn. apply map_not_Forall in Hn; [| intros; apply _].
    destruct Hn as (k & c & Hk & Hc). exists k, c. split; [exact Hk | lia].
  - intros (k & c & Hk & Hc) Hall. specialize (Hall k c Hk). simpl in Hall. lia.
Qed.

(** A key the loops have not reached yet reads the same through a
    reference as when the loop started: the loops write to the allocation
    table only, and only at the keys they have reached. *)
Lemma deref_lookup_stable s st r k :
  agent_capacity st = agent_capacity s →
  current_workload st = current_workload s →
  agent_allocation st !! k = agent_allocation s !! k →
  deref st r !! k = deref s r !! k.
Proof. intros Hc Hw Ha. destruct r; simpl; congruence. Qed.

(** The loop of [assign_task] over the entries [m] of a request, every
    one of which passed the check: each pool of [m] is raised by its
    count, nothing else changes.  The counts are those the request holds
    when the loop starts, also when the request is the allocation table
    itself. *)
Lemma allocate_fold s r m :
  m ⊆ deref s r →
  map_Forall (λ k c, c ≤ get_available_agents s k) m →
  let s1 := map_fold (λ agent_type count st,
                        snd (allocate_agent agent_type
                               (count_now st r agent_type count) st)) s m in
  agent_capacity s1 = agent_capacity s ∧
  current_workload s1 = current_workload s ∧
  task_queue s1 = task_queue s ∧
  completed_tasks s1 = completed_tasks s ∧
  ∀ pool, agent_allocation s1 !! pool =
          match m !! pool with
          | Some c => Some (allocated s pool + c)
          | None => agent_allocation s !! pool
          end.
Proof.
  cbv zeta.
  apply (map_fold_weak_ind
           (λ st m,
              m ⊆ deref s r →
              map_Forall (λ k c, c ≤ get_available_agents s k) m →
              agent_capacity st = agent_capacity s ∧
              current_workload st = current_workload s ∧
              task_queue st = task_queue s ∧
              completed_tasks st = completed_tasks s ∧
              ∀ pool, agent_allocation st !! pool =
                      match m !! pool with
                      | Some c => Some (allocated s pool + c)
                      | None => agent_allocation s !! pool
                      end)).
  - intros _ _. repeat split; try reflexivity.
  - clear m. intros i x m st Hi IH Hsub Hm.
    apply map_Forall_insert in Hm; [| exact Hi].
    destruct Hm as [Hx Hm].
    assert (Hsub' : m ⊆ deref s r).
    { etrans; [| exact Hsub]. by apply insert_subseteq. }
    assert (HDi : deref s r !! i = Some x).
    { apply (lookup_weaken _ _ _ _ (lookup_insert_eq m i x) Hsub). }
    destruct (IH Hsub' Hm) as (Hc & Hw & Hq & Hh & Ha).
    assert (Hai : agent_allocation st !! i = agent_allocation s !! i)
      by (rewrite (Ha i), Hi; reflexivity).
    unfold count_now.
    rewrite (deref_lookup_stable s st r i Hc Hw Hai), HDi. simpl.
    assert (Hsame : get_available_agents st i = get_available_agents s i).
    { unfold get_available_agents, dict_get. rewrite Hc, Hai. reflexivity. }
    unfold allocate_agent. rewrite Hsame.
    destruct (Z.leb_spec x (get_available_agents s i)) as [_ | Hlt]; [| lia].
    simpl. repeat split; try assumption.
    intros pool. destruct (decide (i = pool)) as [<- | Hne].
    + rewrite !lookup_insert_eq. unfold allocated, dict_get.
      rewrite Hai. reflexivity.
    + rewrite !lookup_insert_ne by exact Hne. apply Ha.
Qed.

Lemma allocate_loop s r :
  map_Forall (λ k c, c ≤ get_available_agents s k) (deref s r) →
  let s1 := allocate_all r s in
  agent_capacity s1 = agent_capacity s ∧
  current_workload s1 = current_workload s ∧
  task_queue s1 = task_queue s ∧
  completed_tasks s1 = completed_tasks s ∧
  ∀ pool, agent_allocation s1 !! pool =
          match deref s r !! pool with
          | Some c => Some (allocated s pool + c)
          | None => agent_allocation s !! pool
          end.
Proof. intros Hall. by apply allocate_fold. Qed.

(** The loop of [complete_task]: each pool of the reservation is lowered
    by its count, with the floor at 0.  When the reservation is the
    allocation table itself, every pool of the table ends at 0. *)
Lemma release_fold s r m :
  m ⊆ deref s r →
  let s1 := map_fold (λ agent_type count st,
                        release_agent agent_type
                          (count_now st r agent_type count) st) s m in
  agent_capacity s1 = agent_capacity s ∧
  current_workload s1 = current_workload s ∧
  task_queue s1 = task_queue s ∧
  completed_tasks s1 = completed_tasks s ∧
  ∀ pool, agent_allocation s1 !! pool =
          match m !! pool with
          | Some c => Some (Z.max 0 (allocated s pool - c))
          | None => agent_allocation s !! pool
          end.
Proof.
  cbv zeta.
  apply (map_fold_weak_ind
           (λ st m,
              m ⊆ deref s r →
              agent_capacity st = agent_capacity s ∧
              current_workload st = current_workload s ∧
              task_queue st = task_queue s ∧
              completed_tasks st = completed_tasks s ∧
              ∀ pool, agent_allocation st !! pool =
                      match m !! pool with
                      | Some c => Some (Z.max 0 (allocated s pool - c))
                      | None => agent_allocation s !! pool
                      end)).
  - intros _. repeat split; reflexivity.
  - clear m. intros i x m st Hi IH Hsub.
    assert (Hsub' : m ⊆ deref s r).
    { etrans; [| exact Hsub]. by apply insert_subseteq. }
    assert (HDi : deref s r !! i = Some x).
    { apply (lookup_weaken _ _ _ _ (lookup_insert_eq m i x) Hsub). }
    destruct (IH Hsub') as (Hc & Hw & Hq & Hh & Ha).
    assert (Hai : agent_allocation st !! i = agent_allocation s !! i)
      by (rewrite (Ha i), Hi; reflexivity).
    unfold count_now.
    rewrite (deref_lookup_stable s st r i Hc Hw Hai), HDi. simpl.
    unfold release_agent. simpl. repeat split; try assumption.
    intros pool. destruct (decide (i = pool)) as [<- | Hne].
    + rewrite !lookup_insert_eq. unfold allocated, dict_get.
      rewrite Hai. reflexivity.
    + rewrite !lookup_insert_ne by exact Hne. apply Ha.
Qed.

Lemma release_loop s r :
  let s1 := release_all r s in
  agent_capacity s1 = agent_capacity s ∧
  current_workload s1 = current_workload s ∧
  task_queue s1 = task_queue s ∧
  completed_tasks s1 = completed_tasks s ∧
  ∀ pool, agent_allocation s1 !! pool =
          match deref s r !! pool with
          | Some c => Some (Z.max 0 (allocated s pool - c))
          | None => agent_allocation s !! pool
          end.
Proof. by apply release_fold. Qed.

End allocation_loops.

(** ** The task queue *)

Section task_queue_lemmas.
Implicit Types (q : list Task) (t : Task).

Lemma find_task_None task_name q :
  find_task task_name q = None ↔ ∀ t, t ∈ q → name t ≠ task_name.
Proof.
  induction q as [| y q IH]; simpl.
  - split; [intros _ t Ht; inversion Ht | reflexivity].
  - destruct (decide (name y = task_name)) as [Hy | Hy].
    + split; [discriminate |]. intros H. destruct (H y); [left | exact Hy].
    + destruct (find_task task_name q) as [[i t] |] eqn:Hf; simpl.
      * split; [discriminate |]. intros H.
        assert (HN : Some (i, t) = None); [| discriminate].
        apply IH. intros t' Ht'. apply H. by right.
      * split; [| reflexivity]. intros _ t' Ht'.
        inversion Ht'; subst; [exact Hy |]. apply IH; [reflexivity | assumption].
Qed.

Lemma find_task_Some task_name q i t :
  find_task task_name q = Some (i, t) →
  q !! i = Some t ∧ name t = task_name ∧
  ∀ j t', (j < i)%nat → q !! j = Some t' → name t' ≠ task_name.
Proof.
  revert i. induction q as [| y q IH]; intros i; simpl; [discriminate |].
  destruct (decide (name y = task_name)) as [Hy | Hy].
  - intros [= <- <-]. repeat split; [exact Hy |]. intros j t' Hj. lia.
  - destruct (find_task task_name q) as [[i' t0] |]; simpl; [| discriminate].
    intros [= <- <-]. destruct (IH i' eq_refl) as (Hl & Hn & Hb).
    repeat split; [exact Hl | exact Hn |].
    intros [| j] t' Hj; simpl; [intros [= <-]; exact Hy |].
    apply Hb. lia.
Qed.

(** A task appended to a queue that holds no task of that name is the one
    found. *)
Lemma find_task_app_new task_name q t :
  (∀ t', t' ∈ q → name t' ≠ task_name) → name t = task_name →
  find_task task_name (q ++ [t]) = Some (length q, t).
Proof.
  intros Hq Ht. induction q as [| y q IH]; simpl.
  - destruct (decide (name t = task_name)); [reflexivity | contradiction].
  - destruct (decide (name y = task_name)) as [Hy | Hy].
    + destruct (Hq y); [left | exact Hy].
    + rewrite IH; [reflexivity |]. intros t' Ht'. apply Hq. by right.
Qed.

(** [remove] after the in-place update drops exactly the task found. *)
Lemma task_eqb_refl s t : task_eqb s t t = true.
Proof. unfold task_eqb. rewrite !bool_decide_eq_true_2 by reflexivity. reflexivity. Qed.

Lemma task_eqb_name s t1 t2 : task_eqb s t1 t2 = true → name t1 = name t2.
Proof.
  unfold task_eqb. rewrite !andb_true_iff. intros ((((H & _) & _) & _) & _).
  by apply bool_decide_eq_true in H.
Qed.

Lemma list_remove_found s task_name q i t done :
  find_task task_name q = Some (i, t) → name done = task_name →
  list_remove s done (<[i := done]> q) = delete i q.
Proof.
  intros Hf Hd. revert i Hf. induction q as [| y q IH]; intros i; simpl; [discriminate |].
  destruct (decide (name y = task_name)) as [Hy | Hy].
  - intros [= <- <-]. simpl. rewrite task_eqb_refl. reflexivity.
  - destruct (find_task task_name q) as [[i' t0] |]; simpl; [| discriminate].
    intros [= <- <-]. simpl.
    destruct (task_eqb s y done) eqn:He; [apply task_eqb_name in He; congruence |].
    f_equal. apply IH. reflexivity.
Qed.

Lemma live_reserved_app s q1 q2 pool :
  live_reserved s (q1 ++ q2) pool = live_reserved s q1 pool + live_reserved s q2 pool.
Proof.
  unfold live_reserved. induction q1 as [| y q1 IH]; simpl; [reflexivity |].
  rewrite IH. lia.
Qed.

Lemma live_reserved_delete s q i t pool :
  q !! i = Some t →
  live_reserved s (delete i q) pool = live_reserved s q pool - reserved s t pool.
Proof.
  unfold live_reserved. revert i.
  induction q as [| y q IH]; intros [| i]; simpl; try discriminate.
  - intros [= ->]. lia.
  - intros Hi. rewrite (IH i Hi). lia.
Qed.

End task_queue_lemmas.

(** ** Reservation and release *)

(** What [assign_task] does when it succeeds, in the form the later proofs
    use. *)
Lemma assign_task_true now task_name (r : DictRef) s s' :
  assign_task now task_name r s = (true, s') →
  map_Forall (λ k c, c ≤ get_available_agents s k) (deref s r) ∧
  agent_capacity s' = agent_capacity s ∧
  current_workload s' = current_workload s ∧
  task_queue s' = task_queue s ++ [mkTask task_name r now in_progress None] ∧
  completed_tasks s' = completed_tasks s ∧
  ∀ pool, allocated s' pool = allocated s pool + dict_get (deref s r) pool 0.
Proof.
  unfold assign_task. destruct (can_allocate s r) eqn:Hcan; simpl; [| discriminate].
  intros [= <-]. apply can_allocate_spec in Hcan.
  destruct (allocate_loop s r Hcan) as (Hc & Hw & Hq & Hh & Ha).
  simpl. rewrite Hq. repeat split; try assumption.
  intros pool. unfold allocated at 1, dict_get. simpl. rewrite (Ha pool).
  destruct (deref s r !! pool); simpl; [reflexivity |]. unfold allocated, dict_get. lia.
Qed.

Lemma assign_task_false now task_name (r : DictRef) s s' :
  assign_task now task_name r s = (false, s') → s' = s.
Proof.
  unfold assign_task. destruct (can_allocate s r); simpl; [discriminate |].
  by intros [= <-].
Qed.

(** What [complete_task] does when a live task carries the name. *)
Lemma complete_task_found now task_name s i t :
  find_task task_name (task_queue s) = Some (i, t) →
  let s' := complete_task now task_name s in
  agent_capacity s' = agent_capacity s ∧
  current_workload s' = current_workload s ∧
  task_queue s' = delete i (task_queue s) ∧
  completed_tasks s' =
    completed_tasks s ++ [mkTask (name t) (agents t) (start_time t) completed (Some now)] ∧
  ∀ pool, allocated s' pool =
          match deref s (agents t) !! pool with
          | Some c => Z.max 0 (allocated s pool - c)
          | None => allocated s pool
          end.
Proof.
  intros Hf. unfold complete_task. rewrite Hf.
  destruct (release_loop s (agents t)) as (Hc & Hw & Hq & Hh & Ha).
  destruct (find_task_Some _ _ _ _ Hf) as (Hi & Hn & _).
  simpl. repeat split; try assumption.
  - rewrite Hq. apply (list_remove_found _ task_name _ _ t); [exact Hf | exact Hn].
  - rewrite Hh. reflexivity.
  - intros pool. unfold allocated at 1, dict_get. simpl. rewrite (Ha pool).
    destruct (deref s (agents t) !! pool); reflexivity.
Qed.

(** ** The ledger as an aggregate of the live reservations *)

Section ledger.
Implicit Types (s : AIAgentLoadBalancer) (q : list Task) (t : Task) (r : DictRef).

(** A dictionary other than the allocation table reads the same in two
    states with the same capacity and workload tables. *)
Lemma deref_outside_ledger s s' r :
  outside_ledger r →
  agent_capacity s' = agent_capacity s → current_workload s' = current_workload s →
  deref s' r = deref s r.
Proof. intros Hr Hc Hw. unfold outside_ledger in Hr. destruct r; simpl; congruence. Qed.

Lemma live_reserved_outside_ledger s s' q pool :
  Forall (λ t, outside_ledger (agents t)) q →
  agent_capacity s' = agent_capacity s → current_workload s' = current_workload s →
  live_reserved s' q pool = live_reserved s q pool.
Proof.
  intros Hq Hc Hw. unfold live_reserved, reserved.
  induction Hq as [| t q Ht _ IH]; simpl; [reflexivity |].
  rewrite IH, (deref_outside_ledger s s' _ Ht Hc Hw). reflexivity.
Qed.

Lemma reserved_nonneg s t pool :
  positive_counts (deref s (agents t)) → 0 ≤ reserved s t pool.
Proof.
  intros Hpos. unfold reserved, dict_get.
  destruct (deref s (agents t) !! pool) as [c |] eqn:Hc; simpl; [| lia].
  specialize (Hpos pool c Hc). simpl in Hpos. lia.
Qed.

Lemma live_reserved_nonneg s q pool :
  Forall (λ t, positive_counts (deref s (agents t))) q → 0 ≤ live_reserved s q pool.
Proof.
  unfold live_reserved. induction 1 as [| t q Ht _ IH]; simpl; [lia |].
  pose proof (reserved_nonneg s t pool Ht). lia.
Qed.

Lemma live_reserved_ge s q i t pool :
  Forall (λ t, positive_counts (deref s (agents t))) q → q !! i = Some t →
  reserved s t pool ≤ live_reserved s q pool.
Proof.
  intros Hq. revert i. induction Hq as [| y q Hy Hq IH]; intros [| i]; simpl;
    try discriminate.
  - intros [= ->]. pose proof (live_reserved_nonneg s q pool Hq).
    unfold live_reserved in *. lia.
  - intros Hi. specialize (IH i Hi). pose proof (reserved_nonneg s y pool Hy).
    unfold live_reserved in *. lia.
Qed.

(** A task call changes neither the capacity table nor the workload
    table. *)
Lemma call_tables c s :
  agent_capacity (call c s) = agent_capacity s ∧
  current_workload (call c s) = current_workload s.
Proof.
  destruct c as [now task_name r | now task_name]; simpl.
  - destruct (assign_task now task_name r s) as [[|] s'] eqn:Ha; simpl.
    + destruct (assign_task_true _ _ _ _ _ Ha) as (_ & Hc & Hw & _). by split.
    + apply assign_task_false in Ha. by subst s'.
  - destruct (find_task task_name (task_queue s)) as [[i t] |] eqn:Hf.
    + destruct (complete_task_found now _ _ _ _ Hf) as (Hc & Hw & _). by split.
    + unfold complete_task. rewrite Hf. by split.
Qed.

Lemma positive_request_call c c' s :
  positive_request s c' → positive_request (call c s) c'.
Proof.
  destruct (call_tables c s) as [Hc Hw].
  destruct c' as [now task_name r |]; simpl; [| done].
  intros [Hr Hpos]. split; [exact Hr |].
  by rewrite (deref_outside_ledger s (call c s) r Hr Hc Hw).
Qed.

Lemma ledger_invariant_call c s :
  positive_request s c → ledger_invariant s → ledger_invariant (call c s).
Proof.
  intros Hc [Hsum Hpos].
  assert (Hout : Forall (λ t, outside_ledger (agents t)) (task_queue s))
    by (eapply Forall_impl; [exact Hpos | by intros t [? _]]).
  assert (Hposs : Forall (λ t, positive_counts (deref s (agents t))) (task_queue s))
    by (eapply Forall_impl; [exact Hpos | by intros t [_ ?]]).
  destruct c as [now task_name r | now task_name]; simpl.
  - destruct Hc as [Hr Hrpos].
    destruct (assign_task now task_name r s) as [[|] s'] eqn:Ha; simpl.
    + destruct (assign_task_true _ _ _ _ _ Ha) as (_ & Hcap & Hw & Hq & _ & Hal).
      split.
      * intros pool. rewrite (Hal pool), Hq, live_reserved_app, (Hsum pool).
        rewrite (live_reserved_outside_ledger s s' _ pool Hout Hcap Hw).
        unfold live_reserved, reserved. simpl.
        rewrite (deref_outside_ledger s s' r Hr Hcap Hw). lia.
      * rewrite Hq. apply Forall_app. split.
        -- eapply Forall_impl; [exact Hpos |]. intros t [Ht Htp]. split; [exact Ht |].
           by rewrite (deref_outside_ledger s s' _ Ht Hcap Hw).
        -- constructor; [| constructor]. simpl. split; [exact Hr |].
           by rewrite (deref_outside_ledger s s' r Hr Hcap Hw).
    + apply assign_task_false in Ha. subst s'. split; assumption.
  - destruct (find_task task_name (task_queue s)) as [[i t] |] eqn:Hf.
    + destruct (complete_task_found now _ _ _ _ Hf) as (Hcap & Hw & Hq & _ & Hal).
      destruct (find_task_Some _ _ _ _ Hf) as (Hi & _ & _).
      split.
      * intros pool. rewrite (Hal pool), Hq.
        rewrite (live_reserved_outside_ledger s _ _ pool
                   (Forall_delete _ _ _ Hout) Hcap Hw).
        rewrite (live_reserved_delete _ _ _ _ _ Hi).
        pose proof (live_reserved_ge _ _ _ _ pool Hposs Hi) as Hge.
        rewrite <- (Hsum pool) in *. unfold reserved, dict_get in *.
        destruct (deref s (agents t) !! pool); simpl in *; lia.
      * rewrite Hq. apply Forall_delete.
        eapply Forall_impl; [exact Hpos |]. intros t' [Ht Htp]. split; [exact Ht |].
        by rewrite (deref_outside_ledger s _ _ Ht Hcap Hw).
    + unfold complete_task. rewrite Hf. split; assumption.
Qed.

Lemma ledger_invariant_run calls s :
  Forall (positive_request s) calls → ledger_invariant s →
  ledger_invariant (run calls s).
Proof.
  intros Hcalls. revert s Hcalls. unfold run.
  induction calls as [| c calls IH]; intros s Hcalls Hs; simpl; [exact Hs |].
  apply Forall_cons in Hcalls. destruct Hcalls as [Hc Hcalls].
  apply IH; [| by apply ledger_invariant_call].
  eapply Forall_impl; [exact Hcalls |]. intros c'. apply positive_request_call.
Qed.

End ledger.
(** ** The capacity invariant *)

Section capacity_invariant_lemmas.
Implicit Types (s : AIAgentLoadBalancer).

(** A check of the invariant that can be run on a concrete state. *)
Lemma capacity_invariant_check s :
  map_Forall (λ k a, 0 ≤ a ≤ dict_get (agent_capacity s) k 0) (agent_allocation s) →
  map_Forall (λ k c, dict_get (agent_allocation s) k 0 ≤ c) (agent_capacity s) →
  capacity_invariant s.
Proof.
  intros Ha Hc pool. unfold allocated, capacity.
  destruct (agent_allocation s !! pool) as [a |] eqn:Hal.
  - specialize (Ha pool a Hal). unfold dict_get at 1 2. rewrite Hal. exact Ha.
  - destruct (agent_capacity s !! pool) as [c |] eqn:Hcap.
    + specialize (Hc pool c Hcap). unfold dict_get in *.
      rewrite Hal, Hcap in *. simpl in *. lia.
    + unfold dict_get. rewrite Hal, Hcap. simpl. lia.
Qed.

Lemma allocate_agent_invariant agent_type count s :
  0 < count → capacity_invariant s →
  capacity_invariant (snd (allocate_agent agent_type count s)).
Proof.
  intros Hpos Hinv. unfold allocate_agent.
  destruct (Z.leb_spec count (get_available_agents s agent_type)) as [Hle | _];
    [| exact Hinv].
  intros pool. specialize (Hinv pool).
  unfold allocated, capacity, get_available_agents, dict_get in *. simpl.
  destruct (decide (agent_type = pool)) as [<- | Hne].
  - rewrite lookup_insert_eq. simpl. lia.
  - rewrite lookup_insert_ne by exact Hne. exact Hinv.
Qed.

Lemma release_agent_invariant agent_type count s :
  0 ≤ count → capacity_invariant s →
  capacity_invariant (release_agent agent_type count s).
Proof.
  intros Hpos Hinv pool. specialize (Hinv pool).
  unfold release_agent, allocated, capacity, dict_get in *. simpl.
  destruct (decide (agent_type = pool)) as [<- | Hne].
  - rewrite lookup_insert_eq. simpl. lia.
  - rewrite lookup_insert_ne by exact Hne. exact Hinv.
Qed.

Lemma assign_task_invariant now task_name (r : DictRef) s :
  positive_counts (deref s r) → capacity_invariant s →
  capacity_invariant (snd (assign_task now task_name r s)).
Proof.
  intros Hpos Hinv.
  destruct (assign_task now task_name r s) as [[|] s'] eqn:Ha; simpl.
  - destruct (assign_task_true _ _ _ _ _ Ha) as (Hall & Hc & _ & _ & _ & Hal).
    intros pool. specialize (Hinv pool). unfold capacity. rewrite Hc, (Hal pool).
    fold (capacity s pool). unfold dict_get.
    destruct (deref s r !! pool) as [c |] eqn:Hr; simpl; [| lia].
    specialize (Hall pool c Hr). specialize (Hpos pool c Hr). simpl in *.
    unfold get_available_agents in Hall. fold (capacity s pool) (allocated s pool) in Hall.
    lia.
  - apply assign_task_false in Ha. subst s'. exact Hinv.
Qed.

Lemma complete_task_invariant now task_name s :
  (∀ i t, find_task task_name (task_queue s) = Some (i, t) →
          map_Forall (λ _ count, 0 ≤ count) (deref s (agents t))) →
  capacity_invariant s →
  capacity_invariant (complete_task now task_name s).
Proof.
  intros Hcounts Hinv.
  destruct (find_task task_name (task_queue s)) as [[i t] |] eqn:Hf.
  - destruct (complete_task_found now _ _ _ _ Hf) as (Hc & _ & _ & _ & Hal).
    intros pool. specialize (Hinv pool). unfold capacity. rewrite Hc, (Hal pool).
    fold (capacity s pool).
    destruct (deref s (agents t) !! pool) as [c |] eqn:Hr; [| exact Hinv].
    specialize (Hcounts i t eq_refl pool c Hr). simpl in Hcounts. lia.
  - unfold complete_task. rewrite Hf. exact Hinv.
Qed.

(** [allocated + 2] is a floor of the scale-down result. *)
Lemma scale_down_capacity_ge a c r :
  scale_down_capacity a c = Some r → a + 2 ≤ r.
Proof.
  unfold scale_down_capacity.
  destruct (mul_int_float c f0_7) as [x |]; simpl; [| discriminate].
  destruct (int_of_float x) as [y |]; simpl; [| discriminate].
  intros [= <-]. lia.
Qed.

(** Against the exact seven tenths, for a capacity of up to 48 binary
    digits. *)
Lemma scale_down_capacity_bounds a c r :
  0 ≤ c < 2 ^ 48 → scale_down_capacity a c = Some r →
  Z.max (a + 2) (7 * c / 10 - 1) ≤ r ≤ Z.max (a + 2) (7 * c / 10).
Proof.
  intros Hc. unfold scale_down_capacity.
  pose proof (int_mul_0_7_bounds c) as Hb.
  destruct (mul_int_float c f0_7) as [x |]; simpl in *; [| discriminate].
  destruct (int_of_float x) as [y |]; simpl; [| discriminate].
  intros [= <-]. specialize (Hb y Hc eq_refl). lia.
Qed.

(** The three ways [auto_scale] can return. *)
Lemma auto_scale_cases s s' :
  auto_scale s = Some s' →
  (should_scale_up s = Some true ∧
   ∃ c', update_values (λ _ c, scale_up_capacity c) (agent_capacity s) = Some c' ∧
         s' = set_agent_capacity s c') ∨
  (should_scale_up s = Some false ∧ should_scale_down s = Some true ∧
   ∃ c', update_values (λ k c, scale_down_capacity (dict_get (agent_allocation s) k 0) c)
                       (agent_capacity s) = Some c' ∧
         s' = set_agent_capacity s c') ∨
  (should_scale_up s = Some false ∧ should_scale_down s = Some false ∧ s' = s).
Proof.
  unfold auto_scale.
  destruct (should_scale_up s) as [[|] |]; simpl; [| | discriminate].
  - destruct (update_values _ (agent_capacity s)) as [c' |]; simpl; [| discriminate].
    intros [= <-]. left. eauto.
  - destruct (should_scale_down s) as [[|] |]; simpl; [| | discriminate].
    + destruct (update_values _ (agent_capacity s)) as [c' |]; simpl; [| discriminate].
      intros [= <-]. right. left. eauto.
    + intros [= <-]. right. right. auto.
Qed.

Lemma auto_scale_invariant s s' :
  capacity_invariant s → auto_scale s = Some s' → capacity_invariant s'.
Proof.
  intros Hinv Hs.
  destruct (auto_scale_cases s s' Hs)
    as [(_ & c' & Hc' & ->) | [(_ & _ & c' & Hc' & ->) | (_ & _ & ->)]];
    [| | exact Hinv].
  - intros pool. specialize (Hinv pool).
    pose proof (update_values_lookup _ _ _ Hc' pool) as Hl.
    unfold allocated, capacity, dict_get in *. simpl.
    destruct (agent_capacity s !! pool) as [c |]; simpl in *.
    + destruct Hl as (r & Hr & ->). simpl.
      pose proof (scale_up_capacity_ge c r ltac:(lia) Hr). lia.
    + rewrite Hl. exact Hinv.
  - intros pool. specialize (Hinv pool).
    pose proof (update_values_lookup _ _ _ Hc' pool) as Hl.
    unfold allocated, capacity, dict_get in *. simpl.
    destruct (agent_capacity s !! pool) as [c |]; simpl in *.
    + destruct Hl as (r & Hr & ->). simpl.
      apply scale_down_capacity_ge in Hr. lia.
    + rewrite Hl. exact Hinv.
Qed.

Lemma mul_float_int_100 q : mul_float_int q 100 = Some (float_mul q f100).
Proof. reflexivity. Qed.

(** In a state that satisfies the invariant the utilization is computed
    without overflow. *)
Lemma calculate_utilization_defined s :
  capacity_invariant s → is_Some (calculate_utilization s).
Proof.
  intros Hinv. unfold calculate_utilization, get_total_capacity.
  destruct (Z.eqb_spec (sum_values (agent_capacity s)) 0) as [_ | Hne];
    [eexists; reflexivity |].
  pose proof (sum_values_le (agent_allocation s) (agent_capacity s) Hinv) as Hsum.
  destruct (int_truediv_defined (sum_values (agent_allocation s))
              (sum_values (agent_capacity s)) Hne ltac:(lia)) as [q ->].
  simpl. rewrite mul_float_int_100. eexists. reflexivity.
Qed.

(** [auto_scale] returns in every state that satisfies the invariant, holds
    the scaling flag and has capacities of fewer than 1000 binary digits. *)
Lemma auto_scale_defined s :
  capacity_invariant s →
  is_Some (current_workload s !! "auto_scaling_ready"%string) →
  (∀ pool c, agent_capacity s !! pool = Some c → c < 2 ^ 1000) →
  is_Some (auto_scale s).
Proof.
  intros Hinv [flag Hflag] Hsize.
  assert (Hcap : ∀ pool c, agent_capacity s !! pool = Some c → Z.abs c < 2 ^ 1000).
  { intros pool c Hc. specialize (Hsize pool c Hc). specialize (Hinv pool).
    unfold capacity, dict_get in Hinv. rewrite Hc in Hinv. simpl in Hinv. lia. }
  destruct (calculate_utilization_defined s Hinv) as [u Hu].
  unfold auto_scale, should_scale_up, should_scale_down. rewrite Hu, Hflag. simpl.
  assert (Hup : is_Some (update_values (λ _ c, scale_up_capacity c) (agent_capacity s))).
  { apply update_values_defined. intros k c Hc. unfold scale_up_capacity, f1_5.
    apply int_mul_int_float_defined; [by apply (Hcap k) | | lia].
    mantissa_bounds. lia. }
  assert (Hdown : is_Some (update_values
                    (λ k c, scale_down_capacity (dict_get (agent_allocation s) k 0) c)
                    (agent_capacity s))).
  { apply update_values_defined. intros k c Hc. unfold scale_down_capacity, f0_7.
    destruct (int_mul_int_float_defined c false 6305039478318694 (-53)) as [r Hr];
      [by apply (Hcap k) | | lia |].
    { mantissa_bounds. lia. }
    destruct (mul_int_float c (S754_finite false 6305039478318694 (-53))) as [x |];
      simpl in *; [| discriminate].
    rewrite Hr. simpl. eexists. reflexivity. }
  destruct Hup as [cu Hcu]. destruct Hdown as [cd Hcd].
  destruct (float_gt_int u 80); simpl.
  - destruct (truthy flag); simpl.
    + rewrite Hcu. simpl. eexists. reflexivity.
    + destruct (float_lt_int u 30); simpl; [rewrite Hcd; simpl |]; eexists; reflexivity.
  - destruct (float_lt_int u 30); simpl; [rewrite Hcd; simpl |]; eexists; reflexivity.
Qed.

End capacity_invariant_lemmas.

(** ** Correct rounding of quotients and products *)

Section rounding.

Lemma new_location_loc_of N D :
  0 < D → new_location D (N mod D) = loc_of N D.
Proof.
  intros HD. pose proof (Z.mod_pos_bound N D HD) as Hr.
  unfold new_location, new_location_even, new_location_odd, loc_of.
  revert Hr. generalize (N mod D). intros ρ Hr.
  destruct ρ as [| ρ | ρ]; [destruct (Z.even D); reflexivity | | lia].
  change (Zpos ρ =? 0) with false. cbv iota.
  destruct (Z.even D) eqn:Hev; [reflexivity |].
  assert (Hodd : Z.odd D = true) by (rewrite <- Z.negb_even, Hev; reflexivity).
  apply Z.odd_spec in Hodd. destruct Hodd as [h Hh].
  destruct (Z.compare_spec (2 * Zpos ρ + 1) D),
           (Z.compare_spec (2 * Zpos ρ) D); try reflexivity; lia.
Qed.

Lemma round_nearest_even_loc_of N D :
  0 < D → round_nearest_even (N / D) (loc_of N D) = nearest_even N D.
Proof.
  intros HD. unfold loc_of, nearest_even, round_nearest_even.
  destruct (Z.eqb_spec (N mod D) 0) as [-> | Hne].
  - destruct (Z.compare_spec (2 * 0) D); try reflexivity; lia.
  - destruct (2 * (N mod D) ?= D); reflexivity.
Qed.

Lemma shr_1_loc mrs N D :
  0 ≤ N → 0 < D →
  shr_m mrs = N / D → loc_of_shr_record mrs = loc_of N D →
  shr_m (shr_1 mrs) = N / (D * 2) ∧
  loc_of_shr_record (shr_1 mrs) = loc_of N (D * 2).
Proof.
  intros HN HD Hm Hl. destruct mrs as [m r s]. simpl in Hm, Hl. subst m.
  assert (Hq : 0 ≤ N / D) by (apply Z.div_pos; lia).
  rewrite shr_1_nonneg by exact Hq. simpl.
  split; [rewrite Z.div_div by lia; reflexivity |].
  unfold loc_of in *. rewrite (Z.rem_mul_r N D 2) by lia.
  rewrite Zmod_odd. pose proof (Z.mod_pos_bound N D HD) as Hr.
  revert Hl Hr. generalize (N mod D). intros x Hl Hr.
  assert (Hx : x = 0 ∨ 0 < x) by lia.
  destruct (Z.odd (N / D)).
  - destruct (Z.eqb_spec (x + D * 1) 0); [lia |].
    destruct (Z.compare_spec (2 * (x + D * 1)) (D * 2)); [| lia |].
    + destruct (Z.eqb_spec x 0); [| lia].
      destruct r, s; try discriminate. reflexivity.
    + destruct (Z.eqb_spec x 0); [lia |].
      destruct r, s; try discriminate; reflexivity.
  - rewrite Z.mul_0_r, Z.add_0_r.
    destruct (Z.eqb_spec x 0).
    + destruct r, s; try discriminate. reflexivity.
    + destruct (Z.compare_spec (2 * x) (D * 2)); [lia | | lia].
      destruct r, s; try discriminate; reflexivity.
Qed.

Lemma shr_iter_loc (k : nat) : ∀ mrs N D,
  0 ≤ N → 0 < D →
  shr_m mrs = N / D → loc_of_shr_record mrs = loc_of N D →
  shr_m (Nat.iter k shr_1 mrs) = N / (D * 2 ^ Z.of_nat k) ∧
  loc_of_shr_record (Nat.iter k shr_1 mrs) = loc_of N (D * 2 ^ Z.of_nat k).
Proof.
  induction k as [| k IH]; intros mrs N D HN HD Hm Hl.
  - simpl. rewrite Z.mul_1_r. split; assumption.
  - rewrite Nat.iter_succ_r.
    destruct (shr_1_loc mrs N D HN HD Hm Hl) as [Hm1 Hl1].
    destruct (IH (shr_1 mrs) N (D * 2) HN ltac:(lia) Hm1 Hl1) as [Hm2 Hl2].
    rewrite Nat2Z.inj_succ, Z.pow_succ_r by lia.
    replace (D * (2 * 2 ^ Z.of_nat k)) with (D * 2 * 2 ^ Z.of_nat k) by lia.
    split; assumption.
Qed.

Lemma shr_loc N D l e nr :
  0 ≤ N → 0 < D → l = loc_of N D →
  let n := Z.max 0 nr in
  ∃ mrs, shr (shr_record_of_loc (N / D) l) e nr = (mrs, e + n) ∧
         shr_m mrs = N / (D * 2 ^ n) ∧
         loc_of_shr_record mrs = loc_of N (D * 2 ^ n).
Proof.
  intros HN HD ->. cbv zeta. destruct nr as [| p | p];
    [change (Z.max 0 0) with 0 | change (Z.max 0 (Zpos p)) with (Zpos p)
     | change (Z.max 0 (Zneg p)) with 0].
  - eexists. split; [simpl; rewrite Z.add_0_r; reflexivity |].
    rewrite shr_record_of_loc_m, loc_of_shr_record_of_loc, Z.mul_1_r. split; reflexivity.
  - eexists. split; [reflexivity |]. rewrite iter_pos_nat.
    destruct (shr_iter_loc (Pos.to_nat p) (shr_record_of_loc (N / D) (loc_of N D))
                N D HN HD (shr_record_of_loc_m _ _) (loc_of_shr_record_of_loc _ _))
      as [H1 H2].
    rewrite positive_nat_Z in H1, H2. split; assumption.
  - eexists. split; [simpl; rewrite Z.add_0_r; reflexivity |].
    rewrite shr_record_of_loc_m, loc_of_shr_record_of_loc, Z.mul_1_r. split; reflexivity.
Qed.

Lemma nearest_even_bounds N D : N / D ≤ nearest_even N D ≤ N / D + 1.
Proof.
  unfold nearest_even. destruct (2 * (N mod D) ?= D); [| lia | lia].
  destruct (Z.even (N / D)); lia.
Qed.

(** [binary_round_aux] on a quotient [N / D] given with its location:
    the quotient is divided further by [2 ^ n] and rounded to the nearest
    integer, ties to even. *)
Lemma binary_round_aux_nearest sx N D e :
  0 ≤ N → 0 < D →
  let n := Z.max 0 (fexp prec emax (Zdigits2 (N / D) + e) - e) in
  let m2 := nearest_even N (D * 2 ^ n) in
  binary_round_aux prec emax sx (N / D) e (loc_of N D) =
    (if m2 =? 9007199254740992
     then encode sx 4503599627370496 (e + n + 1)
     else encode sx m2 (e + n)).
Proof.
  intros HN HD n m2. unfold binary_round_aux, shr_fexp.
  destruct (shr_loc N D (loc_of N D) e (fexp prec emax (Zdigits2 (N / D) + e) - e)
              HN HD eq_refl) as (mrs & Hshr & Hmrs & Hloc).
  fold n in Hshr, Hmrs, Hloc. rewrite Hshr, Hmrs, Hloc.
  assert (Hn : 0 ≤ n) by (unfold n; lia).
  assert (H2n : 0 < 2 ^ n) by (apply Z.pow_pos_nonneg; lia).
  rewrite round_nearest_even_loc_of by lia. fold m2.
  assert (Hq : 0 ≤ N / D) by (apply Z.div_pos; lia).
  assert (Hfe : fexp prec emax (Zdigits2 (N / D) + e) - e ≤ n) by (unfold n; lia).
  rewrite fexp_eq in Hfe.
  assert (Hm1 : N / D / 2 ^ n < 2 ^ 53).
  { apply (div_pow2_lt (N / D) (Zdigits2 (N / D))); [exact Hq | | exact Hn | lia].
    apply Zdigits2_upper. exact Hq. }
  rewrite Z.div_div in Hm1 by lia.
  assert (Hm1' : 0 ≤ N / (D * 2 ^ n)) by (apply Z.div_pos; lia).
  pose proof (nearest_even_bounds N (D * 2 ^ n)) as Hb. fold m2 in Hb.
  change (2 ^ 53) with 9007199254740992 in Hm1.
  destruct (Z.eqb_spec m2 9007199254740992) as [-> | Hne].
  - unfold shr_record_of_loc. rewrite fexp_eq.
    change (Zdigits2 9007199254740992) with 54.
    replace (Z.max (54 + (e + n) - 53) (-1074) - (e + n)) with 1 by lia.
    reflexivity.
  - assert (Hd2 : Zdigits2 m2 ≤ 53).
    { apply Zdigits2_le; [lia | lia |]. change (2 ^ 53) with 9007199254740992. lia. }
    rewrite fexp_eq.
    destruct (Z.max (Zdigits2 m2 + (e + n) - 53) (-1074) - (e + n)) as [| p | p] eqn:Hnr;
      [| lia |]; simpl; destruct m2; reflexivity.
Qed.

End rounding.

Section nearest.

Lemma nearest_even_scale N D j :
  0 < D → 0 < j → nearest_even (N * j) (D * j) = nearest_even N D.
Proof.
  intros HD Hj. unfold nearest_even.
  rewrite Z.div_mul_cancel_r by lia. rewrite Z.mul_mod_distr_r by lia.
  assert (Hc : (2 * (N mod D * j) ?= D * j) = (2 * (N mod D) ?= D)).
  { destruct (Z.compare_spec (2 * (N mod D)) D) as [H | H | H].
    - apply Z.compare_eq_iff. nia.
    - apply Z.compare_lt_iff. nia.
    - apply Z.compare_gt_iff. nia. }
  rewrite Hc. reflexivity.
Qed.

(** [T ≤ RN(N/D)] exactly when [N/D] is above [T - 1/2], or equal to it
    with [T] even. *)
Lemma nearest_even_ge N D T :
  0 < D →
  (T ≤ nearest_even N D ↔
   (2 * T - 1) * D < 2 * N ∨ ((2 * T - 1) * D = 2 * N ∧ Z.even T = true)).
Proof.
  intros HD. unfold nearest_even.
  pose proof (Z.div_mod N D ltac:(lia)) as Hdm.
  pose proof (Z.mod_pos_bound N D HD) as Hr.
  revert Hdm Hr. generalize (N / D) (N mod D). intros q x Hdm Hr. subst N.
  set (d := T - q). assert (HT : T = q + d) by lia. clearbody d. subst T.
  replace ((2 * (q + d) - 1) * D) with (2 * D * q + (2 * d - 1) * D) by ring.
  assert (Hd : d ≤ 0 ∨ d = 1 ∨ 2 ≤ d) by lia.
  destruct Hd as [Hd | [-> | Hd]].
  - assert ((2 * d - 1) * D ≤ - D) by nia.
    destruct (2 * x ?= D); [destruct (Z.even q) |..]; split; try lia; intros _; left; lia.
  - replace ((2 * 1 - 1) * D) with D by ring.
    rewrite Z.even_add. change (Z.even 1) with false.
    destruct (Z.compare_spec (2 * x) D); [destruct (Z.even q) |..]; simpl;
      split; try lia; intros [? | [? ?]]; try lia; try discriminate.
  - assert (3 * D ≤ (2 * d - 1) * D) by nia.
    destruct (2 * x ?= D); [destruct (Z.even q) |..]; split; try lia;
      intros [? | [? ?]]; lia.
Qed.

(** [RN(N/D) ≤ T] exactly when [N/D] is below [T + 1/2], or equal to it
    with [T] even. *)
Lemma nearest_even_le N D T :
  0 < D →
  (nearest_even N D ≤ T ↔
   2 * N < (2 * T + 1) * D ∨ (2 * N = (2 * T + 1) * D ∧ Z.even T = true)).
Proof.
  intros HD. unfold nearest_even.
  pose proof (Z.div_mod N D ltac:(lia)) as Hdm.
  pose proof (Z.mod_pos_bound N D HD) as Hr.
  revert Hdm Hr. generalize (N / D) (N mod D). intros q x Hdm Hr. subst N.
  set (d := T - q). assert (HT : T = q + d) by lia. clearbody d. subst T.
  replace ((2 * (q + d) + 1) * D) with (2 * D * q + (2 * d + 1) * D) by ring.
  assert (Hd : d ≤ -1 ∨ d = 0 ∨ 1 ≤ d) by lia.
  destruct Hd as [Hd | [-> | Hd]].
  - assert ((2 * d + 1) * D ≤ - D) by nia.
    destruct (2 * x ?= D); [destruct (Z.even q) |..]; split; try lia;
      intros [? | [? ?]]; lia.
  - replace ((2 * 0 + 1) * D) with D by ring. rewrite Z.add_0_r.
    destruct (Z.compare_spec (2 * x) D); [destruct (Z.even q) |..]; simpl;
      split; try lia; intros [? | [? ?]]; try lia; try discriminate.
  - assert (3 * D ≤ (2 * d + 1) * D) by nia.
    destruct (2 * x ?= D); [destruct (Z.even q) |..]; split; try lia; intros _; left; lia.
Qed.

End nearest.

Section quotient.

Lemma pow2_le_mono a b : 0 ≤ a ≤ b → 2 ^ a ≤ 2 ^ b.
Proof. intros H. apply Z.pow_le_mono_r; lia. Qed.

Lemma pow2_lt_inv a b : 0 ≤ a → 0 ≤ b → 2 ^ a < 2 ^ b → a < b.
Proof.
  intros Ha Hb H. destruct (Z.lt_ge_cases a b) as [| Hge]; [assumption |].
  pose proof (pow2_le_mono b a ltac:(lia)). lia.
Qed.

(** The quotient of two positive integers whose ratio, scaled by [2 ^ k],
    has 53 binary digits: the scaled ratio rounded to the nearest integer,
    ties to even, with the exponent [- k]. *)
Lemma int_truediv_nearest a c k :
  0 < a → 0 < c → 0 ≤ k ≤ 1073 →
  2 ^ 52 * c ≤ a * 2 ^ k < 2 ^ 53 * c →
  let m := nearest_even (a * 2 ^ k) c in
  2 ^ 52 ≤ m ≤ 2 ^ 53 ∧
  int_truediv a c =
    Some (if m =? 9007199254740992
          then S754_finite false 4503599627370496 (1 - k)
          else S754_finite false (Z.to_pos m) (- k)).
Proof.
  intros Ha Hc Hk Hb m.
  assert (H2k : 0 < 2 ^ k) by (apply Z.pow_pos_nonneg; lia).
  assert (Hm : 2 ^ 52 ≤ m ≤ 2 ^ 53).
  { pose proof (nearest_even_bounds (a * 2 ^ k) c) as Hn. fold m in Hn.
    assert (2 ^ 52 ≤ a * 2 ^ k / c) by (apply Z.div_le_lower_bound; lia).
    assert (a * 2 ^ k / c < 2 ^ 53) by (apply Z.div_lt_upper_bound; lia).
    lia. }
  split; [exact Hm |].
  unfold int_truediv.
  destruct (Z.eqb_spec c 0) as [| _]; [lia |].
  destruct (Z.eqb_spec a 0) as [| _]; [lia |].
  destruct a as [| pa |]; [lia | | lia]. destruct c as [| pc |]; [lia | | lia].
  change (Zpos pa <? 0) with false. change (Zpos pc <? 0) with false.
  change (Z.to_pos (Z.abs (Zpos pa))) with pa. change (Z.to_pos (Z.abs (Zpos pc))) with pc.
  unfold SFdiv, SFdiv_core_binary.
  set (d1 := Zdigits2 (Zpos pa)). set (d2 := Zdigits2 (Zpos pc)).
  pose proof (Zdigits2_upper (Zpos pa) ltac:(lia)) as Hu1.
  pose proof (Zdigits2_lower (Zpos pa) ltac:(lia)) as Hl1.
  pose proof (Zdigits2_upper (Zpos pc) ltac:(lia)) as Hu2.
  pose proof (Zdigits2_lower (Zpos pc) ltac:(lia)) as Hl2.
  fold d1 in Hu1, Hl1. fold d2 in Hu2, Hl2.
  assert (Hd1 : 0 < d1) by (unfold d1; simpl; lia).
  assert (Hd2 : 0 < d2) by (unfold d2; simpl; lia).
  (* the shift of the division is [k] or [k + 1] *)
  assert (Hs : 52 - (d1 - d2) ≤ k ≤ 53 - (d1 - d2)).
  { assert (H52 : 0 < 2 ^ 52) by (apply Z.pow_pos_nonneg; lia).
    assert (H53 : 0 < 2 ^ 53) by (apply Z.pow_pos_nonneg; lia).
    split.
    - enough (52 + (d2 - 1) < d1 + k) by lia.
      apply pow2_lt_inv; [lia | lia |].
      rewrite (pow2_split 52 (d2 - 1)), (pow2_split d1 k) by lia.
      assert (2 ^ 52 * 2 ^ (d2 - 1) ≤ 2 ^ 52 * Zpos pc)
        by (apply Z.mul_le_mono_nonneg_l; lia).
      assert (Zpos pa * 2 ^ k < 2 ^ d1 * 2 ^ k)
        by (apply Z.mul_lt_mono_pos_r; lia).
      lia.
    - enough (d1 - 1 + k < 53 + d2) by lia.
      apply pow2_lt_inv; [lia | lia |].
      rewrite (pow2_split (d1 - 1) k), (pow2_split 53 d2) by lia.
      assert (2 ^ (d1 - 1) * 2 ^ k ≤ Zpos pa * 2 ^ k)
        by (apply Z.mul_le_mono_nonneg_r; lia).
      assert (2 ^ 53 * Zpos pc < 2 ^ 53 * 2 ^ d2)
        by (apply Z.mul_lt_mono_pos_l; lia).
      lia. }
  rewrite fexp_eq.
  replace (d1 + 0 - (d2 + 0)) with (d1 - d2) by lia.
  set (s := 53 - (d1 - d2)).
  replace (Z.min (Z.max (d1 - d2 - 53) (-1074)) (0 - 0)) with (- s) by (unfold s; lia).
  replace (0 - 0 - - s) with s by lia.
  assert (Hs0 : 0 ≤ s ≤ 1074) by (unfold s; lia).
  assert (Hm' : match s with
                | 0 => Zpos pa
                | Zpos _ => Z.shiftl (Zpos pa) s
                | Zneg _ => 0
                end = Zpos pa * 2 ^ s).
  { destruct s as [| ps | ps]; [simpl; lia | | lia].
    rewrite Z.shiftl_mul_pow2 by lia. reflexivity. }
  rewrite Hm'. set (N := Zpos pa * 2 ^ s).
  assert (HN : 0 ≤ N) by (unfold N; apply Z.mul_nonneg_nonneg; [lia | apply Z.pow_nonneg; lia]).
  pose proof (Z.div_eucl_eq N (Zpos pc) ltac:(lia)) as Hdiv.
  assert (Hqr : Z.div_eucl N (Zpos pc) = (N / Zpos pc, N mod Zpos pc)).
  { unfold Z.div, Z.modulo. destruct (Z.div_eucl N (Zpos pc)). reflexivity. }
  rewrite Hqr. rewrite new_location_loc_of by lia.
  change (xorb false false) with false.
  rewrite (binary_round_aux_nearest false N (Zpos pc) (- s) HN ltac:(lia)).
  rewrite fexp_eq.
  assert (Hcase : s = k ∨ s = k + 1) by (unfold s; lia).
  destruct Hcase as [Hsk | Hsk].
  - (* 53 digits in the quotient *)
    assert (Hdq : Zdigits2 (N / Zpos pc) = 53).
    { apply Zdigits2_unique; [lia |]. unfold N. rewrite Hsk. split.
      - apply Z.div_le_lower_bound; lia.
      - apply Z.div_lt_upper_bound; lia. }
    rewrite Hdq.
    replace (Z.max 0 (Z.max (53 + - s - 53) (-1074) - - s)) with 0 by lia.
    rewrite Z.mul_1_r. unfold N. rewrite Hsk. fold m.
    replace (- k + 0 + 1) with (1 - k) by lia. replace (- k + 0) with (- k) by lia.
    destruct (Z.eqb_spec m 9007199254740992) as [_ | Hne].
    + unfold encode. destruct (Z.leb_spec (1 - k) (emax - prec)) as [_ | Hgt];
        [reflexivity | unfold emax, prec in Hgt; lia].
    + unfold encode. destruct m as [| pm | pm]; [simpl in Hm; lia | | lia].
      destruct (Z.leb_spec (- k) (emax - prec)) as [_ | Hgt];
        [reflexivity | unfold emax, prec in Hgt; lia].
  - (* 54 digits in the quotient *)
    assert (Hk1 : 2 ^ (k + 1) = 2 * 2 ^ k)
      by (rewrite Z.add_1_r, Z.pow_succ_r by lia; reflexivity).
    assert (Hdq : Zdigits2 (N / Zpos pc) = 54).
    { apply Zdigits2_unique; [lia |]. unfold N. rewrite Hsk, Hk1.
      change (2 ^ (54 - 1)) with (2 * 2 ^ 52). change (2 ^ 54) with (2 * 2 ^ 53). split.
      - apply Z.div_le_lower_bound; lia.
      - apply Z.div_lt_upper_bound; lia. }
    rewrite Hdq.
    replace (Z.max 0 (Z.max (54 + - s - 53) (-1074) - - s)) with 1 by lia.
    unfold N. rewrite Hsk, Hk1. change (2 ^ 1) with 2.
    replace (Zpos pa * (2 * 2 ^ k)) with (Zpos pa * 2 ^ k * 2) by lia.
    rewrite nearest_even_scale by lia. fold m.
    replace (- (k + 1) + 1 + 1) with (1 - k) by lia.
    replace (- (k + 1) + 1) with (- k) by lia.
    destruct (Z.eqb_spec m 9007199254740992) as [_ | Hne].
    + unfold encode. destruct (Z.leb_spec (1 - k) (emax - prec)) as [_ | Hgt];
        [reflexivity | unfold emax, prec in Hgt; lia].
    + unfold encode. destruct m as [| pm | pm]; [simpl in Hm; lia | | lia].
      destruct (Z.leb_spec (- k) (emax - prec)) as [_ | Hgt];
        [reflexivity | unfold emax, prec in Hgt; lia].
Qed.

End quotient.

Section percent.

(** The product of a normal binary64 number by [float(100)]: 100 is
    [25 * 2 ^ 2], so the mantissa is multiplied by 25 and loses 4 or 5
    digits. *)
Lemma float_mul_100_nearest (m : positive) e :
  2 ^ 52 ≤ Zpos m < 2 ^ 53 → -1080 ≤ e ≤ 900 →
  let m16 := nearest_even (25 * Zpos m) 16 in
  let m32 := nearest_even (25 * Zpos m) 32 in
  float_mul (S754_finite false m e) f100 =
    (if 25 * Zpos m <? 2 ^ 57
     then S754_finite false (Z.to_pos m16) (e + 6)
     else S754_finite false (Z.to_pos m32) (e + 7)) ∧
  (25 * Zpos m < 2 ^ 57 → 2 ^ 52 ≤ m16 < 2 ^ 53) ∧
  (2 ^ 57 ≤ 25 * Zpos m → 2 ^ 52 ≤ m32 < 2 ^ 53).
Proof.
  intros Hm He m16 m32.
  pose proof (nearest_even_bounds (25 * Zpos m) 16) as H16. fold m16 in H16.
  pose proof (nearest_even_bounds (25 * Zpos m) 32) as H32. fold m32 in H32.
  mantissa_bounds. change (2 ^ 57) with 144115188075855872 in *.
  assert (Hb16 : 25 * Zpos m < 144115188075855872 →
                 4503599627370496 ≤ m16 < 9007199254740992).
  { intros Hlt. clearbody m16 m32.
    assert (7036874417766400 ≤ 25 * Zpos m / 16) by (apply Z.div_le_lower_bound; lia).
    assert (25 * Zpos m / 16 < 9007199254740991) by (apply Z.div_lt_upper_bound; lia).
    lia. }
  assert (Hb32 : 144115188075855872 ≤ 25 * Zpos m →
                 4503599627370496 ≤ m32 < 9007199254740992).
  { intros Hge. clearbody m16 m32.
    assert (4503599627370496 ≤ 25 * Zpos m / 32) by (apply Z.div_le_lower_bound; lia).
    assert (25 * Zpos m / 32 < 7036874417766400) by (apply Z.div_lt_upper_bound; lia).
    lia. }
  split; [| split; assumption].
  unfold float_mul, f100, SFmul. change (xorb false false) with false.
  rewrite Pos2Z.inj_mul. set (P := Zpos m * 7036874417766400).
  assert (HP : 0 ≤ P) by (unfold P; lia).
  pose proof (binary_round_aux_nearest false P 1 (e + -46) HP ltac:(lia)) as Hr.
  cbv zeta in Hr. unfold loc_of in Hr. rewrite Z.mod_1_r, Z.div_1_r in Hr.
  change (0 =? 0) with true in Hr. cbv iota in Hr. rewrite Hr. clear Hr.
  rewrite fexp_eq, Z.mul_1_l.
  destruct (Z.ltb_spec (25 * Zpos m) 144115188075855872) as [Hlt | Hge].
  - assert (Hd : Zdigits2 P = 105).
    { apply Zdigits2_unique; [lia |]. unfold P.
      change (2 ^ (105 - 1)) with 20282409603651670423947251286016.
      change (2 ^ 105) with 40564819207303340847894502572032. clearbody m16 m32. lia. }
    rewrite Hd.
    replace (Z.max 0 (Z.max (105 + (e + -46) - 53) (-1074) - (e + -46))) with 52 by lia.
    replace P with (25 * Zpos m * 281474976710656) by (unfold P; lia).
    change (2 ^ 52) with (16 * 281474976710656).
    rewrite nearest_even_scale by lia. fold m16.
    specialize (Hb16 Hlt). clearbody m16 m32.
    destruct (Z.eqb_spec m16 9007199254740992) as [| _]; [lia |].
    unfold encode. destruct m16 as [| p16 | p16]; [lia | | lia].
    replace (e + -46 + 52) with (e + 6) by lia.
    destruct (Z.leb_spec (e + 6) (emax - prec)) as [_ | Hgt];
      [reflexivity | unfold emax, prec in Hgt; clear - Hgt He; lia].
  - assert (Hd : Zdigits2 P = 106).
    { apply Zdigits2_unique; [lia |]. unfold P.
      change (2 ^ (106 - 1)) with 40564819207303340847894502572032.
      change (2 ^ 106) with 81129638414606681695789005144064. clearbody m16 m32. lia. }
    rewrite Hd.
    replace (Z.max 0 (Z.max (106 + (e + -46) - 53) (-1074) - (e + -46))) with 53 by lia.
    replace P with (25 * Zpos m * 281474976710656) by (unfold P; lia).
    change (2 ^ 53) with (32 * 281474976710656).
    rewrite nearest_even_scale by lia. fold m32.
    specialize (Hb32 Hge). clearbody m16 m32.
    destruct (Z.eqb_spec m32 9007199254740992) as [| _]; [lia |].
    unfold encode. destruct m32 as [| p32 | p32]; [lia | | lia].
    replace (e + -46 + 53) with (e + 7) by lia.
    destruct (Z.leb_spec (e + 7) (emax - prec)) as [_ | Hgt];
      [reflexivity | unfold emax, prec in Hgt; clear - Hgt He; lia].
Qed.

(** The two thresholds of the scaling policy are exact doubles. *)
Lemma float_80_30 :
  binary_normalize prec emax 80 0 false = S754_finite false 5629499534213120 (-46) ∧
  binary_normalize prec emax 30 0 false = S754_finite false 8444249301319680 (-48).
Proof. split; vm_compute; reflexivity. Qed.

(** [x < y] on two positive numbers: by exponent, then by mantissa. *)
Lemma SFltb_positive (m1 m2 : positive) e1 e2 :
  SFltb (S754_finite false m1 e1) (S754_finite false m2 e2) = true ↔
  e1 < e2 ∨ (e1 = e2 ∧ Zpos m1 < Zpos m2).
Proof.
  unfold SFltb, SFcompare.
  destruct (Z.compare_spec e1 e2) as [He | Hlt | Hgt].
  - fold (Pos.compare m1 m2). rewrite (Pos2Z.inj_compare m1 m2).
    destruct (Z.compare_spec (Zpos m1) (Zpos m2)) as [H | H | H].
    + split; [discriminate | intros [Ht | [_ Ht]]; lia].
    + split; [intros _; right; split; [exact He | exact H] | reflexivity].
    + split; [discriminate | intros [Ht | [_ Ht]]; lia].
  - split; [intros _; left; exact Hlt | reflexivity].
  - split; [discriminate | intros [Ht | [Ht _]]; lia].
Qed.

(** The two comparisons of the scaling policy on a positive number. *)
Lemma float_gt_80 (m : positive) e :
  float_gt_int (S754_finite false m e) 80 = true ↔
  -46 < e ∨ (e = -46 ∧ 5629499534213120 < Zpos m).
Proof.
  unfold float_gt_int. rewrite (proj1 float_80_30), SFltb_positive.
  split; (intros [H | [H1 H2]]; [left; exact H | right; split; [symmetry; exact H1 | exact H2]]).
Qed.

Lemma float_lt_30 (m : positive) e :
  float_lt_int (S754_finite false m e) 30 = true ↔
  e < -48 ∨ (e = -48 ∧ Zpos m < 8444249301319680).
Proof.
  unfold float_lt_int. rewrite (proj2 float_80_30), SFltb_positive. reflexivity.
Qed.

End percent.

Section percentage.


(** The binary exponent of the ratio of two positive integers. *)
Lemma ratio_exponent a c :
  0 < a ≤ c →
  ∃ k, 52 ≤ k ≤ 53 + Zdigits2 c ∧ 2 ^ 52 * c ≤ a * 2 ^ k < 2 ^ 53 * c.
Proof.
  intros Hac.
  pose proof (Zdigits2_upper a ltac:(lia)) as Hu1.
  pose proof (Zdigits2_lower a ltac:(lia)) as Hl1.
  pose proof (Zdigits2_upper c ltac:(lia)) as Hu2.
  pose proof (Zdigits2_lower c ltac:(lia)) as Hl2.
  set (d1 := Zdigits2 a) in *. set (d2 := Zdigits2 c) in *.
  assert (Hd1 : 0 < d1) by (unfold d1; destruct a; simpl; lia).
  assert (Hd2 : 0 < d2) by (unfold d2; destruct c; simpl; lia).
  assert (Hd12 : d1 ≤ d2).
  { apply Zdigits2_le; [lia | lia | lia]. }
  set (δ := d2 - d1). assert (Hδ : 0 ≤ δ ∧ d2 = d1 + δ) by (unfold δ; lia).
  clearbody δ. destruct Hδ as [Hδ0 Hδ].
  assert (H2δ : 0 < 2 ^ δ) by (apply Z.pow_pos_nonneg; lia).
  assert (E1 : 2 ^ (d2 - 1) = 2 ^ (d1 - 1) * 2 ^ δ).
  { rewrite <- pow2_split by lia. f_equal. lia. }
  assert (E2 : 2 ^ d2 = 2 ^ d1 * 2 ^ δ).
  { rewrite <- pow2_split by lia. f_equal. lia. }
  assert (Hlo : 2 ^ (d2 - 1) ≤ a * 2 ^ δ).
  { rewrite E1. apply Z.mul_le_mono_nonneg_r; lia. }
  assert (Hhi : a * 2 ^ δ < 2 ^ d2).
  { rewrite E2. apply Z.mul_lt_mono_pos_r; lia. }
  assert (H2d : 2 ^ d2 = 2 * 2 ^ (d2 - 1)).
  { replace d2 with (Z.succ (d2 - 1)) at 1 by lia. rewrite Z.pow_succ_r by lia. reflexivity. }
  destruct (Z.le_gt_cases c (a * 2 ^ δ)) as [Hge | Hlt].
  - exists (52 + δ). split; [lia |].
    rewrite pow2_split by lia.
    change (2 ^ 53) with (2 * 2 ^ 52).
    assert (0 < 2 ^ 52) by (apply Z.pow_pos_nonneg; lia). nia.
  - exists (53 + δ). split; [lia |].
    rewrite pow2_split by lia.
    change (2 ^ 53) with (2 * 2 ^ 52).
    assert (0 < 2 ^ 52) by (apply Z.pow_pos_nonneg; lia). nia.
Qed.


End percentage.
(** ** Examples: the scenarios of the specification *)

Lemma new_balancer_allocated c w q h pool : allocated (new_balancer c w q h) pool = 0.
Proof.
  unfold allocated, new_balancer, dict_get. simpl. rewrite lookup_fmap.
  destruct (c !! pool); reflexivity.
Qed.

(** The float literals are the doubles nearest to [7/10], [3/2] and 100,
    and the two thresholds are exact. *)
Example float_literals :
  int_truediv 7 10 = Some f0_7 ∧ int_truediv 3 2 = Some f1_5 ∧
  float_of_int 100 = Some f100 ∧
  (float_of_int 80 ≫= int_of_float) = Some 80 ∧
  (float_of_int 30 ≫= int_of_float) = Some 30.
Proof. vm_compute. repeat split; reflexivity. Qed.

(** Capacities [{research: 12, dev: 9}]: the first assignment succeeds and
    the ledger becomes [{research: 3, dev: 2}]; a second one asking for 10
    research agents is refused and changes nothing. *)
Example two_pools_scenario :
  assign_task "t0" "T1"
    (dict_object (list_to_map [("research", 3); ("dev", 2)]%string)) two_pools
    = (true, two_pools_busy) ∧
  allocated two_pools_busy "research" = 3 ∧ allocated two_pools_busy "dev" = 2 ∧
  assign_task "t1" "T2" (dict_object {["research"%string := 10]}) two_pools_busy
    = (false, two_pools_busy).
Proof. vm_compute. repeat split; reflexivity. Qed.

(** [5 / 21 * 100] is the double [23.809523809523807]. *)
Example two_pools_utilization :
  calculate_utilization two_pools_busy =
  Some (S754_finite false 6701785159777523 (-48)).
Proof. vm_compute. reflexivity. Qed.

(** The product [90 * 0.7] is the double [62.99999999999999], just below
    63, so a pool of capacity 90 with nothing allocated is scaled down to
    62. *)
Example scale_down_capacity_90 :
  mul_int_float 90 f0_7 = Some (S754_finite false 8866461766385663 (-47)) ∧
  scale_down_capacity 0 90 = Some 62 ∧
  scale_down_capacity_floor 0 90 = Some 62 ∧
  7 * 90 / 10 = 63.
Proof. vm_compute. repeat split; reflexivity. Qed.

(** The smallest capacity whose scaled value is not [1.5 * c] truncated:
    [3 * c] is [2^53 + 7], and the product, half-way between two doubles,
    is rounded to the even one. *)
Example scale_up_capacity_rounds :
  scale_up_capacity 3002399751580333 = Some 4503599627370500 ∧
  Z.quot (3 * 3002399751580333) 2 = 4503599627370499 ∧
  scale_up_capacity 3002399751580331 = Some (Z.quot (3 * 3002399751580331) 2).
Proof. vm_compute. repeat split; reflexivity. Qed.

(** Values of the two scaling formulas on the default capacities and on
    large integers, as CPython computes them. *)
Example scaling_values :
  map scale_up_capacity [12; 9; 15; 6; 4; 1152921504606859321;
                         100000000000000000007] =
    [Some 18; Some 13; Some 22; Some 9; Some 6; Some 1729382256910288896;
     Some 150000000000000000000] ∧
  map (scale_down_capacity 0) [12; 9; 15; 6; 4; 170; 1152921504606859321;
                               100000000000000000007] =
    [Some 8; Some 6; Some 10; Some 4; Some 2; Some 118; Some 807045053224801408;
     Some 69999999999999991808] ∧
  scale_up_capacity (2 ^ 1024) = None.
Proof. vm_compute. repeat split; reflexivity. Qed.

(** ** The claims *)

(** C1. Reservation is all or nothing.  For every state and every request
    (a dictionary of the caller or one of the tables of the balancer): when
    some requested pool has fewer available agents than requested,
    [assign_task] returns [False] and leaves the whole state as it was (no
    allocated value changes, no task is created); when every requested pool
    has at least the requested count available, it returns [True], raises
    the allocated value of each requested pool by exactly the count the
    request held for it, leaves the other pools alone and appends one new
    in-progress task holding the request. *)
Theorem assign_task_all_or_nothing
    (now task_name : string) (required_agents : DictRef)
    (s : AIAgentLoadBalancer) :
  ((∃ pool count, deref s required_agents !! pool = Some count ∧
                  get_available_agents s pool < count) →
   assign_task now task_name required_agents s = (false, s)) ∧
  ((∀ pool count, deref s required_agents !! pool = Some count →
                  count ≤ get_available_agents s pool) →
   ∃ s', assign_task now task_name required_agents s = (true, s') ∧
         (∀ pool count, deref s required_agents !! pool = Some count →
                        allocated s' pool = allocated s pool + count) ∧
         (∀ pool, deref s required_agents !! pool = None →
                  agent_allocation s' !! pool = agent_allocation s !! pool) ∧
         task_queue s' =
           task_queue s ++ [mkTask task_name required_agents now in_progress None] ∧
         agent_capacity s' = agent_capacity s ∧
         current_workload s' = current_workload s ∧
         completed_tasks s' = completed_tasks s).
Proof.
  split.
  - intros Hshort. apply can_allocate_false in Hshort.
    unfold assign_task. rewrite Hshort. reflexivity.
  - intros Hall.
    assert (Hcan : can_allocate s required_agents = true)
      by (apply can_allocate_spec; exact Hall).
    destruct (allocate_loop s required_agents Hall) as (Hc & Hw & Hq & Hh & Ha).
    unfold assign_task. rewrite Hcan. simpl.
    eexists. split; [reflexivity |]. simpl.
    repeat split; try assumption.
    + intros pool count Hp. unfold allocated at 1, dict_get. simpl.
      rewrite (Ha pool), Hp. reflexivity.
    + intros pool Hp. rewrite (Ha pool), Hp. reflexivity.
    + rewrite Hq. reflexivity.
Qed.

(** C2, the claim as stated fails: with a negative count [release_agent]
    raises the allocated value, and so does [complete_task] on a live task
    that holds a negative count.  In both states the invariant holds before
    the call, and after it 2 agents are allocated out of a capacity of 1. *)
Lemma negative_release_breaks_capacity_invariant :
  capacity_invariant full_state ∧
  allocated (release_agent "pool" (-1) full_state) "pool" = 2 ∧
  capacity (release_agent "pool" (-1) full_state) "pool" = 1 ∧
  (capacity_invariant (release_agent "pool" (-1) full_state) → False) ∧
  capacity_invariant negative_task_state ∧
  allocated (complete_task "t1" "T" negative_task_state) "pool" = 2 ∧
  capacity (complete_task "t1" "T" negative_task_state) "pool" = 1 ∧
  (capacity_invariant (complete_task "t1" "T" negative_task_state) → False).
Proof.
  repeat split; try reflexivity;
    try (apply capacity_invariant_check; apply (bool_decide_unpack _); vm_compute; exact I).
  - intros H. specialize (H "pool"%string). vm_compute in H. destruct H as [_ H]. by apply H.
  - intros H. specialize (H "pool"%string). vm_compute in H. destruct H as [_ H]. by apply H.
Qed.

(** C2 (as amended). The capacity invariant.  In a state where
    [0 ≤ allocated[p] ≤ capacity[p]] holds for every pool, each single
    operation leaves a state where it still holds: [assign_task] with
    positive requested counts, [allocate_agent] with a positive count,
    [release_agent] with a count that is not negative, [complete_task] when
    the task it releases holds no negative count, and [auto_scale].  Every
    one of them returns; for [auto_scale] this is shown when the workload
    table holds the scaling flag and every capacity has fewer than 1000
    binary digits (beyond the range of a double it raises). *)
Theorem capacity_invariant_preserved (op : Operation) (s : AIAgentLoadBalancer) :
  capacity_invariant s →
  sound_counts s op →
  (∀ s', perform op s = Some s' → capacity_invariant s') ∧
  ((op = OpAutoScale →
    is_Some (current_workload s !! "auto_scaling_ready"%string) ∧
    ∀ pool c, agent_capacity s !! pool = Some c → c < 2 ^ 1000) →
   is_Some (perform op s)).
Proof.
  intros Hinv Hcounts. split.
  - intros s'. destruct op as [now n r | now n | t c | t c |]; simpl in *.
    + intros [= <-]. by apply assign_task_invariant.
    + intros [= <-]. by apply complete_task_invariant.
    + intros [= <-]. by apply allocate_agent_invariant.
    + intros [= <-]. by apply release_agent_invariant.
    + by apply auto_scale_invariant.
  - intros Hauto. destruct op as [now n r | now n | t c | t c |]; simpl;
      try (eexists; reflexivity).
    destruct (Hauto eq_refl) as [Hflag Hsize]. by apply auto_scale_defined.
Qed.

Lemma capacity_invariant_preserved_witness :
  capacity_invariant (single_pool 10 9 1) ∧
  capacity_invariant (set_agent_capacity (single_pool 10 9 1) {["pool"%string := 15]}).
Proof.
  assert (H : capacity_invariant (single_pool 10 9 1)).
  { apply capacity_invariant_check; apply (bool_decide_unpack _); vm_compute; exact I. }
  split; [exact H |].
  apply (capacity_invariant_preserved OpAutoScale (single_pool 10 9 1) H I).
  vm_compute. reflexivity.
Defined.

(** C3, the claim as stated fails, in two ways.  When the allocated value
    of a requested pool is negative before the assignment, the floor at 0
    of the release loses it: the pool stands at -5, the assignment of one
    agent succeeds, and after completion the pool stands at 0.  And when
    the request is the allocation table of the balancer itself
    ([assign_task("T", b.agent_allocation)]), the task holds the table, not
    a copy: with 2 of 10 agents allocated and no live task the assignment
    succeeds and doubles the pool to 4, and the completion releases what
    the table then holds, which leaves 0, not 2. *)
Lemma assign_then_complete_loses_allocation :
  task_queue negative_ledger_state = [] ∧
  allocated negative_ledger_state "pool" = -5 ∧
  fst (assign_task "t0" "T" (dict_object {["pool"%string := 1]})
         negative_ledger_state) = true ∧
  allocated (complete_task "t1" "T"
               (snd (assign_task "t0" "T" (dict_object {["pool"%string := 1]})
                       negative_ledger_state)))
            "pool" = 0 ∧
  task_queue ledger_state = [] ∧
  capacity ledger_state "pool" = 10 ∧
  allocated ledger_state "pool" = 2 ∧
  fst (assign_task "t0" "T" self_agent_allocation ledger_state) = true ∧
  allocated (snd (assign_task "t0" "T" self_agent_allocation ledger_state)) "pool" = 4 ∧
  allocated (complete_task "t1" "T"
               (snd (assign_task "t0" "T" self_agent_allocation ledger_state)))
            "pool" = 0 ∧
  (allocated (complete_task "t1" "T"
                (snd (assign_task "t0" "T" self_agent_allocation ledger_state)))
             "pool" = allocated ledger_state "pool" → False).
Proof. vm_compute. repeat split; try reflexivity. discriminate. Qed.

(** C3 (as amended). Assign then complete.  When [assign_task(T, R)]
    succeeds in a state where no live task is already called [T] and the
    allocated value of every requested pool is not negative, and [R] is not
    the allocation table of the balancer itself, a following
    [complete_task(T)] brings the allocated value of every pool back to what
    it was before the assignment. *)
Theorem assign_then_complete_restores
    (now now' task_name : string) (required_agents : DictRef)
    (s s' : AIAgentLoadBalancer) :
  assign_task now task_name required_agents s = (true, s') →
  (∀ t, t ∈ task_queue s → name t ≠ task_name) →
  (∀ pool count, deref s required_agents !! pool = Some count → 0 ≤ allocated s pool) →
  outside_ledger required_agents →
  ∀ pool, allocated (complete_task now' task_name s') pool = allocated s pool.
Proof.
  intros Hassign Hfresh Hnonneg Hout pool.
  destruct (assign_task_true _ _ _ _ _ Hassign) as (_ & Hc & Hw & Hq & _ & Ha).
  assert (Hf : find_task task_name (task_queue s') =
               Some (length (task_queue s),
                     mkTask task_name required_agents now in_progress None)).
  { rewrite Hq. apply find_task_app_new; [exact Hfresh | reflexivity]. }
  destruct (complete_task_found now' _ _ _ _ Hf) as (_ & _ & _ & _ & Hr).
  rewrite (Hr pool), (Ha pool). simpl.
  rewrite (deref_outside_ledger s s' required_agents Hout Hc Hw).
  unfold dict_get.
  destruct (deref s required_agents !! pool) as [c |] eqn:Hp; simpl; [| lia].
  specialize (Hnonneg pool c Hp). lia.
Qed.

Lemma assign_then_complete_restores_witness :
  allocated (complete_task "t1" "T1" two_pools_busy) "research" =
  allocated two_pools "research".
Proof.
  apply (assign_then_complete_restores "t0" "t1" "T1"
           (dict_object (list_to_map [("research", 3); ("dev", 2)]%string))
           two_pools two_pools_busy).
  - vm_compute. reflexivity.
  - intros t Ht. destruct (not_elem_of_nil t Ht).
  - intros pool count _. unfold two_pools. rewrite new_balancer_allocated. lia.
  - discriminate.
Defined.

(** C4, the claim as stated fails, in two ways.  A request can be the
    allocation table of the balancer itself: after
    [assign_task("T1", {"pool": 2})] and
    [assign_task("T2", b.agent_allocation)] on a fresh balancer of capacity
    10, both with positive counts and both accepted, the pool stands at 4
    while the two live tasks hold 2 and, through the table, 4.  And the
    state the calls start from can hold a live task although every
    allocated value is zero: the constructor takes the queue as an
    argument. *)
Lemma live_reservations_exceed_allocation :
  (∀ pool, allocated (new_balancer {["pool"%string := 10]} ∅ [] []) pool = 0) ∧
  fst (assign_task "t0" "T1" (dict_object {["pool"%string := 2]})
         (new_balancer {["pool"%string := 10]} ∅ [] [])) = true ∧
  positive_counts
    (deref (run [AssignTask "t0" "T1" (dict_object {["pool"%string := 2]})]
              (new_balancer {["pool"%string := 10]} ∅ [] []))
           self_agent_allocation) ∧
  fst (assign_task "t1" "T2" self_agent_allocation
         (run [AssignTask "t0" "T1" (dict_object {["pool"%string := 2]})]
              (new_balancer {["pool"%string := 10]} ∅ [] []))) = true ∧
  allocated (run own_table_calls (new_balancer {["pool"%string := 10]} ∅ [] []))
            "pool" = 4 ∧
  live_reserved
    (run own_table_calls (new_balancer {["pool"%string := 10]} ∅ [] []))
    (task_queue (run own_table_calls (new_balancer {["pool"%string := 10]} ∅ [] [])))
    "pool" = 6 ∧
  (∀ pool, allocated queued_state pool = 0) ∧
  allocated (run [] queued_state) "pool" = 0 ∧
  live_reserved (run [] queued_state) (task_queue (run [] queued_state)) "pool" = 3.
Proof.
  split; [intros pool; apply new_balancer_allocated |].
  split; [vm_compute; reflexivity |].
  split; [apply (bool_decide_unpack _); vm_compute; exact I |].
  split; [vm_compute; reflexivity |].
  split; [vm_compute; reflexivity |].
  split; [vm_compute; reflexivity |].
  split; [intros pool; apply new_balancer_allocated |].
  split; vm_compute; reflexivity.
Qed.

(** C4 (as amended). The ledger is a derived aggregate.  Start from a
    state with every allocated value zero and no live task, and perform any
    sequence of [assign_task] and [complete_task] calls whose requests hold
    positive counts and are never the allocation table of the balancer
    itself: in the state reached, the allocated value of every pool is the
    sum, over the live tasks, of what each reserved against that pool. *)
Theorem allocated_is_sum_of_live_reservations
    (calls : list Call) (s0 : AIAgentLoadBalancer) :
  (∀ pool, allocated s0 pool = 0) →
  task_queue s0 = [] →
  Forall (positive_request s0) calls →
  ∀ pool, allocated (run calls s0) pool =
          live_reserved (run calls s0) (task_queue (run calls s0)) pool.
Proof.
  intros Hzero Hempty Hcalls.
  apply (ledger_invariant_run calls s0 Hcalls).
  split.
  - intros pool. rewrite Hempty. apply Hzero.
  - rewrite Hempty. constructor.
Qed.

Lemma allocated_is_sum_of_live_reservations_witness :
  allocated
    (run [AssignTask "t0" "T1"
            (dict_object (list_to_map [("research", 3); ("dev", 2)]%string));
          AssignTask "t1" "T2" (dict_object {["research"%string := 4]});
          AssignTask "t2" "T3" self_agent_capacity;
          CompleteTask "t3" "T1"] two_pools) "research" =
  live_reserved
    (run [AssignTask "t0" "T1"
            (dict_object (list_to_map [("research", 3); ("dev", 2)]%string));
          AssignTask "t1" "T2" (dict_object {["research"%string := 4]});
          AssignTask "t2" "T3" self_agent_capacity;
          CompleteTask "t3" "T1"] two_pools)
    (task_queue
       (run [AssignTask "t0" "T1"
               (dict_object (list_to_map [("research", 3); ("dev", 2)]%string));
             AssignTask "t1" "T2" (dict_object {["research"%string := 4]});
             AssignTask "t2" "T3" self_agent_capacity;
             CompleteTask "t3" "T1"] two_pools)) "research".
Proof.
  apply allocated_is_sum_of_live_reservations.
  - intros pool. unfold two_pools. apply new_balancer_allocated.
  - reflexivity.
  - repeat constructor; try discriminate; unfold positive_counts;
      apply (bool_decide_unpack _); vm_compute; exact I.
Defined.



(** C6, the claim as stated fails on large capacities.  The product
    [capacity * 1.5] is a binary64 product: for the capacity
    3002399751580333 it is half-way between two doubles and is rounded to
    4503599627370500, where 1.5 times the capacity truncated toward zero is
    4503599627370499; and for the capacity [2 ** 1024] the conversion to a
    double raises [OverflowError].  In both states the pool is fully
    allocated and the flag is set, so the scale-up branch is the one
    taken. *)
Lemma scale_up_rounds_large_capacity :
  should_scale_up (single_pool 3002399751580333 3002399751580333 1) = Some true ∧
  auto_scale (single_pool 3002399751580333 3002399751580333 1) =
    Some (set_agent_capacity (single_pool 3002399751580333 3002399751580333 1)
            {["pool"%string := 4503599627370500]}) ∧
  Z.quot (3 * 3002399751580333) 2 = 4503599627370499 ∧
  (capacity (set_agent_capacity (single_pool 3002399751580333 3002399751580333 1)
               {["pool"%string := 4503599627370500]}) "pool" =
   Z.quot (3 * 3002399751580333) 2 → False) ∧
  should_scale_up (single_pool (2 ^ 1024) (2 ^ 1024) 1) = Some true ∧
  auto_scale (single_pool (2 ^ 1024) (2 ^ 1024) 1) = None.
Proof. vm_compute. repeat split; try reflexivity. discriminate. Qed.

(** C6 (as amended). Scale-up.  [auto_scale] takes its scale-up branch exactly when the
    utilization is strictly above 80 and the scaling flag is set.  The
    branch replaces every capacity by [int(capacity * 1.5)] and leaves the
    allocation table, the tasks and the workload as they were; the product
    is the binary64 product, which is [1.5 * capacity] truncated toward
    zero whenever [3 * |capacity|] is below [2^53], and the branch returns
    when every capacity has fewer than 1000 binary digits.  When the branch
    is not taken, what happens is left to the scale-down test.  One pool of
    capacity 10 with 9 allocated and the flag set ends with capacity 15;
    at exactly 80 percent (4 of 5), or with the flag cleared, nothing
    changes. *)
Theorem auto_scale_scale_up (s : AIAgentLoadBalancer) :
  (should_scale_up s = Some true ↔
   ∃ utilization flag,
     calculate_utilization s = Some utilization ∧
     float_gt_int utilization 80 = true ∧
     current_workload s !! "auto_scaling_ready"%string = Some flag ∧ flag ≠ 0) ∧
  (should_scale_up s = Some true →
   auto_scale s =
     (c ← update_values (λ _ capacity, scale_up_capacity capacity) (agent_capacity s);
      Some (set_agent_capacity s c))) ∧
  (∀ s', should_scale_up s = Some true → auto_scale s = Some s' →
         (∀ pool, agent_capacity s' !! pool =
                  agent_capacity s !! pool ≫= scale_up_capacity) ∧
         agent_allocation s' = agent_allocation s ∧
         current_workload s' = current_workload s ∧
         task_queue s' = task_queue s ∧
         completed_tasks s' = completed_tasks s) ∧
  (should_scale_up s = Some true →
   (∀ pool c, agent_capacity s !! pool = Some c → Z.abs c < 2 ^ 1000) →
   is_Some (auto_scale s)) ∧
  (should_scale_up s = Some false →
   auto_scale s =
     (down ← should_scale_down s;
      if down : bool then
        c ← update_values
               (λ agent_type capacity,
                  scale_down_capacity (allocated s agent_type) capacity)
               (agent_capacity s);
        Some (set_agent_capacity s c)
      else Some s)) ∧
  (∀ c, 3 * Z.abs c < 2 ^ 53 → scale_up_capacity c = Some (Z.quot (3 * c) 2)) ∧
  auto_scale (single_pool 10 9 1) =
    Some (set_agent_capacity (single_pool 10 9 1) {["pool"%string := 15]}) ∧
  auto_scale (single_pool 5 4 1) = Some (single_pool 5 4 1) ∧
  auto_scale (single_pool 10 9 0) = Some (single_pool 10 9 0).
Proof.
  split; [| split; [| split; [| split; [| split; [| split; [| split; [| split]]]]]]].
  - unfold should_scale_up. split.
    + destruct (calculate_utilization s) as [u |]; simpl; [| discriminate].
      destruct (float_gt_int u 80) eqn:Hgt; [| discriminate].
      destruct (current_workload s !! "auto_scaling_ready"%string) as [flag |];
        simpl; [| discriminate].
      intros [= Hflag]. exists u, flag.
      split; [reflexivity |]. split; [exact Hgt |]. split; [reflexivity |].
      unfold truthy in Hflag. intros ->. discriminate.
    + intros (u & flag & -> & Hgt & -> & Hflag). simpl. rewrite Hgt. simpl.
      f_equal. unfold truthy. destruct (Z.eqb_spec flag 0); [contradiction | reflexivity].
  - intros Hup. unfold auto_scale. rewrite Hup. reflexivity.
  - intros s' Hup Hs. unfold auto_scale in Hs. rewrite Hup in Hs. simpl in Hs.
    destruct (update_values _ (agent_capacity s)) as [c' |] eqn:Hc';
      simpl in Hs; [| discriminate].
    injection Hs as <-. simpl. repeat split; try reflexivity.
    intros pool. pose proof (update_values_lookup _ _ _ Hc' pool) as Hl.
    destruct (agent_capacity s !! pool) as [c |]; simpl.
    + destruct Hl as (r & -> & ->). reflexivity.
    + exact Hl.
  - intros Hup Hsize. unfold auto_scale. rewrite Hup. simpl.
    destruct (update_values_defined (λ _ c, scale_up_capacity c) (agent_capacity s))
      as [c' ->]; [| eexists; reflexivity].
    intros k c Hc. unfold scale_up_capacity, f1_5.
    apply int_mul_int_float_defined; [by apply (Hsize k) | | lia].
    mantissa_bounds. lia.
  - intros Hup. unfold auto_scale. rewrite Hup. reflexivity.
  - apply scale_up_capacity_exact.
  - vm_compute. reflexivity.
  - vm_compute. reflexivity.
  - vm_compute. reflexivity.
Qed.

(** C7, the claim as stated fails: the product [capacity * 0.7] is a
    binary64 product with the double nearest to 0.7, which is below seven
    tenths.  For one pool of capacity 90 with nothing allocated the
    scale-down branch is taken and the product is [62.99999999999999], so
    the new capacity is 62, where [max(0 + 2, floor(90 * 0.7))] is 63. *)
Lemma scale_down_below_seven_tenths :
  should_scale_up (single_pool 90 0 1) = Some false ∧
  should_scale_down (single_pool 90 0 1) = Some true ∧
  auto_scale (single_pool 90 0 1) =
    Some (set_agent_capacity (single_pool 90 0 1) {["pool"%string := 62]}) ∧
  Z.max (allocated (single_pool 90 0 1) "pool" + 2) (7 * 90 / 10) = 63 ∧
  (capacity (set_agent_capacity (single_pool 90 0 1) {["pool"%string := 62]}) "pool" =
   Z.max (allocated (single_pool 90 0 1) "pool" + 2) (7 * 90 / 10) → False).
Proof. vm_compute. repeat split; try reflexivity. discriminate. Qed.

(** C7 (as amended). Scale-down.  When the scale-up branch is not taken, [auto_scale]
    takes its scale-down branch exactly when the utilization is strictly
    below 30; the test does not read the workload table, so the scaling flag
    plays no part.  The branch replaces every capacity by
    [max(allocated + 2, int(capacity * 0.7))], where the product is the
    binary64 product and [int] is [floor] for a capacity that is not
    negative (against the exact seven tenths of a capacity of up to 48
    binary digits the integer part is the floor or one less); every pool of
    the capacity table ends with at least 2 more capacity than allocated.
    Otherwise nothing changes.  One pool of capacity 20 with 1 allocated
    ends with capacity 14, flag set or not; at exactly 30 percent (3 of 10)
    nothing changes. *)
Theorem auto_scale_scale_down (s : AIAgentLoadBalancer) :
  (should_scale_down s = Some true ↔
   ∃ utilization, calculate_utilization s = Some utilization ∧
                  float_lt_int utilization 30 = true) ∧
  (∀ workload, should_scale_down (set_current_workload s workload) =
               should_scale_down s) ∧
  (should_scale_up s = Some false → should_scale_down s = Some true →
   auto_scale s =
     (c ← update_values
            (λ pool capacity, scale_down_capacity (allocated s pool) capacity)
            (agent_capacity s);
      Some (set_agent_capacity s c))) ∧
  (∀ s', should_scale_up s = Some false → should_scale_down s = Some true →
         auto_scale s = Some s' →
         (∀ pool, agent_capacity s' !! pool =
                  agent_capacity s !! pool ≫= scale_down_capacity (allocated s pool)) ∧
         (∀ pool, is_Some (agent_capacity s !! pool) →
                  allocated s' pool + 2 ≤ capacity s' pool) ∧
         agent_allocation s' = agent_allocation s ∧
         current_workload s' = current_workload s ∧
         task_queue s' = task_queue s ∧
         completed_tasks s' = completed_tasks s) ∧
  (should_scale_up s = Some false → should_scale_down s = Some false →
   auto_scale s = Some s) ∧
  (∀ a c, 0 ≤ c → scale_down_capacity a c = scale_down_capacity_floor a c) ∧
  (∀ a c r, 0 ≤ c < 2 ^ 48 → scale_down_capacity a c = Some r →
            Z.max (a + 2) (7 * c / 10 - 1) ≤ r ≤ Z.max (a + 2) (7 * c / 10)) ∧
  auto_scale (single_pool 20 1 1) =
    Some (set_agent_capacity (single_pool 20 1 1) {["pool"%string := 14]}) ∧
  auto_scale (single_pool 20 1 0) =
    Some (set_agent_capacity (single_pool 20 1 0) {["pool"%string := 14]}) ∧
  auto_scale (single_pool 10 3 1) = Some (single_pool 10 3 1).
Proof.
  split; [| split; [| split; [| split; [| split; [| split; [| split; [| split; [| split]]]]]]]].
  - unfold should_scale_down. split.
    + destruct (calculate_utilization s) as [u |]; simpl; [| discriminate].
      intros [= Hlt]. exists u. split; [reflexivity | exact Hlt].
    + intros (u & -> & Hlt). simpl. rewrite Hlt. reflexivity.
  - intros workload. reflexivity.
  - intros Hup Hdown. unfold auto_scale. rewrite Hup. simpl. rewrite Hdown. reflexivity.
  - intros s' Hup Hdown Hs. unfold auto_scale in Hs. rewrite Hup in Hs. simpl in Hs.
    rewrite Hdown in Hs. simpl in Hs.
    destruct (update_values _ (agent_capacity s)) as [c' |] eqn:Hc';
      simpl in Hs; [| discriminate].
    injection Hs as <-. simpl.
    split; [| split]; [| | repeat split; reflexivity].
    + intros pool. pose proof (update_values_lookup _ _ _ Hc' pool) as Hl.
      destruct (agent_capacity s !! pool) as [c |]; simpl.
      * destruct Hl as (r & Hr & ->). symmetry. exact Hr.
      * exact Hl.
    + intros pool [c Hc]. pose proof (update_values_lookup _ _ _ Hc' pool) as Hl.
      rewrite Hc in Hl. destruct Hl as (r & Hr & Hl).
      apply scale_down_capacity_ge in Hr.
      unfold capacity, allocated, dict_get in *. simpl. rewrite Hl. simpl. lia.
  - intros Hup Hdown. unfold auto_scale. rewrite Hup. simpl. rewrite Hdown. reflexivity.
  - intros a c Hc. unfold scale_down_capacity, scale_down_capacity_floor.
    destruct (mul_int_float c f0_7) as [y |] eqn:Hy; simpl; [| reflexivity].
    unfold f0_7 in Hy.
    rewrite (mul_int_float_nonneg_floor c 6305039478318694 (-53) y Hc); [reflexivity | | lia | exact Hy].
    mantissa_bounds. lia.
  - apply scale_down_capacity_bounds.
  - vm_compute. reflexivity.
  - vm_compute. reflexivity.
  - vm_compute. reflexivity.
Qed.

(** C8, the claim as stated fails: [allocate_agent("ghost", -5)] succeeds
    on a fresh default balancer, and the name, still absent from the
    capacity table, then has 5 agents available. *)
Lemma unknown_pool_with_negative_allocation :
  agent_capacity ghost_state !! "ghost"%string = None ∧
  allocated ghost_state "ghost" = -5 ∧
  get_available_agents ghost_state "ghost" = 5 ∧
  (get_available_agents ghost_state "ghost" = 0 → False).
Proof. vm_compute. repeat split; try reflexivity. discriminate. Qed.

(** C8 (as amended). Availability.  For every state and pool name,
    [get_available_agents] returns [max(0, capacity − allocated)] with an
    absent entry of either table read as 0, and never raises.  For a name
    absent from the capacity table this is [max(0, −allocated)]: it is 0
    whenever the allocated value of that name is not negative, in
    particular when the name is absent from the allocation table too. *)
Theorem get_available_agents_value (s : AIAgentLoadBalancer) (pool : string) :
  get_available_agents s pool = Z.max 0 (capacity s pool - allocated s pool) ∧
  (agent_capacity s !! pool = None →
   get_available_agents s pool = Z.max 0 (- allocated s pool)) ∧
  (agent_capacity s !! pool = None → 0 ≤ allocated s pool →
   get_available_agents s pool = 0) ∧
  (agent_capacity s !! pool = None → agent_allocation s !! pool = None →
   get_available_agents s pool = 0).
Proof.
  unfold get_available_agents, capacity, allocated, dict_get.
  split; [reflexivity |].
  split; [intros ->; reflexivity |].
  split; [intros -> H; simpl in *; lia |].
  intros -> ->. reflexivity.
Qed.

(** C9. Completing a name no live task carries changes nothing: the
    allocation table, the live tasks and the history are the ones of the
    state before, and no error is raised ([complete_task] is total). *)
Theorem complete_task_unknown_name (now task_name : string) (s : AIAgentLoadBalancer) :
  (∀ t, t ∈ task_queue s → name t ≠ task_name) →
  complete_task now task_name s = s.
Proof.
  intros Hq. apply find_task_None in Hq.
  unfold complete_task. rewrite Hq. reflexivity.
Qed.

Lemma complete_task_unknown_name_witness :
  complete_task "t1" "T9" two_pools_busy = two_pools_busy.
Proof.
  apply complete_task_unknown_name.
  intros t Ht. vm_compute in Ht. apply list_elem_of_singleton in Ht.
  subst t. discriminate.
Defined.

(** C10. An empty request always succeeds: for every state,
    [assign_task(name, {})] returns [True] and appends to the live tasks
    one new in-progress task that holds the empty reservation; the
    allocation table, the capacity table, the workload and the history are
    left as they were.  The same holds of every request that reads as an
    empty dictionary, one of the tables of the balancer included. *)
Theorem assign_task_empty_request (now task_name : string) (s : AIAgentLoadBalancer) :
  fst (assign_task now task_name (dict_object ∅) s) = true ∧
  task_queue (snd (assign_task now task_name (dict_object ∅) s)) =
    task_queue s ++ [mkTask task_name (dict_object ∅) now in_progress None] ∧
  (∀ pool, reserved (snd (assign_task now task_name (dict_object ∅) s))
                    (mkTask task_name (dict_object ∅) now in_progress None) pool = 0) ∧
  agent_allocation (snd (assign_task now task_name (dict_object ∅) s)) =
    agent_allocation s ∧
  agent_capacity (snd (assign_task now task_name (dict_object ∅) s)) =
    agent_capacity s ∧
  current_workload (snd (assign_task now task_name (dict_object ∅) s)) =
    current_workload s ∧
  completed_tasks (snd (assign_task now task_name (dict_object ∅) s)) =
    completed_tasks s ∧
  (∀ required_agents, deref s required_agents = ∅ →
     fst (assign_task now task_name required_agents s) = true ∧
     task_queue (snd (assign_task now task_name required_agents s)) =
       task_queue s ++ [mkTask task_name required_agents now in_progress None] ∧
     agent_allocation (snd (assign_task now task_name required_agents s)) =
       agent_allocation s).
Proof.
  assert (H : ∀ r, deref s r = ∅ →
            assign_task now task_name r s =
            (true, set_queues s (task_queue s ++ [mkTask task_name r now in_progress None])
                              (completed_tasks s))).
  { intros r Hr. unfold assign_task, can_allocate, allocate_all.
    rewrite Hr, !map_fold_empty. reflexivity. }
  assert (E : assign_task now task_name (dict_object ∅) s =
              (true, set_queues s (task_queue s ++
                                     [mkTask task_name (dict_object ∅) now in_progress None])
                                (completed_tasks s))).
  { unfold assign_task, can_allocate, allocate_all. simpl.
    rewrite !map_fold_empty. reflexivity. }
  rewrite E. simpl.
  split; [reflexivity |]. split; [reflexivity |]. split; [intros pool; reflexivity |].
  split; [reflexivity |]. split; [reflexivity |]. split; [reflexivity |].
  split; [reflexivity |].
  intros r Hr. rewrite (H r Hr). simpl. repeat split; reflexivity.
Qed.
(** ** Further properties *)

(** *** The pool operations and the task registry *)

Section pool_operations.
Implicit Types (s : AIAgentLoadBalancer).

Lemma allocate_agent_true agent_type count s s' :
  allocate_agent agent_type count s = (true, s') →
  count ≤ get_available_agents s agent_type ∧
  s' = set_agent_allocation s
         (<[agent_type := allocated s agent_type + count]> (agent_allocation s)).
Proof.
  unfold allocate_agent.
  destruct (Z.leb_spec count (get_available_agents s agent_type)); [| discriminate].
  intros [= <-]. split; [assumption | reflexivity].
Qed.

Lemma allocated_insert s (a : gmap string Z) k v pool :
  allocated (set_agent_allocation s (<[k := v]> a)) pool =
  if decide (k = pool) then v else dict_get a pool 0.
Proof.
  unfold allocated, dict_get. simpl. destruct (decide (k = pool)) as [<- | Hne].
  - rewrite lookup_insert_eq. reflexivity.
  - rewrite lookup_insert_ne by exact Hne. reflexivity.
Qed.

End pool_operations.

(** X1. Taking a whole pool.  For every state and pool name,
    [allocate_agent] of exactly the count [get_available_agents] returns
    succeeds and leaves no agent of the pool available; after it, every
    allocation of a positive count from the pool is refused and changes
    nothing. *)
Theorem allocate_agent_exhausts_pool (agent_type : string) (s : AIAgentLoadBalancer) :
  let s' := snd (allocate_agent agent_type (get_available_agents s agent_type) s) in
  fst (allocate_agent agent_type (get_available_agents s agent_type) s) = true ∧
  get_available_agents s' agent_type = 0 ∧
  ∀ count, 0 < count → allocate_agent agent_type count s' = (false, s').
Proof.
  cbv zeta.
  set (s1 := set_agent_allocation s
               (<[agent_type := dict_get (agent_allocation s) agent_type 0 +
                                get_available_agents s agent_type]>
                  (agent_allocation s))).
  assert (Ha : allocate_agent agent_type (get_available_agents s agent_type) s = (true, s1)).
  { unfold allocate_agent. rewrite Z.leb_refl. reflexivity. }
  assert (H0 : get_available_agents s1 agent_type = 0).
  { unfold s1, get_available_agents, dict_get. simpl. rewrite lookup_insert_eq. simpl. lia. }
  rewrite Ha. simpl. split; [reflexivity |]. split; [exact H0 |].
  intros count Hc. unfold allocate_agent. rewrite H0.
  destruct (Z.leb_spec count 0); [lia | reflexivity].
Qed.

(** X2. A successful [allocate_agent] on a pool that is within its capacity
    leaves the pool within its capacity, lowers the available agents of the
    pool by exactly the count and leaves the available agents of every other
    pool as they were. *)
Theorem allocate_agent_within_capacity
    (agent_type : string) (count : Z) (s s' : AIAgentLoadBalancer) :
  allocate_agent agent_type count s = (true, s') →
  allocated s agent_type ≤ capacity s agent_type →
  allocated s' agent_type ≤ capacity s' agent_type ∧
  get_available_agents s' agent_type = get_available_agents s agent_type - count ∧
  ∀ pool, pool ≠ agent_type →
          get_available_agents s' pool = get_available_agents s pool.
Proof.
  intros Ha Hle. apply allocate_agent_true in Ha. destruct Ha as [Hc ->].
  unfold get_available_agents, allocated, capacity, dict_get in *. simpl.
  rewrite lookup_insert_eq. simpl. split; [lia |]. split; [lia |].
  intros pool Hne. rewrite lookup_insert_ne by congruence. reflexivity.
Qed.

Lemma allocate_agent_within_capacity_witness :
  get_available_agents (single_pool 10 10 1) "pool" =
  get_available_agents (single_pool 10 7 1) "pool" - 3.
Proof.
  apply (allocate_agent_within_capacity "pool" 3 (single_pool 10 7 1) (single_pool 10 10 1)).
  - vm_compute. reflexivity.
  - vm_compute. discriminate.
Defined.

(** X3. Release undoes allocation.  After a successful
    [allocate_agent(p, n)] on a pool whose allocated value is not negative,
    [release_agent(p, n)] gives every pool the allocated value it had
    before; the whole state is the one before when the pool had an entry in
    the allocation table. *)
Theorem release_agent_after_allocate
    (agent_type : string) (count : Z) (s s' : AIAgentLoadBalancer) :
  allocate_agent agent_type count s = (true, s') →
  0 ≤ allocated s agent_type →
  (∀ pool, allocated (release_agent agent_type count s') pool = allocated s pool) ∧
  (is_Some (agent_allocation s !! agent_type) →
   release_agent agent_type count s' = s).
Proof.
  intros Ha Hnn. apply allocate_agent_true in Ha. destruct Ha as [_ ->].
  assert (E : release_agent agent_type count
                (set_agent_allocation s
                   (<[agent_type := allocated s agent_type + count]> (agent_allocation s))) =
              set_agent_allocation s
                (<[agent_type := allocated s agent_type]> (agent_allocation s))).
  { unfold release_agent, set_agent_allocation. simpl. unfold dict_get at 1.
    rewrite lookup_insert_eq. simpl. rewrite insert_insert_eq.
    replace (Z.max 0 (allocated s agent_type + count - count))
      with (allocated s agent_type) by lia.
    reflexivity. }
  rewrite E. split.
  - intros pool. rewrite allocated_insert.
    destruct (decide (agent_type = pool)) as [<- | _]; reflexivity.
  - intros [a Hk]. unfold allocated, dict_get. rewrite Hk. simpl.
    rewrite insert_id by exact Hk. destruct s; reflexivity.
Qed.

Lemma release_agent_after_allocate_witness :
  (∀ pool, allocated (release_agent "pool" 3 (single_pool 10 10 1)) pool =
           allocated (single_pool 10 7 1) pool) ∧
  (is_Some (agent_allocation (single_pool 10 7 1) !! "pool"%string) →
   release_agent "pool" 3 (single_pool 10 10 1) = single_pool 10 7 1).
Proof.
  apply (release_agent_after_allocate "pool" 3 (single_pool 10 7 1) (single_pool 10 10 1)).
  - vm_compute. reflexivity.
  - vm_compute. discriminate.
Defined.

(** X4. Allocation undoes release.  On a pool within its capacity, after
    [release_agent(p, n)] with [n] at most the allocated value,
    [allocate_agent(p, n)] succeeds and gives every pool the allocated value
    it had before. *)
Theorem allocate_agent_after_release
    (agent_type : string) (count : Z) (s : AIAgentLoadBalancer) :
  count ≤ allocated s agent_type →
  allocated s agent_type ≤ capacity s agent_type →
  fst (allocate_agent agent_type count (release_agent agent_type count s)) = true ∧
  ∀ pool, allocated (snd (allocate_agent agent_type count
                            (release_agent agent_type count s))) pool =
          allocated s pool.
Proof.
  intros Hc Hle. unfold allocate_agent.
  assert (Hav : count ≤ get_available_agents (release_agent agent_type count s) agent_type).
  { unfold get_available_agents, release_agent, allocated, capacity, dict_get in *.
    simpl. rewrite lookup_insert_eq. simpl. lia. }
  destruct (Z.leb_spec count
              (get_available_agents (release_agent agent_type count s) agent_type));
    [| lia].
  simpl. split; [reflexivity |]. intros pool.
  rewrite allocated_insert.
  destruct (decide (agent_type = pool)) as [<- | Hne].
  - unfold release_agent, allocated, dict_get in *. simpl.
    rewrite lookup_insert_eq. simpl. lia.
  - unfold release_agent, allocated, dict_get. simpl.
    rewrite lookup_insert_ne by exact Hne. reflexivity.
Qed.

Lemma allocate_agent_after_release_witness :
  fst (allocate_agent "pool" 3 (release_agent "pool" 3 (single_pool 10 7 1))) = true ∧
  ∀ pool, allocated (snd (allocate_agent "pool" 3
                            (release_agent "pool" 3 (single_pool 10 7 1)))) pool =
          allocated (single_pool 10 7 1) pool.
Proof.
  apply (allocate_agent_after_release "pool" 3 (single_pool 10 7 1)).
  - vm_compute. discriminate.
  - vm_compute. discriminate.
Defined.

(** X5. [release_agent] never leaves a negative value: for every state,
    pool name and count, negative counts and unknown pools included, the
    released pool ends at [max(0, allocated - count)], which is not
    negative and is 0 as soon as the count reaches the allocated value; a
    pool without an entry gets the entry 0; the other entries and the
    capacity table are not touched. *)
Theorem release_agent_floor (agent_type : string) (count : Z) (s : AIAgentLoadBalancer) :
  let s' := release_agent agent_type count s in
  0 ≤ allocated s' agent_type ∧
  agent_allocation s' !! agent_type = Some (Z.max 0 (allocated s agent_type - count)) ∧
  (allocated s agent_type ≤ count → allocated s' agent_type = 0) ∧
  (agent_allocation s !! agent_type = None → 0 ≤ count →
   agent_allocation s' !! agent_type = Some 0) ∧
  (∀ pool, pool ≠ agent_type →
           agent_allocation s' !! pool = agent_allocation s !! pool) ∧
  agent_capacity s' = agent_capacity s.
Proof.
  cbv zeta. unfold release_agent, allocated, dict_get. simpl.
  rewrite lookup_insert_eq. simpl.
  split; [lia |]. split; [reflexivity |]. split; [lia |].
  split; [intros -> Hc; simpl; f_equal; lia |].
  split; [| reflexivity]. intros pool Hne. rewrite lookup_insert_ne by congruence.
  reflexivity.
Qed.

Section task_registry.
Implicit Types (s : AIAgentLoadBalancer) (q : list Task) (t : Task).

Lemma find_task_middle task_name q1 t q2 :
  (∀ t', t' ∈ q1 → name t' ≠ task_name) → name t = task_name →
  find_task task_name (q1 ++ t :: q2) = Some (length q1, t).
Proof.
  intros Hq Ht. induction q1 as [| y q1 IH]; simpl.
  - destruct (decide (name t = task_name)); [reflexivity | contradiction].
  - destruct (decide (name y = task_name)) as [Hy | Hy].
    + destruct (Hq y); [left | exact Hy].
    + rewrite IH; [reflexivity |]. intros t' Ht'. apply Hq. by right.
Qed.

Lemma delete_middle {A} (l1 : list A) x l2 : delete (length l1) (l1 ++ x :: l2) = l1 ++ l2.
Proof. induction l1 as [| y l1 IH]; simpl; [reflexivity | by rewrite IH]. Qed.

(** The queue that is left holds no task of the name when the queue held
    at most one. *)
Lemma find_task_delete task_name q i t :
  find_task task_name q = Some (i, t) →
  (∀ j t', q !! j = Some t' → name t' = task_name → j = i) →
  find_task task_name (delete i q) = None.
Proof.
  intros Hf Huniq. apply find_task_None. intros t' Ht'.
  apply list_elem_of_lookup in Ht'. destruct Ht' as [j Hj].
  intros Hn. destruct (find_task_Some _ _ _ _ Hf) as (Hi & _ & _).
  destruct (decide (j < i)%nat) as [Hlt | Hge].
  - rewrite list_lookup_delete_lt in Hj by exact Hlt.
    specialize (Huniq j t' Hj Hn). lia.
  - rewrite list_lookup_delete_ge in Hj by lia.
    specialize (Huniq (S j) t' Hj Hn). lia.
Qed.

Lemma call_frame c s :
  agent_capacity (call c s) = agent_capacity s ∧
  current_workload (call c s) = current_workload s ∧
  completed_tasks s `prefix_of` completed_tasks (call c s).
Proof.
  destruct c as [now task_name r | now task_name]; simpl.
  - destruct (assign_task now task_name r s) as [[|] s'] eqn:Ha; simpl.
    + destruct (assign_task_true _ _ _ _ _ Ha) as (_ & Hc & Hw & _ & Hh & _).
      rewrite Hc, Hw, Hh. done.
    + apply assign_task_false in Ha. subst s'. done.
  - destruct (find_task task_name (task_queue s)) as [[i t] |] eqn:Hf.
    + destruct (complete_task_found now _ _ _ _ Hf) as (Hc & Hw & _ & Hh & _).
      rewrite Hc, Hw, Hh. repeat split. by apply prefix_app_r.
    + unfold complete_task. rewrite Hf. done.
Qed.

Lemma call_records c s : task_records_sound s → task_records_sound (call c s).
Proof.
  intros [Hq Hh]. destruct c as [now task_name r | now task_name]; simpl.
  - destruct (assign_task now task_name r s) as [[|] s'] eqn:Ha; simpl.
    + destruct (assign_task_true _ _ _ _ _ Ha) as (_ & _ & _ & Hq' & Hh' & _).
      split; [rewrite Hq' | rewrite Hh'; exact Hh].
      apply Forall_app. split; [exact Hq |]. constructor; [| constructor]. by split.
    + apply assign_task_false in Ha. subst s'. by split.
  - destruct (find_task task_name (task_queue s)) as [[i t] |] eqn:Hf.
    + destruct (complete_task_found now _ _ _ _ Hf) as (_ & _ & Hq' & Hh' & _).
      split; [rewrite Hq'; by apply Forall_delete | rewrite Hh'].
      apply Forall_app. split; [exact Hh |]. constructor; [| constructor].
      split; [reflexivity | eexists; reflexivity].
    + unfold complete_task. rewrite Hf. by split.
Qed.

Lemma call_count c s :
  (length (task_queue (call c s)) + length (completed_tasks (call c s)) =
   length (task_queue s) + length (completed_tasks s) + accepted [c] s)%nat.
Proof.
  destruct c as [now task_name r | now task_name]; simpl.
  - destruct (assign_task now task_name r s) as [[|] s'] eqn:Ha; simpl.
    + destruct (assign_task_true _ _ _ _ _ Ha) as (_ & _ & _ & Hq' & Hh' & _).
      rewrite Hq', Hh', length_app. simpl. lia.
    + apply assign_task_false in Ha. subst s'. lia.
  - destruct (find_task task_name (task_queue s)) as [[i t] |] eqn:Hf.
    + destruct (complete_task_found now _ _ _ _ Hf) as (_ & _ & Hq' & Hh' & _).
      destruct (find_task_Some _ _ _ _ Hf) as (Hi & _ & _).
      rewrite Hq', Hh', length_app, length_delete by (eexists; exact Hi).
      apply lookup_lt_Some in Hi. simpl. lia.
    + unfold complete_task. rewrite Hf. lia.
Qed.

End task_registry.

(** X6. [complete_task] completes the first live task of the name.  When
    the queue is [q1 ++ t :: q2], no task of [q1] has the name and [t] has
    it, the queue becomes [q1 ++ q2] (a later task of the same name stays
    live, the order is kept), the history gets one more record, with the
    reservation and the start time of [t], the status [completed] and the
    end time, each pool of the reservation is released with the floor 0 and
    the capacity table is unchanged. *)
Theorem complete_task_first_match
    (now task_name : string) (s : AIAgentLoadBalancer) (q1 q2 : list Task) (t : Task) :
  task_queue s = q1 ++ t :: q2 →
  (∀ t', t' ∈ q1 → name t' ≠ task_name) →
  name t = task_name →
  task_queue (complete_task now task_name s) = q1 ++ q2 ∧
  completed_tasks (complete_task now task_name s) =
    completed_tasks s ++
    [mkTask task_name (agents t) (start_time t) completed (Some now)] ∧
  (∀ pool, allocated (complete_task now task_name s) pool =
           match deref s (agents t) !! pool with
           | Some count => Z.max 0 (allocated s pool - count)
           | None => allocated s pool
           end) ∧
  agent_capacity (complete_task now task_name s) = agent_capacity s.
Proof.
  intros Hq Hq1 Ht.
  assert (Hf : find_task task_name (task_queue s) = Some (length q1, t))
    by (rewrite Hq; by apply find_task_middle).
  destruct (complete_task_found now _ _ _ _ Hf) as (Hc & _ & Hq' & Hh & Ha).
  rewrite Hq', Hh, Hq, delete_middle, Ht. repeat split; assumption.
Qed.

Lemma complete_task_first_match_witness :
  task_queue (complete_task "t2" "T" duplicate_names) =
    [] ++ [mkTask "T" (dict_object {["pool"%string := 2]}) "t1" in_progress None] ∧
  completed_tasks (complete_task "t2" "T" duplicate_names) =
    completed_tasks duplicate_names ++
    [mkTask "T"
       (agents (mkTask "T" (dict_object {["pool"%string := 1]}) "t0" in_progress None))
       (start_time (mkTask "T" (dict_object {["pool"%string := 1]}) "t0" in_progress None))
       completed (Some "t2"%string)] ∧
  (∀ pool, allocated (complete_task "t2" "T" duplicate_names) pool =
           match deref duplicate_names
                   (agents (mkTask "T" (dict_object {["pool"%string := 1]}) "t0"
                              in_progress None)) !! pool with
           | Some count => Z.max 0 (allocated duplicate_names pool - count)
           | None => allocated duplicate_names pool
           end) ∧
  agent_capacity (complete_task "t2" "T" duplicate_names) = agent_capacity duplicate_names.
Proof.
  apply (complete_task_first_match "t2" "T" duplicate_names []
           [mkTask "T" (dict_object {["pool"%string := 2]}) "t1" in_progress None]
           (mkTask "T" (dict_object {["pool"%string := 1]}) "t0" in_progress None)).
  - vm_compute. reflexivity.
  - intros t' Ht'. destruct (not_elem_of_nil t' Ht').
  - reflexivity.
Defined.

(** X7. [complete_task] is idempotent on unique names: when at most one
    live task has the name, a second [complete_task] of that name changes
    nothing, whether or not the first one found a task. *)
Theorem complete_task_again (now now' task_name : string) (s : AIAgentLoadBalancer) :
  (∀ i j t t', task_queue s !! i = Some t → task_queue s !! j = Some t' →
               name t = task_name → name t' = task_name → i = j) →
  complete_task now' task_name (complete_task now task_name s) =
  complete_task now task_name s.
Proof.
  intros Huniq.
  destruct (find_task task_name (task_queue s)) as [[i t] |] eqn:Hf.
  - destruct (complete_task_found now _ _ _ _ Hf) as (_ & _ & Hq' & _ & _).
    destruct (find_task_Some _ _ _ _ Hf) as (Hi & Hn & _).
    assert (Hnone : find_task task_name (task_queue (complete_task now task_name s)) = None).
    { rewrite Hq'. apply (find_task_delete _ _ _ t Hf).
      intros j t' Hj Hn'. exact (Huniq j i t' t Hj Hi Hn' Hn). }
    unfold complete_task at 1. rewrite Hnone. reflexivity.
  - assert (E : complete_task now task_name s = s)
      by (unfold complete_task; rewrite Hf; reflexivity).
    rewrite E. unfold complete_task. rewrite Hf. reflexivity.
Qed.

Lemma complete_task_again_witness :
  complete_task "t2" "T1" (complete_task "t1" "T1" two_pools_busy) =
  complete_task "t1" "T1" two_pools_busy.
Proof.
  apply complete_task_again.
  intros [| i] [| j] t t'; vm_compute; try discriminate. reflexivity.
Defined.

(** X8. The two lists keep their kinds.  When every live task is
    [in_progress] without an end time and every task of the history is
    [completed] with an end time, this still holds after any sequence of
    [assign_task] and [complete_task] calls, whatever the requests. *)
Theorem run_keeps_task_records (calls : list Call) (s : AIAgentLoadBalancer) :
  task_records_sound s → task_records_sound (run calls s).
Proof.
  revert s. unfold run. induction calls as [| c calls IH]; intros s Hs; simpl;
    [exact Hs |].
  apply IH. by apply call_records.
Qed.

(** X9. No task is lost or duplicated: after any sequence of [assign_task]
    and [complete_task] calls the number of live tasks plus the number of
    tasks of the history has grown by exactly the number of accepted
    assignments. *)
Theorem run_counts_tasks (calls : list Call) (s : AIAgentLoadBalancer) :
  (length (task_queue (run calls s)) + length (completed_tasks (run calls s)) =
   length (task_queue s) + length (completed_tasks s) + accepted calls s)%nat.
Proof.
  revert s. unfold run. induction calls as [| c calls IH]; intros s; simpl; [lia |].
  rewrite IH. pose proof (call_count c s) as Hc. simpl in Hc. lia.
Qed.

(** X10. No sequence of [assign_task] and [complete_task] calls changes
    the capacity table or the workload table, and the history only grows:
    the history before is a prefix of the history after. *)
Theorem run_keeps_capacity (calls : list Call) (s : AIAgentLoadBalancer) :
  agent_capacity (run calls s) = agent_capacity s ∧
  current_workload (run calls s) = current_workload s ∧
  completed_tasks s `prefix_of` completed_tasks (run calls s).
Proof.
  revert s. unfold run. induction calls as [| c calls IH]; intros s; simpl; [done |].
  destruct (IH (call c s)) as (Hc & Hw & Hh).
  destruct (call_frame c s) as (Hc' & Hw' & Hh').
  rewrite Hc, Hw, Hc', Hw'. repeat split. by etrans.
Qed.

Lemma run_keeps_task_records_witness :
  task_records_sound
    (run [AssignTask "t0" "T1"
            (dict_object (list_to_map [("research", 3); ("dev", 2)]%string));
          AssignTask "t1" "T2" self_agent_allocation;
          CompleteTask "t2" "T1"] two_pools).
Proof.
  apply run_keeps_task_records. split; constructor.
Defined.

Section totals.
Implicit Types (d r : gmap string Z).

(** A table raised entry by entry by a request sums to the sum of the two. *)
Lemma sum_values_raised r : ∀ d d',
  (∀ k, d' !! k = match r !! k with
                  | Some c => Some (dict_get d k 0 + c)
                  | None => d !! k
                  end) →
  sum_values d' = sum_values d + sum_values r.
Proof.
  induction r as [| i x r Hi IH] using map_ind; intros d d' Hd.
  - assert (d' = d) as ->.
    { apply map_eq. intros k. rewrite (Hd k), lookup_empty. reflexivity. }
    unfold sum_values at 3. rewrite map_fold_empty. lia.
  - rewrite (sum_values_insert r i x Hi).
    rewrite (sum_values_delete d' i), (sum_values_delete d i).
    rewrite (IH (delete i d) (delete i d')).
    + pose proof (Hd i) as Hdi. rewrite lookup_insert_eq in Hdi.
      assert (Hi' : dict_get d' i 0 = dict_get d i 0 + x)
        by (unfold dict_get at 1; rewrite Hdi; reflexivity).
      lia.
    + intros k. destruct (decide (i = k)) as [<- | Hne].
      * rewrite !lookup_delete_eq, Hi. reflexivity.
      * rewrite !lookup_delete_ne by exact Hne. rewrite (Hd k).
        rewrite lookup_insert_ne by exact Hne.
        unfold dict_get. rewrite lookup_delete_ne by exact Hne. reflexivity.
Qed.

End totals.

(** X11. An accepted [assign_task] raises the sum of the allocation table,
    the numerator of the utilization, by exactly the sum of the counts the
    request held at the call, and leaves the total capacity unchanged. *)
Theorem assign_task_total_allocated
    (now task_name : string) (required_agents : DictRef)
    (s s' : AIAgentLoadBalancer) :
  assign_task now task_name required_agents s = (true, s') →
  sum_values (agent_allocation s') =
    sum_values (agent_allocation s) + sum_values (deref s required_agents) ∧
  get_total_capacity s' = get_total_capacity s.
Proof.
  unfold assign_task. destruct (can_allocate s required_agents) eqn:Hcan; simpl;
    [| discriminate].
  intros [= <-]. apply can_allocate_spec in Hcan.
  destruct (allocate_loop s required_agents Hcan) as (Hc & _ & _ & _ & Ha).
  unfold get_total_capacity. simpl. rewrite Hc. split; [| reflexivity].
  apply sum_values_raised. exact Ha.
Qed.

Lemma assign_task_total_allocated_witness :
  sum_values (agent_allocation two_pools_busy) =
    sum_values (agent_allocation two_pools) +
    sum_values (deref two_pools
                  (dict_object (list_to_map [("research", 3); ("dev", 2)]%string))) ∧
  get_total_capacity two_pools_busy = get_total_capacity two_pools.
Proof.
  apply (assign_task_total_allocated "t0" "T1"). vm_compute. reflexivity.
Defined.

(** X12. A request whose counts are all zero or negative is accepted in
    every state, since [get_available_agents] is never negative; the
    allocated value of each requested pool moves by the count, so a negative
    count lowers it, below zero and for a pool without capacity as well. *)
Theorem assign_task_nonpositive_request
    (now task_name : string) (required_agents : DictRef)
    (s : AIAgentLoadBalancer) :
  map_Forall (λ _ count, count ≤ 0) (deref s required_agents) →
  fst (assign_task now task_name required_agents s) = true ∧
  ∀ pool, allocated (snd (assign_task now task_name required_agents s)) pool =
          allocated s pool + dict_get (deref s required_agents) pool 0.
Proof.
  intros Hneg.
  assert (Hcan : can_allocate s required_agents = true).
  { apply can_allocate_spec. intros k c Hk. specialize (Hneg k c Hk). simpl in *.
    unfold get_available_agents. lia. }
  destruct (assign_task now task_name required_agents s) as [b s'] eqn:Ha.
  assert (b = true) as ->.
  { unfold assign_task in Ha. rewrite Hcan in Ha. simpl in Ha. congruence. }
  destruct (assign_task_true _ _ _ _ _ Ha) as (_ & _ & _ & _ & _ & Hal).
  split; [reflexivity | exact Hal].
Qed.

Lemma assign_task_nonpositive_request_witness :
  fst (assign_task "t0" "T" (dict_object {["ghost"%string := -5]}) two_pools) = true ∧
  ∀ pool, allocated (snd (assign_task "t0" "T" (dict_object {["ghost"%string := -5]})
                            two_pools)) pool =
          allocated two_pools pool +
          dict_get (deref two_pools (dict_object {["ghost"%string := -5]})) pool 0.
Proof.
  apply (assign_task_nonpositive_request "t0" "T" (dict_object {["ghost"%string := -5]})).
  apply (bool_decide_unpack _). vm_compute. exact I.
Defined.

(** *** The scaling policy *)

Lemma float_gt_80_not_lt_30 u :
  float_gt_int u 80 = true → float_lt_int u 30 = false.
Proof.
  unfold float_gt_int, float_lt_int. destruct float_80_30 as [-> ->].
  destruct u as [[] | [] | | [] m e]; try reflexivity; try discriminate.
  unfold SFltb, SFcompare.
  destruct (Z.compare_spec (-46) e), (Z.compare_spec e (-48)); try lia; try reflexivity;
    try discriminate.
Qed.

(** X13. The two thresholds exclude each other: when [should_scale_up] holds,
    [should_scale_down] returns [False], so the [elif] of [auto_scale] loses
    no case. *)
Theorem scale_up_excludes_scale_down (s : AIAgentLoadBalancer) :
  should_scale_up s = Some true → should_scale_down s = Some false.
Proof.
  unfold should_scale_up, should_scale_down.
  destruct (calculate_utilization s) as [u |]; simpl; [| discriminate].
  destruct (float_gt_int u 80) eqn:Hgt; [| discriminate].
  intros _. rewrite (float_gt_80_not_lt_30 u Hgt). reflexivity.
Qed.

Lemma scale_up_excludes_scale_down_witness :
  should_scale_down (single_pool 10 9 1) = Some false.
Proof. apply scale_up_excludes_scale_down. vm_compute. reflexivity. Defined.

Section scaling.
Implicit Types (s : AIAgentLoadBalancer) (c : gmap string Z).

Lemma sum_values_zeros c : sum_values ((λ _, 0) <$> c) = 0.
Proof.
  induction c as [| k v c Hk IH] using map_ind.
  - rewrite fmap_empty. reflexivity.
  - rewrite fmap_insert, sum_values_insert, IH; [reflexivity |].
    rewrite lookup_fmap, Hk. reflexivity.
Qed.

Lemma scale_down_capacity_defined a x :
  Z.abs x < 2 ^ 1000 → is_Some (scale_down_capacity a x).
Proof.
  intros Hx. unfold scale_down_capacity, f0_7.
  destruct (int_mul_int_float_defined x false 6305039478318694 (-53)) as [r Hr];
    [exact Hx | | lia |].
  { mantissa_bounds. lia. }
  destruct (mul_int_float x (S754_finite false 6305039478318694 (-53))) as [y |];
    simpl in *; [| discriminate].
  rewrite Hr. simpl. eexists. reflexivity.
Qed.

(** The utilization of a balancer that holds no allocation is a zero. *)
Lemma calculate_utilization_idle s :
  sum_values (agent_allocation s) = 0 → get_total_capacity s ≠ 0 →
  ∃ sign, calculate_utilization s = Some (S754_zero sign).
Proof.
  intros Ha Hc. unfold calculate_utilization. rewrite Ha.
  destruct (Z.eqb_spec (get_total_capacity s) 0) as [| _]; [contradiction |].
  unfold int_truediv.
  destruct (Z.eqb_spec (get_total_capacity s) 0) as [| _]; [contradiction |].
  simpl. eexists. reflexivity.
Qed.

End scaling.

(** X14. A balancer as [__post_init__] leaves it holds no allocation, so
    when its total capacity is not 0 its utilization is 0: [should_scale_up]
    returns [False] without reading the workload, [should_scale_down]
    returns [True], and [auto_scale] replaces every capacity [c] by
    [max(0 + 2, int(c * 0.7))]; [auto_scale] returns when every capacity is
    below [2 ^ 1000] in absolute value. *)
Theorem auto_scale_fresh_balancer
    (capacity workload : gmap string Z) (queue history : list Task) :
  sum_values capacity ≠ 0 →
  should_scale_up (new_balancer capacity workload queue history) = Some false ∧
  should_scale_down (new_balancer capacity workload queue history) = Some true ∧
  (∀ s', auto_scale (new_balancer capacity workload queue history) = Some s' →
         ∀ pool, agent_capacity s' !! pool =
                 capacity !! pool ≫= scale_down_capacity 0) ∧
  ((∀ pool c, capacity !! pool = Some c → Z.abs c < 2 ^ 1000) →
   is_Some (auto_scale (new_balancer capacity workload queue history))).
Proof.
  intros Hsum. set (s := new_balancer capacity workload queue history).
  destruct (calculate_utilization_idle s) as [sign Hu];
    [apply sum_values_zeros | exact Hsum |].
  assert (Hup : should_scale_up s = Some false).
  { unfold should_scale_up. rewrite Hu. destruct sign; reflexivity. }
  assert (Hdown : should_scale_down s = Some true).
  { unfold should_scale_down. rewrite Hu. destruct sign; reflexivity. }
  split; [exact Hup |]. split; [exact Hdown |].
  unfold auto_scale. rewrite Hup. simpl. rewrite Hdown. simpl. split.
  - intros s' Hs'.
    destruct (update_values _ capacity) as [c' |] eqn:Hc'; simpl in Hs'; [| discriminate].
    injection Hs' as <-. simpl. intros pool.
    pose proof (update_values_lookup _ _ _ Hc' pool) as Hl.
    destruct (capacity !! pool) as [x |]; simpl.
    + destruct Hl as (r & Hr & ->).
      unfold dict_get in Hr. rewrite lookup_fmap in Hr.
      destruct (capacity !! pool); simpl in Hr; symmetry; exact Hr.
    + exact Hl.
  - intros Hsize.
    destruct (update_values_defined
                (λ k x, scale_down_capacity
                          (dict_get ((λ _ : Z, 0) <$> capacity) k 0) x) capacity)
      as [c' Hc'].
    + intros k x Hk. apply scale_down_capacity_defined. by apply (Hsize k).
    + rewrite Hc'. simpl. eexists. reflexivity.
Qed.

Lemma auto_scale_fresh_balancer_witness :
  should_scale_up default_balancer = Some false ∧
  should_scale_down default_balancer = Some true ∧
  (∀ s', auto_scale default_balancer = Some s' →
         ∀ pool, agent_capacity s' !! pool =
                 default_agent_capacity !! pool ≫= scale_down_capacity 0) ∧
  ((∀ pool c, default_agent_capacity !! pool = Some c → Z.abs c < 2 ^ 1000) →
   is_Some (auto_scale default_balancer)).
Proof.
  apply (auto_scale_fresh_balancer default_agent_capacity default_current_workload [] []).
  vm_compute. discriminate.
Defined.

(** X15. The flag is read only above the threshold.  When the workload has
    no key [auto_scaling_ready]: with a utilization above 80
    [should_scale_up] raises [KeyError] and so does [auto_scale]; with a
    utilization of at most 80 [should_scale_up] returns [False]. *)
Theorem should_scale_up_missing_flag (s : AIAgentLoadBalancer) (utilization : spec_float) :
  current_workload s !! "auto_scaling_ready"%string = None →
  calculate_utilization s = Some utilization →
  (float_gt_int utilization 80 = true →
   should_scale_up s = None ∧ auto_scale s = None) ∧
  (float_gt_int utilization 80 = false → should_scale_up s = Some false).
Proof.
  intros Hflag Hu. unfold auto_scale, should_scale_up. rewrite Hu, Hflag. simpl.
  split; intros ->; simpl; auto.
Qed.

Lemma should_scale_up_missing_flag_witness :
  (float_gt_int (S754_finite false 7036874417766400 (-46)) 80 = true →
   should_scale_up full_state = None ∧ auto_scale full_state = None) ∧
  (float_gt_int (S754_finite false 7036874417766400 (-46)) 80 = false →
   should_scale_up full_state = Some false).
Proof.
  apply should_scale_up_missing_flag; vm_compute; reflexivity.
Defined.

(** X16. When [auto_scale] returns, the capacity table has the pools it had,
    no more and no fewer, and the allocation table, the workload, the queue
    and the history are unchanged. *)
Theorem auto_scale_keeps_pools (s s' : AIAgentLoadBalancer) :
  auto_scale s = Some s' →
  (∀ pool, is_Some (agent_capacity s' !! pool) ↔ is_Some (agent_capacity s !! pool)) ∧
  agent_allocation s' = agent_allocation s ∧
  current_workload s' = current_workload s ∧
  task_queue s' = task_queue s ∧
  completed_tasks s' = completed_tasks s.
Proof.
  intros Hs.
  assert (Hkeys : ∀ (f : string → Z → option Z) c',
            update_values f (agent_capacity s) = Some c' →
            ∀ pool, is_Some (c' !! pool) ↔ is_Some (agent_capacity s !! pool)).
  { intros f c' Hc' pool. pose proof (update_values_lookup _ _ _ Hc' pool) as Hl.
    destruct (agent_capacity s !! pool) as [x |].
    - destruct Hl as (r & _ & ->). split; intros _; eexists; reflexivity.
    - rewrite Hl. reflexivity. }
  destruct (auto_scale_cases s s' Hs)
    as [(_ & c' & Hc' & ->) | [(_ & _ & c' & Hc' & ->) | (_ & _ & ->)]]; simpl.
  - split; [by apply (Hkeys _ _ Hc') | done].
  - split; [by apply (Hkeys _ _ Hc') | done].
  - done.
Qed.

Lemma auto_scale_keeps_pools_witness :
  (∀ pool, is_Some (agent_capacity
                      (set_agent_capacity (single_pool 10 9 1) {["pool"%string := 15]})
                    !! pool) ↔
           is_Some (agent_capacity (single_pool 10 9 1) !! pool)) ∧
  agent_allocation (set_agent_capacity (single_pool 10 9 1) {["pool"%string := 15]}) =
    agent_allocation (single_pool 10 9 1) ∧
  current_workload (set_agent_capacity (single_pool 10 9 1) {["pool"%string := 15]}) =
    current_workload (single_pool 10 9 1) ∧
  task_queue (set_agent_capacity (single_pool 10 9 1) {["pool"%string := 15]}) =
    task_queue (single_pool 10 9 1) ∧
  completed_tasks (set_agent_capacity (single_pool 10 9 1) {["pool"%string := 15]}) =
    completed_tasks (single_pool 10 9 1).
Proof.
  apply auto_scale_keeps_pools. vm_compute. reflexivity.
Defined.

(** X17. Scale-up lowers nothing: when [should_scale_up] holds and no
    capacity is negative, [auto_scale] leaves no pool with a smaller
    capacity or fewer available agents, and the total capacity does not
    decrease. *)
Theorem scale_up_raises_capacity (s s' : AIAgentLoadBalancer) :
  should_scale_up s = Some true →
  (∀ pool c, agent_capacity s !! pool = Some c → 0 ≤ c) →
  auto_scale s = Some s' →
  get_total_capacity s ≤ get_total_capacity s' ∧
  ∀ pool, capacity s pool ≤ capacity s' pool ∧
          get_available_agents s pool ≤ get_available_agents s' pool.
Proof.
  intros Hup Hnn Hs.
  destruct (auto_scale_cases s s' Hs)
    as [(_ & c' & Hc' & ->) | [(Hup' & _) | (Hup' & _)]]; [| congruence | congruence].
  assert (Hle : ∀ pool, 0 ≤ dict_get (agent_capacity s) pool 0 ≤ dict_get c' pool 0).
  { intros pool. pose proof (update_values_lookup _ _ _ Hc' pool) as Hl.
    unfold dict_get. destruct (agent_capacity s !! pool) as [x |] eqn:Hx; simpl.
    - destruct Hl as (r & Hr & ->). simpl. specialize (Hnn pool x Hx).
      pose proof (scale_up_capacity_ge x r Hnn Hr). lia.
    - rewrite Hl. simpl. lia. }
  split.
  - unfold get_total_capacity. simpl. apply sum_values_le. exact Hle.
  - intros pool. specialize (Hle pool).
    unfold capacity, get_available_agents. simpl. lia.
Qed.

Lemma scale_up_raises_capacity_witness :
  get_total_capacity (single_pool 10 9 1) ≤
    get_total_capacity (set_agent_capacity (single_pool 10 9 1) {["pool"%string := 15]}) ∧
  ∀ pool,
    capacity (single_pool 10 9 1) pool ≤
      capacity (set_agent_capacity (single_pool 10 9 1) {["pool"%string := 15]}) pool ∧
    get_available_agents (single_pool 10 9 1) pool ≤
      get_available_agents
        (set_agent_capacity (single_pool 10 9 1) {["pool"%string := 15]}) pool.
Proof.
  apply scale_up_raises_capacity.
  - vm_compute. reflexivity.
  - intros pool c Hc. simpl in Hc. apply lookup_singleton_Some in Hc.
    destruct Hc as [_ <-]. lia.
  - vm_compute. reflexivity.
Defined.

(** X18. Scale-down leaves room: after [auto_scale] took its scale-down
    branch every pool of the capacity table has at least 2 agents
    available, so a request of at most 2 agents from each of some of these
    pools is accepted. *)
Theorem scale_down_leaves_room
    (s s' : AIAgentLoadBalancer) (now task_name : string)
    (required_agents : DictRef) :
  should_scale_up s = Some false →
  should_scale_down s = Some true →
  auto_scale s = Some s' →
  (∀ pool count, deref s' required_agents !! pool = Some count →
                 count ≤ 2 ∧ is_Some (agent_capacity s !! pool)) →
  (∀ pool, is_Some (agent_capacity s !! pool) → 2 ≤ get_available_agents s' pool) ∧
  fst (assign_task now task_name required_agents s') = true.
Proof.
  intros Hup Hdown Hs Hreq.
  destruct (auto_scale_cases s s' Hs)
    as [(Hup' & _) | [(_ & _ & c' & Hc' & ->) | (_ & Hdown' & _)]];
    [congruence | | congruence].
  assert (Hroom : ∀ pool, is_Some (agent_capacity s !! pool) →
                          2 ≤ get_available_agents (set_agent_capacity s c') pool).
  { intros pool [x Hx]. pose proof (update_values_lookup _ _ _ Hc' pool) as Hl.
    rewrite Hx in Hl. destruct Hl as (r & Hr & Hl).
    apply scale_down_capacity_ge in Hr.
    unfold get_available_agents, dict_get in *. simpl. rewrite Hl. simpl. lia. }
  split; [exact Hroom |].
  assert (Hcan : can_allocate (set_agent_capacity s c') required_agents = true).
  { apply can_allocate_spec. intros pool count Hp. simpl.
    destruct (Hreq pool count Hp) as [Hc Hk]. specialize (Hroom pool Hk). lia. }
  unfold assign_task. rewrite Hcan. reflexivity.
Qed.

Lemma scale_down_leaves_room_witness :
  (∀ pool, is_Some (agent_capacity (single_pool 20 1 1) !! pool) →
           2 ≤ get_available_agents
                 (set_agent_capacity (single_pool 20 1 1) {["pool"%string := 14]}) pool) ∧
  fst (assign_task "t0" "T" (dict_object {["pool"%string := 2]})
         (set_agent_capacity (single_pool 20 1 1) {["pool"%string := 14]})) = true.
Proof.
  apply (scale_down_leaves_room (single_pool 20 1 1)).
  - vm_compute. reflexivity.
  - vm_compute. reflexivity.
  - vm_compute. reflexivity.
  - intros pool count Hc. simpl in Hc. apply lookup_singleton_Some in Hc.
    destruct Hc as [<- <-]. split; [lia | eexists; reflexivity].
Defined.

(** X19. For a capacity from 0 to below [2 ^ 48], when seven tenths of the
    capacity, rounded down, are at most [allocated + 2], the scaled-down
    capacity is exactly [allocated + 2]: the rounding of [capacity * 0.7]
    does not matter there. *)
Theorem scale_down_capacity_margin (allocated capacity : Z) :
  0 ≤ capacity < 2 ^ 48 →
  7 * capacity / 10 ≤ allocated + 2 →
  scale_down_capacity allocated capacity = Some (allocated + 2).
Proof.
  intros Hc Hle.
  destruct (scale_down_capacity_defined allocated capacity) as [r Hr].
  { assert (2 ^ 48 < 2 ^ 1000) by (apply Z.pow_lt_mono_r; lia). lia. }
  pose proof (scale_down_capacity_bounds allocated capacity r Hc Hr).
  rewrite Hr. f_equal. lia.
Qed.

Lemma scale_down_capacity_margin_witness :
  scale_down_capacity 3 3 = Some (3 + 2).
Proof. apply scale_down_capacity_margin; [| vm_compute; discriminate]. split; [lia | reflexivity]. Defined.

(** *** The thresholds of the policy in integers *)

Section thresholds.

Lemma utilization_closed a c :
  0 < a ≤ c → c < 2 ^ 1000 →
  ∃ k, 52 ≤ k ≤ 1053 ∧ 2 ^ 52 * c ≤ a * 2 ^ k < 2 ^ 53 * c ∧
       2 ^ 52 ≤ nearest_even (a * 2 ^ k) c ≤ 2 ^ 53 ∧
       (q ← int_truediv a c; mul_float_int q 100) =
         Some (percent_double k (nearest_even (a * 2 ^ k) c)).
Proof.
  intros Hac Hc.
  destruct (ratio_exponent a c Hac) as (k & Hk & Hb).
  assert (Hdc : Zdigits2 c ≤ 1000) by (apply Zdigits2_le; lia).
  destruct (int_truediv_nearest a c k ltac:(lia) ltac:(lia) ltac:(lia) Hb) as [Hm Hq].
  cbv zeta in Hm, Hq. exists k. split; [lia |]. split; [exact Hb |]. split; [exact Hm |].
  rewrite Hq. clear Hq. simpl. rewrite mul_float_int_100. unfold percent_double.
  revert Hm. generalize (nearest_even (a * 2 ^ k) c). intros mq Hm.
  mantissa_bounds.
  destruct (Z.eqb_spec mq 9007199254740992) as [-> | Hne].
  - destruct (float_mul_100_nearest 4503599627370496 (1 - k)) as (Hu & _ & _);
      [mantissa_bounds; lia | lia |].
    cbv zeta in Hu. rewrite Hu. clear Hu.
    change (25 * 4503599627370496 <? 2 ^ 57) with true. cbv iota.
    change (nearest_even (25 * 4503599627370496) 16) with 7036874417766400.
    change (Z.to_pos 7036874417766400) with 7036874417766400%positive.
    replace (1 - k + 6) with (7 - k) by lia. reflexivity.
  - destruct mq as [| pq | pq]; [lia | | lia].
    change (Z.to_pos (Zpos pq)) with pq.
    destruct (float_mul_100_nearest pq (- k)) as (Hu & _ & _);
      [mantissa_bounds; lia | lia |].
    cbv zeta in Hu. rewrite Hu. clear Hu.
    change (2 ^ 57) with 144115188075855872.
    replace (- k + 6) with (6 - k) by lia. replace (- k + 7) with (7 - k) by lia.
    reflexivity.
Qed.

Lemma nearest_even_ge_1 N D T :
  0 < D → T ≤ nearest_even N D → (2 * T - 1) * D ≤ 2 * N.
Proof. intros HD H. apply (nearest_even_ge N D T HD) in H. lia. Qed.

Lemma nearest_even_ge_2 N D T :
  0 < D → (2 * T - 1) * D < 2 * N → T ≤ nearest_even N D.
Proof. intros HD H. apply (nearest_even_ge N D T HD). left. exact H. Qed.

Lemma nearest_even_le_1 N D T :
  0 < D → nearest_even N D ≤ T → 2 * N ≤ (2 * T + 1) * D.
Proof. intros HD H. apply (nearest_even_le N D T HD) in H. lia. Qed.

Lemma nearest_even_le_2 N D T :
  0 < D → 2 * N < (2 * T + 1) * D → nearest_even N D ≤ T.
Proof. intros HD H. apply (nearest_even_le N D T HD). left. exact H. Qed.

(** What the exponent of the ratio says of the ratio. *)
Lemma ratio_exponent_cases a c k :
  0 < a → 0 < c → 52 ≤ k → 2 ^ 52 * c ≤ a * 2 ^ k < 2 ^ 53 * c →
  (k = 52 → a * 2 ^ k = a * 4503599627370496) ∧
  (k = 53 → a * 2 ^ k = a * 9007199254740992) ∧
  (k = 54 → a * 2 ^ k = a * 18014398509481984) ∧
  (k = 55 → a * 2 ^ k = a * 36028797018963968) ∧
  (54 ≤ k → 2 * a < c) ∧ (55 ≤ k → 4 * a < c) ∧ (56 ≤ k → 8 * a < c).
Proof.
  intros Ha Hc Hk Hb.
  assert (Hge : ∀ j, 0 ≤ j ≤ k → a * 2 ^ j ≤ a * 2 ^ k).
  { intros j Hj. apply Z.mul_le_mono_nonneg_l; [lia |]. by apply pow2_le_mono. }
  split; [intros ->; reflexivity |]. split; [intros ->; reflexivity |].
  split; [intros ->; reflexivity |]. split; [intros ->; reflexivity |].
  mantissa_bounds.
  split; [| split].
  - intros H. specialize (Hge 54 ltac:(lia)). change (2 ^ 54) with 18014398509481984 in Hge. lia.
  - intros H. specialize (Hge 55 ltac:(lia)). change (2 ^ 55) with 36028797018963968 in Hge. lia.
  - intros H. specialize (Hge 56 ltac:(lia)). change (2 ^ 56) with 72057594037927936 in Hge. lia.
Qed.

(** The scale-up threshold on the computed percentage is the comparison
    [4 * c < 5 * a] of the two integers. *)
Lemma percent_above_80 a c k :
  0 < a ≤ c → c < 2 ^ 50 → 52 ≤ k →
  2 ^ 52 * c ≤ a * 2 ^ k < 2 ^ 53 * c →
  float_gt_int (percent_double k (nearest_even (a * 2 ^ k) c)) 80 = true ↔
  4 * c < 5 * a.
Proof.
  intros Hac Hc Hk Hb.
  destruct (ratio_exponent_cases a c k ltac:(lia) ltac:(lia) Hk Hb)
    as (H52 & H53 & H54 & H55 & Hk54 & Hk55 & Hk56).
  assert (Hmq : 2 ^ 52 ≤ nearest_even (a * 2 ^ k) c ≤ 2 ^ 53).
  { pose proof (nearest_even_bounds (a * 2 ^ k) c) as Hn.
    assert (2 ^ 52 ≤ a * 2 ^ k / c) by (apply Z.div_le_lower_bound; lia).
    assert (a * 2 ^ k / c < 2 ^ 53) by (apply Z.div_lt_upper_bound; lia).
    lia. }
  assert (Hc0 : 0 < c) by lia.
  pose proof (nearest_even_ge_1 (a * 2 ^ k) c) as G1.
  pose proof (nearest_even_ge_2 (a * 2 ^ k) c) as G2.
  pose proof (nearest_even_le_1 (a * 2 ^ k) c) as L1.
  pose proof (nearest_even_le_2 (a * 2 ^ k) c) as L2.
  revert H52 H53 H54 H55 Hb Hmq G1 G2 L1 L2.
  generalize (a * 2 ^ k). intros N H52 H53 H54 H55 Hb.
  generalize (nearest_even N c). intros mq Hmq G1 G2 L1 L2.
  change (2 ^ 50) with 1125899906842624 in Hc. mantissa_bounds.
  assert (Hcase : k = 52 ∨ k = 53 ∨ 54 ≤ k) by lia.
  unfold percent_double.
  destruct (Z.eqb_spec mq 9007199254740992) as [Hcarry | Hne].
  - rewrite float_gt_80.
    specialize (G1 9007199254740992 Hc0 ltac:(lia)).
    destruct Hcase as [E | [E | E]].
    + specialize (H52 E). lia.
    + specialize (H53 E). lia.
    + specialize (Hk54 E). lia.
  - destruct (Z.ltb_spec (25 * mq) 144115188075855872) as [Hlt | Hge].
    + pose proof (nearest_even_bounds (25 * mq) 16) as Hn16.
      assert (H16 : 7036874417766400 ≤ 25 * mq / 16) by (apply Z.div_le_lower_bound; lia).
      revert Hn16. generalize (nearest_even (25 * mq) 16). intros m16 Hn16.
      rewrite float_gt_80, Z2Pos.id by lia.
      destruct Hcase as [E | [E | E]].
      * specialize (H52 E). lia.
      * specialize (H53 E).
        specialize (L1 5764607523034234 Hc0 ltac:(lia)). lia.
      * specialize (Hk54 E). lia.
    + pose proof (nearest_even_bounds (25 * mq) 32) as Hn32.
      assert (H32 : 4503599627370496 ≤ 25 * mq / 32) by (apply Z.div_le_lower_bound; lia).
      pose proof (nearest_even_ge_1 (25 * mq) 32 5629499534213121 ltac:(lia)) as G1'.
      pose proof (nearest_even_ge_2 (25 * mq) 32 5629499534213121 ltac:(lia)) as G2'.
      revert Hn32 G1' G2'. generalize (nearest_even (25 * mq) 32). intros m32 Hn32 G1' G2'.
      rewrite float_gt_80, Z2Pos.id by lia.
      destruct Hcase as [E | [E | E]].
      * specialize (H52 E). specialize (L2 4503599627370496 Hc0 ltac:(lia)). lia.
      * specialize (H53 E).
        assert (E1 : 7205759403792795 ≤ mq ↔ 4 * c < 5 * a).
        { split; intros H.
          - specialize (G1 7205759403792795 Hc0 H). lia.
          - apply (G2 7205759403792795 Hc0). lia. }
        assert (E2 : 5629499534213121 ≤ m32 ↔ 7205759403792795 ≤ mq).
        { split; intros H.
          - specialize (G1' H). lia.
          - apply G2'. lia. }
        lia.
      * specialize (Hk54 E). lia.
Qed.

(** The scale-down threshold on the computed percentage is the comparison
    [10 * a < 3 * c] of the two integers. *)
Lemma percent_below_30 a c k :
  0 < a ≤ c → c < 2 ^ 50 → 52 ≤ k →
  2 ^ 52 * c ≤ a * 2 ^ k < 2 ^ 53 * c →
  float_lt_int (percent_double k (nearest_even (a * 2 ^ k) c)) 30 = true ↔
  10 * a < 3 * c.
Proof.
  intros Hac Hc Hk Hb.
  destruct (ratio_exponent_cases a c k ltac:(lia) ltac:(lia) Hk Hb)
    as (H52 & H53 & H54 & H55 & Hk54 & Hk55 & Hk56).
  assert (Hmq : 2 ^ 52 ≤ nearest_even (a * 2 ^ k) c ≤ 2 ^ 53).
  { pose proof (nearest_even_bounds (a * 2 ^ k) c) as Hn.
    assert (2 ^ 52 ≤ a * 2 ^ k / c) by (apply Z.div_le_lower_bound; lia).
    assert (a * 2 ^ k / c < 2 ^ 53) by (apply Z.div_lt_upper_bound; lia).
    lia. }
  assert (Hc0 : 0 < c) by lia.
  pose proof (nearest_even_ge_1 (a * 2 ^ k) c) as G1.
  pose proof (nearest_even_ge_2 (a * 2 ^ k) c) as G2.
  pose proof (nearest_even_le_1 (a * 2 ^ k) c) as L1.
  pose proof (nearest_even_le_2 (a * 2 ^ k) c) as L2.
  revert H52 H53 H54 H55 Hb Hmq G1 G2 L1 L2.
  generalize (a * 2 ^ k). intros N H52 H53 H54 H55 Hb.
  generalize (nearest_even N c). intros mq Hmq G1 G2 L1 L2.
  change (2 ^ 50) with 1125899906842624 in Hc. mantissa_bounds.
  assert (Hcase : k = 52 ∨ k = 53 ∨ k = 54 ∨ k = 55 ∨ 56 ≤ k) by lia.
  unfold percent_double.
  destruct (Z.eqb_spec mq 9007199254740992) as [Hcarry | Hne].
  - rewrite float_lt_30.
    specialize (G1 9007199254740992 Hc0 ltac:(lia)).
    destruct Hcase as [E | [E | [E | [E | E]]]].
    + specialize (H52 E). lia.
    + specialize (H53 E). lia.
    + specialize (H54 E). lia.
    + specialize (H55 E). lia.
    + specialize (Hk56 E). lia.
  - destruct (Z.ltb_spec (25 * mq) 144115188075855872) as [Hlt | Hge].
    + pose proof (nearest_even_bounds (25 * mq) 16) as Hn16.
      assert (H16 : 7036874417766400 ≤ 25 * mq / 16) by (apply Z.div_le_lower_bound; lia).
      pose proof (nearest_even_le_1 (25 * mq) 16 8444249301319679 ltac:(lia)) as L1'.
      pose proof (nearest_even_le_2 (25 * mq) 16 8444249301319679 ltac:(lia)) as L2'.
      revert Hn16 L1' L2'. generalize (nearest_even (25 * mq) 16). intros m16 Hn16 L1' L2'.
      rewrite float_lt_30, Z2Pos.id by lia.
      destruct Hcase as [E | [E | [E | [E | E]]]].
      * specialize (H52 E). lia.
      * specialize (H53 E). lia.
      * specialize (H54 E).
        assert (E1 : mq ≤ 5404319552844594 ↔ 10 * a < 3 * c).
        { split; intros H.
          - specialize (L1 5404319552844594 Hc0 H). lia.
          - apply (L2 5404319552844594 Hc0). lia. }
        assert (E2 : m16 ≤ 8444249301319679 ↔ mq ≤ 5404319552844594).
        { split; intros H.
          - specialize (L1' H). lia.
          - apply L2'. lia. }
        lia.
      * specialize (Hk55 ltac:(lia)). lia.
      * specialize (Hk55 ltac:(lia)). lia.
    + pose proof (nearest_even_bounds (25 * mq) 32) as Hn32.
      assert (H32 : 4503599627370496 ≤ 25 * mq / 32) by (apply Z.div_le_lower_bound; lia).
      assert (H32' : 25 * mq / 32 < 7036874417766400) by (apply Z.div_lt_upper_bound; lia).
      revert Hn32. generalize (nearest_even (25 * mq) 32). intros m32 Hn32.
      rewrite float_lt_30, Z2Pos.id by lia.
      destruct Hcase as [E | [E | [E | [E | E]]]].
      * specialize (H52 E). lia.
      * specialize (H53 E). lia.
      * specialize (H54 E).
        specialize (G1 5764607523034235 Hc0 ltac:(lia)). lia.
      * specialize (Hk55 ltac:(lia)). lia.
      * specialize (Hk56 E). lia.
Qed.

(** The percentage and its two thresholds for a ratio [a / c] below
    [2 ^ 50]. *)
Lemma utilization_thresholds a c :
  0 ≤ a ≤ c → 0 < c < 2 ^ 50 →
  ∃ u, (q ← int_truediv a c; mul_float_int q 100) = Some u ∧
       (float_gt_int u 80 = true ↔ 4 * c < 5 * a) ∧
       (float_lt_int u 30 = true ↔ 10 * a < 3 * c).
Proof.
  intros Hac Hc.
  destruct (Z.eq_dec a 0) as [-> | Ha].
  - exists (S754_zero false). unfold int_truediv.
    destruct (Z.eqb_spec c 0) as [| _]; [lia |].
    destruct (Z.ltb_spec c 0) as [| _]; [lia |].
    split; [reflexivity |].
    change (float_gt_int (S754_zero false) 80) with false.
    change (float_lt_int (S754_zero false) 30) with true.
    split; (split; intros H; [try discriminate; lia | try reflexivity; lia]).
  - assert (Hbig : 2 ^ 50 < 2 ^ 1000) by (apply Z.pow_lt_mono_r; lia).
    destruct (utilization_closed a c ltac:(lia) ltac:(lia)) as (k & Hk & Hb & _ & ->).
    eexists. split; [reflexivity |].
    split; [apply percent_above_80 | apply percent_below_30]; lia.
Qed.

Lemma bool_decide_of_iff (b : bool) (P : Prop) `{Decision P} :
  (b = true ↔ P) → b = bool_decide P.
Proof.
  intros Hb. destruct b; case_bool_decide as Hd; try reflexivity.
  - exfalso. apply Hd, Hb. reflexivity.
  - apply Hb in Hd. discriminate.
Qed.

End thresholds.

(** X20. The thresholds in integers.  In a state that satisfies the
    capacity invariant and has a total capacity [c] with [0 < c < 2 ^ 50],
    the comparisons of the double [a / c * 100] with 80 and 30 decide
    exactly as the integers do ([a] the sum of the allocation table):
    [should_scale_down] returns whether [10 * a < 3 * c]; [should_scale_up]
    returns [False] unless [4 * c < 5 * a], and the truth value of the flag
    then ([KeyError] without the flag); and [auto_scale] changes nothing
    when [3 * c ≤ 10 * a] and [5 * a ≤ 4 * c]. *)
Theorem scaling_thresholds (s : AIAgentLoadBalancer) :
  capacity_invariant s →
  0 < get_total_capacity s < 2 ^ 50 →
  should_scale_down s =
    Some (bool_decide (10 * sum_values (agent_allocation s) < 3 * get_total_capacity s)) ∧
  should_scale_up s =
    (if bool_decide (4 * get_total_capacity s < 5 * sum_values (agent_allocation s))
     then truthy <$> current_workload s !! "auto_scaling_ready"%string
     else Some false) ∧
  (3 * get_total_capacity s ≤ 10 * sum_values (agent_allocation s) →
   5 * sum_values (agent_allocation s) ≤ 4 * get_total_capacity s →
   auto_scale s = Some s).
Proof.
  intros Hinv Hc.
  assert (Ha : 0 ≤ sum_values (agent_allocation s) ≤ get_total_capacity s).
  { split.
    - apply sum_values_nonneg. intros pool. apply (Hinv pool).
    - apply sum_values_le. exact Hinv. }
  destruct (utilization_thresholds _ _ Ha Hc) as (u & Hu & Hgt & Hlt).
  assert (Hcu : calculate_utilization s = Some u).
  { unfold calculate_utilization.
    destruct (Z.eqb_spec (get_total_capacity s) 0) as [E | _]; [lia | exact Hu]. }
  revert Ha Hc Hgt Hlt.
  generalize (sum_values (agent_allocation s)), (get_total_capacity s).
  intros a c Ha Hc Hgt Hlt.
  assert (Hdown : should_scale_down s = Some (bool_decide (10 * a < 3 * c))).
  { unfold should_scale_down. rewrite Hcu. simpl.
    rewrite (bool_decide_of_iff _ _ Hlt). reflexivity. }
  assert (Hup : should_scale_up s =
                  (if bool_decide (4 * c < 5 * a)
                   then truthy <$> current_workload s !! "auto_scaling_ready"%string
                   else Some false)).
  { unfold should_scale_up. rewrite Hcu. simpl.
    rewrite (bool_decide_of_iff _ _ Hgt). reflexivity. }
  split; [exact Hdown |]. split; [exact Hup |].
  intros H30 H80. unfold auto_scale. rewrite Hup, Hdown.
  rewrite !bool_decide_eq_false_2 by lia. reflexivity.
Qed.

Lemma scaling_thresholds_witness :
  should_scale_down two_pools_busy =
    Some (bool_decide (10 * sum_values (agent_allocation two_pools_busy)
                       < 3 * get_total_capacity two_pools_busy)) ∧
  should_scale_up two_pools_busy =
    (if bool_decide (4 * get_total_capacity two_pools_busy
                     < 5 * sum_values (agent_allocation two_pools_busy))
     then truthy <$> current_workload two_pools_busy !! "auto_scaling_ready"%string
     else Some false) ∧
  (3 * get_total_capacity two_pools_busy ≤ 10 * sum_values (agent_allocation two_pools_busy) →
   5 * sum_values (agent_allocation two_pools_busy) ≤ 4 * get_total_capacity two_pools_busy →
   auto_scale two_pools_busy = Some two_pools_busy).
Proof.
  apply scaling_thresholds.
  - apply capacity_invariant_check; apply (bool_decide_unpack _); vm_compute; exact I.
  - split; vm_compute; reflexivity.
Defined.
